(** * Soundboard Snag: filename normalizer, markup extractor, board fetcher
      and board search, embedded from [soundboard-snag.py].

    Python strings are modelled as lists of characters.  The alphabet is
    Rocq's [ascii]: code points 0..127 are ASCII; the remaining 128 values
    stand for characters outside ASCII that Python classifies as neither
    whitespace, decimal digit nor cased letter.  Library functions the
    script calls ([re], [str] methods, [os.path.splitext], [int]) are
    modelled on that alphabet. *)

From Stdlib Require Import Ascii String List ZArith Lia Bool DecimalString Sorted.
From stdpp Require Import base option gmap strings list.

Set Default Proof Using "Type".
Local Open Scope Z_scope.

(** ** Strings *)

Abbreviation pystr := (list ascii).

Definition lit (s : string) : pystr := list_ascii_of_string s.

Definition code (c : ascii) : N := N_of_ascii c.

Definition in_range (lo hi : N) (c : ascii) : bool :=
  ((lo <=? code c) && (code c <=? hi))%N.

Definition one_of (cs : string) (c : ascii) : bool :=
  existsb (Ascii.eqb c) (lit cs).

(** [str.isspace] and the class [\s]: tab, newline, vertical tab, form feed,
    carriage return, the four separators 0x1c..0x1f and the space. *)
Definition isspace (c : ascii) : bool := in_range 9 13 c || in_range 28 32 c.

(** The class [\d] on the alphabet. *)
Definition isdigit (c : ascii) : bool := in_range 48 57 c.

Definition isupper_c (c : ascii) : bool := in_range 65 90 c.
Definition islower_c (c : ascii) : bool := in_range 97 122 c.
Definition iscased (c : ascii) : bool := isupper_c c || islower_c c.
Definition isalnum_c (c : ascii) : bool := isdigit c || iscased c.

Definition toupper (c : ascii) : ascii :=
  if islower_c c then ascii_of_N (code c - 32) else c.
Definition tolower (c : ascii) : ascii :=
  if isupper_c c then ascii_of_N (code c + 32) else c.

(** [[a-f0-9]] under [re.IGNORECASE]. *)
Definition ishex (c : ascii) : bool :=
  isdigit c || in_range 97 102 c || in_range 65 70 c.

(** [s.lstrip(chars)], [s.rstrip(chars)] and [s.strip()], the set of
    characters given as a predicate. *)
Fixpoint lstrip (p : ascii -> bool) (s : pystr) : pystr :=
  match s with
  | c :: s' => if p c then lstrip p s' else s
  | [] => []
  end.

Definition rstrip (p : ascii -> bool) (s : pystr) : pystr :=
  rev (lstrip p (rev s)).

Definition strip (s : pystr) : pystr := rstrip isspace (lstrip isspace s).

Fixpoint startswith (p s : pystr) : bool :=
  match p, s with
  | [], _ => true
  | a :: p', b :: s' => Ascii.eqb a b && startswith p' s'
  | _ :: _, [] => false
  end.

(** [s.replace(old, new)] for a non-empty [old]: occurrences are replaced
    from the left and do not overlap.  [skip] counts the characters of the
    current occurrence still to be passed over. *)
Fixpoint replace_from (old new : pystr) (skip : nat) (s : pystr) : pystr :=
  match s with
  | [] => []
  | c :: s' =>
      match skip with
      | S k => replace_from old new k s'
      | O =>
          if startswith old s
          then new ++ replace_from old new (pred (List.length old)) s'
          else c :: replace_from old new O s'
      end
  end.

Definition replace (old new s : pystr) : pystr := replace_from old new O s.

(** [str.islower], [str.isupper], [str.upper], [str.title]. *)
Definition islower (s : pystr) : bool :=
  existsb iscased s && negb (existsb isupper_c s).
Definition isupper (s : pystr) : bool :=
  existsb iscased s && negb (existsb islower_c s).
Definition upper (s : pystr) : pystr := map toupper s.

Fixpoint title_from (previous_is_cased : bool) (s : pystr) : pystr :=
  match s with
  | [] => []
  | c :: s' =>
      (if previous_is_cased then tolower c else toupper c)
        :: title_from (iscased c) s'
  end.

Definition title (s : pystr) : pystr := title_from false s.

(** ** Regular expressions: a backtracking matcher for the constructs the
    script's patterns use. *)

Inductive regex : Type :=
| Eps
| Chr (p : ascii -> bool)
| Cat (a b : regex)
| Alt (a b : regex)
| Star (greedy : bool) (a : regex)
| Grp (a : regex)
| Eos.

Definition Plus (greedy : bool) (a : regex) : regex := Cat a (Star greedy a).
Definition Opt (a : regex) : regex := Alt a Eps.

Fixpoint Rep (n : nat) (a : regex) : regex :=
  match n with
  | O => Eps
  | S n' => Cat a (Rep n' a)
  end.

(** [a{0,n}], greedy. *)
Fixpoint UpTo (n : nat) (a : regex) : regex :=
  match n with
  | O => Eps
  | S n' => Opt (Cat a (UpTo n' a))
  end.

Definition Lit (s : string) : regex :=
  fold_right (fun c r => Cat (Chr (Ascii.eqb c)) r) Eps (lit s).

Definition Any : regex := Chr (fun _ => true).
Definition Not (cs : string) : regex := Chr (fun c => negb (one_of cs c)).

(** The text a group matched: what was consumed between [s] and [rest]. *)
Definition consumed (s rest : pystr) : pystr :=
  firstn (List.length s - List.length rest)%nat s.

Abbreviation groups := (list pystr).
Abbreviation cont := (pystr -> groups -> option (pystr * groups)).

(** The iterations of a star over the matcher [m] of its body.  Greedy:
    one more iteration is tried before the continuation; lazy: the
    continuation first.  An iteration that consumes nothing is refused.
    [fuel] is the length of the subject, which bounds the iterations. *)
Fixpoint star_iter (m : pystr -> groups -> cont -> option (pystr * groups))
  (greedy : bool) (k : cont) (fuel : nat) (s : pystr) (cs : groups)
  : option (pystr * groups) :=
  match fuel with
  | O => k s cs
  | S fuel' =>
      let again :=
        m s cs (fun s' cs' =>
                  if (List.length s' <? List.length s)%nat
                  then star_iter m greedy k fuel' s' cs' else None) in
      if greedy
      then match again with Some r => Some r | None => k s cs end
      else match k s cs with Some r => Some r | None => again end
  end.

(** [rmatch r s cs k] matches [r] at the start of [s] and hands the rest
    and the groups closed so far to the continuation [k]; [None] asks for
    backtracking.  Alternatives are tried in the order of Python's [re]:
    the left branch first.  [Eos] is [$]: the end, or before a final
    newline. *)
Fixpoint rmatch (r : regex) (s : pystr) (cs : groups) (k : cont)
  {struct r} : option (pystr * groups) :=
  match r with
  | Eps => k s cs
  | Chr p =>
      match s with
      | c :: s' => if p c then k s' cs else None
      | [] => None
      end
  | Cat a b => rmatch a s cs (fun s' cs' => rmatch b s' cs' k)
  | Alt a b =>
      match rmatch a s cs k with
      | Some r => Some r
      | None => rmatch b s cs k
      end
  | Star greedy a => star_iter (rmatch a) greedy k (List.length s) s cs
  | Grp a => rmatch a s cs (fun s' cs' => k s' (cs' ++ [consumed s s']))
  | Eos =>
      match s with
      | [] => k s cs
      | [c] => if Ascii.eqb c "010" then k s cs else None
      | _ => None
      end
  end.

Definition match_at (r : regex) (s : pystr) : option (pystr * groups) :=
  rmatch r s [] (fun rest cs => Some (rest, cs)).

(** [re.sub(r, repl, s)]: the leftmost match is replaced, the scan goes on
    after it.  [repl] receives the groups. *)
Fixpoint sub_from (r : regex) (repl : groups -> pystr) (skip : nat)
  (s : pystr) : pystr :=
  match s with
  | [] =>
      match skip, match_at r [] with
      | O, Some (_, cs) => repl cs
      | _, _ => []
      end
  | c :: s' =>
      match skip with
      | S k => sub_from r repl k s'
      | O =>
          match match_at r s with
          | Some (rest, cs) =>
              match (List.length s - List.length rest)%nat with
              | O => repl cs ++ c :: sub_from r repl O s'
              | S n => repl cs ++ sub_from r repl n s'
              end
          | None => c :: sub_from r repl O s'
          end
      end
  end.

Definition re_sub (r : regex) (repl : groups -> pystr) (s : pystr) : pystr :=
  sub_from r repl O s.

(** [re.findall(r, s)]: the groups of every match, from the left, matches
    not overlapping. *)
Fixpoint findall_from (r : regex) (skip : nat) (s : pystr)
  : list (pystr * groups) :=
  match s with
  | [] =>
      match skip, match_at r [] with
      | O, Some (_, cs) => [([], cs)]
      | _, _ => []
      end
  | c :: s' =>
      match skip with
      | S k => findall_from r k s'
      | O =>
          match match_at r s with
          | Some (rest, cs) =>
              (consumed s rest, cs)
                :: findall_from r (pred (List.length s - List.length rest)) s'
          | None => findall_from r O s'
          end
      end
  end.

Definition findall (r : regex) (s : pystr) : list (pystr * groups) :=
  findall_from r O s.

(** ** [html.unescape]

    CPython: [if '&' not in s: return s], else every match of [_charref]
    is replaced by [_replace_charref].  The table [html5] below is an
    excerpt of CPython's [html.entities.html5], so a named reference
    outside the excerpt is left as written; a numeric reference to a
    character outside the alphabet yields the character [opaque].  On a
    string without [&] the function is CPython's; the theorems below use
    it on such strings only, or hold for any function put in its place. *)

Definition opaque : ascii := "255"%char.

(** The code points above 127 of [_invalid_codepoints] that are not keys
    of [_invalid_charrefs]. *)
Definition noncharacter (num : N) : bool :=
  ((64976 <=? num) && (num <=? 65007)
   || (num <=? 1114111) && (N.land num 65534 =? 65534))%N.

Fixpoint digits_value (base : N) (acc : N) (s : pystr) : N :=
  match s with
  | [] => acc
  | c :: s' =>
      let d := if isdigit c then (code c - 48)%N
               else if islower_c c then (code c - 87)%N
               else (code c - 55)%N in
      digits_value base (acc * base + d)%N s'
  end.

Definition _charref : regex :=
  Cat (Lit "&")
    (Grp (Alt (Cat (Lit "#") (Cat (Plus true (Chr isdigit)) (Opt (Lit ";"))))
         (Alt (Cat (Lit "#")
                 (Cat (Chr (one_of "xX")) (Cat (Plus true (Chr ishex)) (Opt (Lit ";")))))
              (Cat (Cat (Chr (fun c => negb (in_range 9 10 c || in_range 12 12 c
                                             || one_of " <&#;" c)))
                        (UpTo 31 (Chr (fun c => negb (in_range 9 10 c || in_range 12 12 c
                                                      || one_of " <&#;" c)))))
                   (Opt (Lit ";")))))).

Definition dquote : ascii := "034"%char.

Definition html5 : list (pystr * pystr) :=
  map (fun kv => (lit (fst kv), snd kv))
    [("amp", lit "&"); ("amp;", lit "&"); ("AMP", lit "&"); ("AMP;", lit "&");
     ("lt", lit "<"); ("lt;", lit "<"); ("LT", lit "<"); ("LT;", lit "<");
     ("gt", lit ">"); ("gt;", lit ">"); ("GT", lit ">"); ("GT;", lit ">");
     ("quot", [dquote]); ("quot;", [dquote]);
     ("QUOT", [dquote]); ("QUOT;", [dquote]);
     ("apos;", lit "'")]%string.

Definition html5_get (name : pystr) : option pystr :=
  snd <$> List.find (fun kv => bool_decide (fst kv = name)) html5.

(** [for x in range(len(s)-1, 1, -1): if s[:x] in html5: ...] *)
Fixpoint longest_prefix (x : nat) (s : pystr) : option pystr :=
  match x with
  | O | S O => None
  | S x' =>
      match html5_get (firstn x s) with
      | Some v => Some (v ++ skipn x s)
      | None => longest_prefix x' s
      end
  end.

Definition _replace_charref (s : pystr) : pystr :=
  match s with
  | "#"%char :: s1 =>
      let num :=
        match s1 with
        | c :: s2 =>
            if one_of "xX" c
            then digits_value 16 0 (rstrip (one_of ";") s2)
            else digits_value 10 0 (rstrip (one_of ";") s1)
        | [] => 0%N
        end in
      if (num =? 0)%N then [opaque]
      else if (num =? 13)%N then [ascii_of_N 13]
      else if (128 <=? num)%N
      then if noncharacter num then [] else [opaque]
      else if ((1 <=? num) && (num <=? 8) || (num =? 11)
               || (14 <=? num) && (num <=? 31) || (num =? 127))%N then []
      else [ascii_of_N num]
  | _ =>
      match html5_get s with
      | Some v => v
      | None =>
          match longest_prefix (pred (List.length s)) s with
          | Some v => v
          | None => "&"%char :: s
          end
      end
  end.

Definition html_unescape (s : pystr) : pystr :=
  if existsb (Ascii.eqb "&") s
  then re_sub _charref (fun cs => _replace_charref (hd [] cs)) s
  else s.

(** ** [os.path.splitext]

    [genericpath._splitext(p, sep, altsep, extsep)]; [posixpath] calls it
    with [sep = '/'] and no [altsep], [ntpath] with [sep = '\\'] and
    [altsep = '/']. *)

Fixpoint rfind_from (c : ascii) (i : Z) (last : Z) (p : pystr) : Z :=
  match p with
  | [] => last
  | x :: p' => rfind_from c (i + 1) (if Ascii.eqb x c then i else last) p'
  end.

(** [p.rfind(c)]: the highest index of [c], [-1] when there is none. *)
Definition rfind (c : ascii) (p : pystr) : Z := rfind_from c 0 (-1) p.

Definition _splitext (p : pystr) (sep : ascii) (altsep : option ascii)
  (extsep : ascii) : pystr * pystr :=
  let sepIndex := rfind sep p in
  let sepIndex :=
    match altsep with
    | Some a => Z.max sepIndex (rfind a p)
    | None => sepIndex
    end in
  let dotIndex := rfind extsep p in
  if (sepIndex <? dotIndex)
     && existsb (fun c => negb (Ascii.eqb c extsep))
          (skipn (Z.to_nat (sepIndex + 1)) (firstn (Z.to_nat dotIndex) p))
  then (firstn (Z.to_nat dotIndex) p, skipn (Z.to_nat dotIndex) p)
  else (p, []).

Definition splitext (p : pystr) : pystr * pystr := _splitext p "/" None ".".
Definition nt_splitext (p : pystr) : pystr * pystr := _splitext p "\" (Some "/"%char) ".".

(** ** Module-level constants *)

Definition digit_str (i : nat) : pystr := [ascii_of_nat (48 + i)].

Definition WINDOWS_RESERVED_NAMES : gset pystr :=
  list_to_set (map lit ["CON"; "PRN"; "AUX"; "NUL"]%string)
  ∪ list_to_set (map (fun i => lit "COM" ++ digit_str i) (seq 1 9))
  ∪ list_to_set (map (fun i => lit "LPT" ++ digit_str i) (seq 1 9)).

(** ** The Filename Normalizer: [SoundboardSnag._sanitize_filename] *)

(** [\d{6}-[a-f0-9]{8}-[a-f0-9]{4}-[a-f0-9]{4}-[a-f0-9]{4}-[a-f0-9]{12}],
    [re.IGNORECASE]. *)
Definition uuid_pattern : regex :=
  Cat (Rep 6 (Chr isdigit))
   (Cat (Lit "-") (Cat (Rep 8 (Chr ishex))
   (Cat (Lit "-") (Cat (Rep 4 (Chr ishex))
   (Cat (Lit "-") (Cat (Rep 4 (Chr ishex))
   (Cat (Lit "-") (Cat (Rep 4 (Chr ishex))
   (Cat (Lit "-") (Rep 12 (Chr ishex))))))))))).

(** [\s+] *)
Definition spaces_pattern : regex := Plus true (Chr isspace).

(** [\s*-\s*] *)
Definition hyphen_pattern : regex :=
  Cat (Star true (Chr isspace)) (Cat (Lit "-") (Star true (Chr isspace))).

(** [\s+(\.[^.]+)$] *)
Definition space_before_ext_pattern : regex :=
  Cat (Plus true (Chr isspace))
    (Cat (Grp (Cat (Lit ".") (Plus true (Not "."))))
       Eos).

(** The class of [<], [>], [:], the double quote, [/], [\], [|], [?]
    and [*]. *)
Definition invalid_char (c : ascii) : bool :=
  one_of "<>:/\|?*" c || Ascii.eqb c dquote.

(** [[\x00-\x1f\x7f]] *)
Definition control_char (c : ascii) : bool := in_range 0 31 c || in_range 127 127 c.

Section Normalizer.

(** [html.unescape], a library function. *)
Variable unescape : pystr -> pystr.

Definition _sanitize_filename (raw_filename sound_id page_title : pystr) : pystr :=
  let cleaned := raw_filename in
  let cleaned := unescape cleaned in
  let cleaned := re_sub uuid_pattern (fun _ => []) cleaned in
  let cleaned :=
    if bool_decide (strip cleaned = []) || startswith (lit ".") (strip cleaned)
    then
      if negb (bool_decide (page_title = []))
         && negb (bool_decide (strip page_title = []))
      then strip page_title ++ lit ".mp3"
      else lit "audio_" ++ sound_id ++ lit ".mp3"
    else cleaned in
  let cleaned := replace (lit "_") (lit " ") cleaned in
  let cleaned := replace (lit "--") (lit "-") cleaned in
  let cleaned := re_sub spaces_pattern (fun _ => lit " ") cleaned in
  let cleaned := re_sub hyphen_pattern (fun _ => lit " - ") cleaned in
  let cleaned := re_sub space_before_ext_pattern (fun cs => hd [] cs) cleaned in
  let cleaned := strip cleaned in
  let cleaned := re_sub (Chr invalid_char) (fun _ => lit "-") cleaned in
  let cleaned := re_sub (Chr control_char) (fun _ => []) cleaned in
  let '(name, ext) := splitext cleaned in
  let name := rstrip (one_of ". ") name in
  let name :=
    if negb (bool_decide (name = [])) && (islower name || isupper name)
    then title name else name in
  let name_upper := upper name in
  let name :=
    if bool_decide (name_upper ∈ WINDOWS_RESERVED_NAMES)
    then lit "_" ++ name else name in
  let cleaned := name ++ ext in
  let cleaned :=
    if bool_decide (cleaned = []) || bool_decide (cleaned = lit ".mp3")
    then lit "audio_" ++ sound_id ++ lit ".mp3" else cleaned in
  cleaned.

End Normalizer.


(** ** The Markup Extractor *)

(** Pattern texts are written with [~] standing for the double quote. *)
Definition qlit (s : string) : pystr :=
  map (fun c => if Ascii.eqb c "~" then dquote else c) (lit s).

Definition QLit (s : string) : regex :=
  fold_right (fun c r => Cat (Chr (Ascii.eqb c)) r) Eps (qlit s).

Definition Seq (rs : list regex) : regex := fold_right Cat Eps rs.

Definition not_dquote : regex := Chr (fun c => negb (Ascii.eqb c dquote)).

(** [<a href=~/sb/sound/\d+~[^>]*class=~[^~]*btn-download-track] *)
Definition download_pattern : regex :=
  Seq [QLit "<a href=~/sb/sound/"; Plus true (Chr isdigit); QLit "~";
       Star true (Not ">"); QLit "class=~"; Star true not_dquote;
       Lit "btn-download-track"].

(** [<div class=~item r~[^>]*data-src=~(\d+)~[^>]*>.*?<div class=~item-title
    text-ellipsis~>\s*<span>(.*?)</span>], [re.DOTALL]. *)
Definition item_pattern : regex :=
  Seq [QLit "<div class=~item r~"; Star true (Not ">"); QLit "data-src=~";
       Grp (Plus true (Chr isdigit)); QLit "~"; Star true (Not ">"); Lit ">";
       Star false Any; QLit "<div class=~item-title text-ellipsis~>";
       Star true (Chr isspace); Lit "<span>"; Grp (Star false Any);
       Lit "</span>"].

(** [<a href=~/sb/sound/(\d+)~[^>]*class=~btn-download-track~] *)
Definition id_pattern : regex :=
  Seq [QLit "<a href=~/sb/sound/"; Grp (Plus true (Chr isdigit)); QLit "~";
       Star true (Not ">"); QLit "class=~btn-download-track~"].

Definition group (n : nat) (m : pystr * groups) : pystr := nth n (snd m) [].

Definition _check_downloads_enabled (html_content : pystr) : bool * nat :=
  let download_buttons := findall download_pattern html_content in
  ((0 <? List.length download_buttons)%nat, List.length download_buttons).

Definition _parse_sound_items (html_content : pystr) : list (pystr * pystr) :=
  let matches := findall item_pattern html_content in
  if negb (bool_decide (matches = []))
  then map (fun m => (group 0 m, group 1 m)) matches
  else
    let sound_ids := findall id_pattern html_content in
    map (fun m => (group 0 m, [])) sound_ids.

(** [re.search]: the first match. *)
Definition re_search (r : regex) (s : pystr) : option (pystr * groups) :=
  head (findall r s).

Definition filename_patterns : list regex :=
  [Seq [QLit "filename=~"; Grp (Plus true not_dquote); QLit "~"];
   Seq [Lit "filename='"; Grp (Plus true (Not "'")); Lit "'"];
   Seq [Lit "filename="; Grp (Plus true (Chr (fun c => negb (isspace c || one_of ";" c))))]].

Definition _extract_filename_from_headers (headers : gmap pystr pystr)
  : option pystr :=
  let content_disp := default [] (headers !! lit "content-disposition") in
  (fix try_patterns (ps : list regex) : option pystr :=
     match ps with
     | [] => None
     | pattern :: ps' =>
         match re_search pattern content_disp with
         | Some m => Some (group 0 m)
         | None => try_patterns ps'
         end
     end) filename_patterns.

(** ** The world the Board Fetcher runs in *)

(** Exceptions deriving from [Exception]; [OtherException] stands for
    every class other than the three the script names ([OSError],
    [ValueError], [UnicodeDecodeError]...), with the text [str(e)]. *)
Inductive exn : Type :=
| HTTPError (code : Z) (reason : pystr)
| URLError (reason : pystr)
| RuntimeError (message : pystr)
| OtherException (message : pystr).

Inductive result (A : Type) : Type :=
| Return (a : A)
| Raise (e : exn).
Arguments Return {A} a.
Arguments Raise {A} e.

(** An HTTP response: [chunks] is what the successive
    [response.read(CHUNK_SIZE)] calls deliver; past its end the body is
    exhausted and [read] returns the empty bytes. *)
Record response : Type := {
  getcode : Z;
  headers : gmap pystr pystr;
  chunks : list (result pystr)
}.

Inductive entry : Type :=
| RegularFile (data : pystr)
| Subdirectory.

(** What lies at the path of the board's output directory. *)
Inductive node : Type :=
| Absent
| NotDirectory
| Directory (entries : gmap pystr entry).

Inductive fs_op : Type :=
| Makedirs
| Open (name : pystr)
| Write (name : pystr)
| Getsize (name : pystr)
| Rmdir.

Inductive event : Type :=
| Requested (url : pystr)
| ReadBody (url : pystr).

(** [urlopen] is the origin server as seen through [urllib]; [fault]
    lets the operating system refuse the fs operation issued at a given
    tick of [clock]; a path [os.path.join(output_dir, name)] is the entry
    [name] of [output_dir]. *)
Record world : Type := {
  urlopen : pystr -> result response;
  fault : fs_op -> nat -> option exn;
  output_dir : node;
  clock : nat;
  log : list event
}.

Definition M (A : Type) : Type := world -> result A * world.

Definition ret {A} (a : A) : M A := fun w => (Return a, w).
Definition raise {A} (e : exn) : M A := fun w => (Raise e, w).
Definition bind {A B} (m : M A) (f : A -> M B) : M B :=
  fun w =>
    match m w with
    | (Return a, w') => f a w'
    | (Raise e, w') => (Raise e, w')
    end.
Definition try_except {A} (m : M A) (handler : exn -> M A) : M A :=
  fun w =>
    match m w with
    | (Return a, w') => (Return a, w')
    | (Raise e, w') => handler e w'
    end.

Declare Scope py_scope.
Delimit Scope py_scope with py.
Notation "x <- m ;; k" := (bind m (fun x => k))
  (at level 100, m at next level, right associativity) : py_scope.
Notation "m ;;; k" := (bind m (fun _ => k))
  (at level 100, right associativity) : py_scope.
Local Open Scope py_scope.

Definition set_dir (n : node) (w : world) : world :=
  {| urlopen := urlopen w; fault := fault w; output_dir := n;
     clock := clock w; log := log w |}.
Definition tick (w : world) : world :=
  {| urlopen := urlopen w; fault := fault w; output_dir := output_dir w;
     clock := S (clock w); log := log w |}.
Definition record (e : event) (w : world) : world :=
  {| urlopen := urlopen w; fault := fault w; output_dir := output_dir w;
     clock := clock w; log := log w ++ [e] |}.

(** An fs operation: the operating system may refuse it, otherwise [run]
    acts on the directory node. *)
Definition fs_call {A} (op : fs_op) (run : node -> result A * node) : M A :=
  fun w =>
    match fault w op (clock w) with
    | Some e => (Raise e, tick w)
    | None => let '(r, n) := run (output_dir w) in (r, set_dir n (tick w))
    end.

Definition os_error {A} (message : string) : result A :=
  Raise (OtherException (lit message)).

Definition do_urlopen (url : pystr) : M response :=
  fun w => (urlopen w url, record (Requested url) w).

(** [os.path.exists], [os.path.isdir], [os.path.isfile]: they do not
    raise. *)
Definition path_exists : M bool :=
  fun w => (Return (match output_dir w with Absent => false | _ => true end), w).
Definition path_isdir : M bool :=
  fun w => (Return (match output_dir w with Directory _ => true | _ => false end), w).
Definition is_file (n : node) (name : pystr) : bool :=
  match n with
  | Directory es =>
      match es !! name with Some (RegularFile _) => true | _ => false end
  | _ => false
  end.
Definition path_isfile (name : pystr) : M bool :=
  fun w => (Return (is_file (output_dir w) name), w).

Definition makedirs : M unit :=
  fs_call Makedirs (fun n =>
    match n with
    | Absent => (Return tt, Directory ∅)
    | _ => (os_error "FileExistsError", n)
    end).

Definition rmdir : M unit :=
  fs_call Rmdir (fun n =>
    match n with
    | Directory es =>
        if bool_decide (es = ∅) then (Return tt, Absent)
        else (os_error "OSError: directory not empty", n)
    | _ => (os_error "OSError", n)
    end).

(** [open(filepath, 'wb')]: the file is created or truncated. *)
Definition open_wb (name : pystr) : M unit :=
  fs_call (Open name) (fun n =>
    match n with
    | Directory es =>
        match es !! name with
        | Some Subdirectory => (os_error "IsADirectoryError", n)
        | _ => (Return tt, Directory (<[name := RegularFile []]> es))
        end
    | _ => (os_error "FileNotFoundError", n)
    end).

Definition file_write (name chunk : pystr) : M unit :=
  fs_call (Write name) (fun n =>
    match n with
    | Directory es =>
        match es !! name with
        | Some (RegularFile data) =>
            (Return tt, Directory (<[name := RegularFile (data ++ chunk)]> es))
        | _ => (os_error "OSError", n)
        end
    | _ => (os_error "OSError", n)
    end).

Definition getsize (name : pystr) : M nat :=
  fs_call (Getsize name) (fun n =>
    match n with
    | Directory es =>
        match es !! name with
        | Some (RegularFile data) => (Return (List.length data), n)
        | _ => (os_error "OSError", n)
        end
    | _ => (os_error "FileNotFoundError", n)
    end).

(** [response.read(CHUNK_SIZE)] on what is left of the body. *)
Definition read_chunk (url : pystr) (left : list (result pystr))
  : M (pystr * list (result pystr)) :=
  fun w =>
    match left with
    | [] => (Return ([], []), record (ReadBody url) w)
    | Return chunk :: left' => (Return (chunk, left'), record (ReadBody url) w)
    | Raise e :: _ => (Raise e, record (ReadBody url) w)
    end.

(** ** The Board Fetcher *)

Definition BASE_URL : pystr := lit "https://www.soundboard.com".
Definition max_consecutive_failures : nat := 2.

(** [(True, (final_filename, size))], [(None, final_filename)] and
    [(False, reason)]; the size is kept in bytes. *)
Inductive DownloadOutcome : Type :=
| Saved (final_filename : pystr) (size : nat)
| Skipped (final_filename : pystr)
| Failed (reason : pystr).

Definition str_of_Z (z : Z) : pystr :=
  lit (DecimalString.NilZero.string_of_int (Z.to_int z)).

Record SoundboardSnag : Type := {
  board_name : pystr;
  base_url : pystr
}.

Section Fetcher.

Variable unescape : pystr -> pystr.
Variable self : SoundboardSnag.

(** [response.read().decode('utf-8')]: the body read to its end; bytes
    and characters are not told apart. *)
Definition _fetch_page : M pystr :=
  let page_url := base_url self ++ lit "/sb/" ++ board_name self in
  try_except
    (response <- do_urlopen page_url ;;
     if negb (getcode response =? 200)
     then raise (RuntimeError
                   (lit "Unable to retrieve soundboard page. HTTP status: "
                    ++ str_of_Z (getcode response)))
     else
       (fix read_all (left : list (result pystr)) (content : pystr) : M pystr :=
          match left with
          | [] => ret content
          | Return chunk :: left' => read_all left' (content ++ chunk)
          | Raise e :: _ => raise e
          end) (chunks response) [])
    (fun e =>
       match e with
       | HTTPError code reason =>
           raise (RuntimeError (lit "HTTP Error " ++ str_of_Z code ++ lit ": " ++ reason))
       | URLError reason => raise (RuntimeError (lit "Network error: " ++ reason))
       | _ => raise e
       end).

(** The loop [while True: chunk = response.read(CHUNK_SIZE) ...]. *)
Fixpoint write_chunks (url name : pystr) (fuel : nat)
  (left : list (result pystr)) : M unit :=
  match fuel with
  | O => ret tt
  | S fuel' =>
      r <- read_chunk url left ;;
      let '(chunk, left') := r in
      if bool_decide (chunk = []) then ret tt
      else file_write name chunk ;;; write_chunks url name fuel' left'
  end.

(** The name [_snag_sound] gives the file of a response with status 200:
    the page title is preferred over the header filename. *)
Definition final_filename_of (sound_id page_title : pystr) (r : response)
  : pystr :=
  let raw_filename :=
    if negb (bool_decide (page_title = []))
       && negb (bool_decide (strip page_title = []))
    then strip page_title ++ lit ".mp3"
    else
      match _extract_filename_from_headers (headers r) with
      | Some raw_filename => raw_filename
      | None => lit "audio_" ++ sound_id ++ lit ".mp3"
      end in
  _sanitize_filename unescape raw_filename sound_id page_title.

(** The [try] block of [_snag_sound]. *)
Definition snag_sound_try (sound_id page_title : pystr) : M DownloadOutcome :=
  let download_url := base_url self ++ lit "/track/download/" ++ sound_id in
  response <- do_urlopen download_url ;;
  let status_code := getcode response in
  if negb (status_code =? 200)
  then ret (Failed (lit "HTTP " ++ str_of_Z status_code))
  else
    let final_filename := final_filename_of sound_id page_title response in
    exists_ <- path_isfile final_filename ;;
    if exists_ : bool then ret (Skipped final_filename)
    else
      open_wb final_filename ;;;
      write_chunks download_url final_filename
        (S (List.length (chunks response))) (chunks response) ;;;
      size <- getsize final_filename ;;
      ret (Saved final_filename size).

(** Its [except] clauses: [HTTPError], [URLError], then [Exception]. *)
Definition failure_reason (e : exn) : pystr :=
  match e with
  | HTTPError code reason => lit "HTTP " ++ str_of_Z code ++ lit ": " ++ reason
  | URLError reason => lit "Network error: " ++ reason
  | RuntimeError message | OtherException message => message
  end.

Definition _snag_sound (sound_id page_title : pystr) : M DownloadOutcome :=
  try_except (snag_sound_try sound_id page_title)
    (fun e => ret (Failed (failure_reason e))).

(** The counters of [snag]; [outcomes] is a history of the outcomes in
    the order of the attempts (the lines the loop prints). *)
Record counters : Type := {
  snagged_count : nat;
  existing_count : nat;
  failed_count : nat;
  consecutive_failures : nat;
  outcomes : list DownloadOutcome
}.

Definition counters0 : counters :=
  {| snagged_count := 0; existing_count := 0; failed_count := 0;
     consecutive_failures := 0; outcomes := [] |}.

Definition count (o : DownloadOutcome) (c : counters) : counters :=
  match o with
  | Saved _ _ =>
      {| snagged_count := S (snagged_count c); existing_count := existing_count c;
         failed_count := failed_count c; consecutive_failures := 0;
         outcomes := outcomes c ++ [o] |}
  | Skipped _ =>
      {| snagged_count := snagged_count c; existing_count := S (existing_count c);
         failed_count := failed_count c; consecutive_failures := 0;
         outcomes := outcomes c ++ [o] |}
  | Failed _ =>
      {| snagged_count := snagged_count c; existing_count := existing_count c;
         failed_count := S (failed_count c);
         consecutive_failures := S (consecutive_failures c);
         outcomes := outcomes c ++ [o] |}
  end.

(** The clean-up at the cut-off: [os.rmdir] inside [try ... except
    OSError: pass]. *)
Definition remove_if_empty : M unit :=
  e <- path_exists ;;
  d <- path_isdir ;;
  if e && d then try_except rmdir (fun _ => ret tt) else ret tt.

(** The loop [for i, (sound_id, page_title) in enumerate(sound_items, 1)];
    the result tells whether the loop left through [break]. *)
Fixpoint download_loop (sound_items : list (pystr * pystr)) (c : counters)
  : M (counters * bool) :=
  match sound_items with
  | [] => ret (c, false)
  | (sound_id, page_title) :: rest =>
      e <- path_exists ;;
      (if negb e then makedirs else ret tt) ;;;
      o <- _snag_sound sound_id page_title ;;
      let c := count o c in
      match o with
      | Failed _ =>
          if (max_consecutive_failures <=? consecutive_failures c)%nat
          then
            (if (snagged_count c =? 0)%nat && (existing_count c =? 0)%nat
             then remove_if_empty else ret tt) ;;;
            ret (c, true)
          else download_loop rest c
      | _ => download_loop rest c
      end
  end.

Definition snag_run : M (counters * bool) :=
  html_content <- _fetch_page ;;
  let '(has_downloads, download_count) := _check_downloads_enabled html_content in
  let sound_items := _parse_sound_items html_content in
  if bool_decide (sound_items = [])
  then raise (RuntimeError (lit "No audio files found on this soundboard page"))
  else if negb has_downloads
  then raise (RuntimeError (lit "Board has downloads disabled - cannot proceed"))
  else download_loop sound_items counters0.

Definition snag : M bool := snag_run ;;; ret true.

End Fetcher.

(** ** Board Search: [search_boards] *)

(** [int(s)] in base 10, [None] for [ValueError]: whitespace of the C
    locale around, an optional sign, digits with single underscores
    between them.  [max_str_digits] is the interpreter's limit on the
    number of digits ([sys.get_int_max_str_digits()], [0] for none; there
    is none before Python 3.11). *)
Definition isspace_c (c : ascii) : bool := in_range 9 13 c || Ascii.eqb c " ".

Fixpoint digits_ok (prev_digit : bool) (s : pystr) : bool :=
  match s with
  | [] => prev_digit
  | c :: s' =>
      if isdigit c then digits_ok true s'
      else if Ascii.eqb c "_" then prev_digit && digits_ok false s'
      else false
  end.

Definition py_int (max_str_digits : nat) (s : pystr) : option Z :=
  let s := rstrip isspace_c (lstrip isspace_c s) in
  let '(sign, s) :=
    match s with
    | c :: r =>
        if Ascii.eqb c "+" then (1, r)
        else if Ascii.eqb c "-" then (-1, r)
        else (1, s)
    | [] => (1, s)
    end in
  if digits_ok false s
  then
    let ds := List.filter isdigit s in
    if (0 <? max_str_digits)%nat && (max_str_digits <? List.length ds)%nat
    then None
    else Some (sign * Z.of_N (digits_value 10 0 ds))
  else None.

Definition lower (s : pystr) : pystr := map tolower s.

(** [/sb/([a-zA-Z0-9_-]+)] *)
Definition board_pattern : regex :=
  Seq [Lit "/sb/"; Grp (Plus true (Chr (fun c => isalnum_c c || one_of "_-" c)))].

(** [data-src=~(\d+)~.*?<span>([^<]+)</span>], [re.DOTALL]. *)
Definition sound_pattern : regex :=
  Seq [QLit "data-src=~"; Grp (Plus true (Chr isdigit)); QLit "~";
       Star false Any; Lit "<span>"; Grp (Plus true (Not "<")); Lit "</span>"].

(** [<strong>Views:\s*</strong>\s*<span class=~text-muted~>\s*([^<]+)</span>] *)
Definition views_pattern : regex :=
  Seq [Lit "<strong>Views:"; Star true (Chr isspace); Lit "</strong>";
       Star true (Chr isspace); QLit "<span class=~text-muted~>";
       Star true (Chr isspace); Grp (Plus true (Not "<")); Lit "</span>"].

(** A tuple of [results]; the description, the category and the tags,
    which are only printed, are left out. *)
Record board : Type := {
  name : pystr;
  has_downloads : bool;
  sounds_info : list (pystr * pystr);
  sound_count : nat;
  views : pystr;
  views_int : Z
}.

Record search_state : Type := {
  results : list board;
  downloadable_count : nat;
  skipped_count : nat
}.

(** [results.sort(key=lambda x: x[8], reverse=True)]: stable. *)
Fixpoint insert_by_views (b : board) (l : list board) : list board :=
  match l with
  | [] => [b]
  | x :: l' =>
      if views_int b <? views_int x then x :: insert_by_views b l' else b :: l
  end.

Definition sort_by_views (l : list board) : list board :=
  fold_right insert_by_views [] l.

(** [results = [r for r in results if r[1]]], then the sort. *)
Definition final_results (st : search_state) : list board :=
  let results := List.filter has_downloads (results st) in
  sort_by_views results.

Definition search_state0 : search_state :=
  {| results := []; downloadable_count := 0; skipped_count := 0 |}.

Section Search.

Variable unescape : pystr -> pystr.
Variable int_max_str_digits : nat.
Variables min_views min_sounds : Z.
Variable max_results : nat.

(** [views_int = 0; if views: try: views_int = int(views.replace(',',
    '')) except ValueError: views_int = 0]. *)
Definition parse_views (views : pystr) : Z :=
  if negb (bool_decide (views = []))
  then
    match py_int int_max_str_digits (replace (lit ",") [] views) with
    | Some n => n
    | None => 0
    end
  else 0.

Definition analyse (board_name board_html : pystr) : board :=
  let sound_matches := findall sound_pattern board_html in
  let has_downloads :=
    negb (bool_decide (re_search download_pattern board_html = None)) in
  let views :=
    match re_search views_pattern board_html with
    | Some m => unescape (strip (group 0 m))
    | None => []
    end in
  let sounds_info :=
    map (fun m => (group 0 m, unescape (strip (group 1 m))))
      (firstn 10 sound_matches) in
  {| name := board_name; has_downloads := has_downloads;
     sounds_info := sounds_info; sound_count := List.length sound_matches;
     views := views; views_int := parse_views views |}.

Definition meets_filters (b : board) : bool :=
  let meets_filters := true in
  let meets_filters :=
    if (0 <? min_views) && (views_int b <? min_views)
    then false else meets_filters in
  let meets_filters :=
    if (0 <? min_sounds) && (Z.of_nat (sound_count b) <? min_sounds)
    then false else meets_filters in
  meets_filters.

(** The end of the loop body: the board joins [results] when it meets
    the filters. *)
Definition consider (b : board) (st : search_state) : search_state :=
  if meets_filters b
  then {| results := results st ++ [b];
          downloadable_count :=
            if has_downloads b && meets_filters b
            then S (downloadable_count st) else downloadable_count st;
          skipped_count := skipped_count st |}
  else {| results := results st;
          downloadable_count := downloadable_count st;
          skipped_count :=
            if has_downloads b then S (skipped_count st) else skipped_count st |}.

Definition read_all (r : response) : M pystr :=
  (fix go (left : list (result pystr)) (content : pystr) : M pystr :=
     match left with
     | [] => ret content
     | Return chunk :: left' => go left' (content ++ chunk)
     | Raise e :: _ => raise e
     end) (chunks r) [].

(** [for board_name in page_boards]; the boolean is [keep_searching]. *)
Fixpoint analyse_boards (page_boards : list pystr) (st : search_state)
  : M (search_state * bool) :=
  match page_boards with
  | [] => ret (st, true)
  | board_name :: rest =>
      if (max_results <=? downloadable_count st)%nat then ret (st, false)
      else
        st' <- try_except
                 (response <- do_urlopen (BASE_URL ++ lit "/sb/" ++ board_name) ;;
                  board_html <- read_all response ;;
                  ret (consider (analyse board_name board_html) st))
                 (fun _ => ret st) ;;
        analyse_boards rest st'
  end.

(** The names of a result page not seen before, in order. *)
Fixpoint new_boards (boards : list pystr) (seen : gset pystr)
  : list pystr * gset pystr :=
  match boards with
  | [] => ([], seen)
  | b :: rest =>
      let b := unescape b in
      if negb (bool_decide (b ∈ seen))
         && negb (bool_decide (lower b ∈ map lit ["search"; "popular"; "new"]%string))
      then let '(l, seen') := new_boards rest ({[b]} ∪ seen) in (b :: l, seen')
      else new_boards rest seen
  end.

Definition search_url (encoded_query : pystr) (page : nat) : pystr :=
  if (1 <? page)%nat
  then BASE_URL ++ lit "/search/" ++ encoded_query ++ lit "?page="
       ++ str_of_Z (Z.of_nat page)
  else BASE_URL ++ lit "/search/" ++ encoded_query.

(** [while keep_searching and page <= max_pages], [pages_left] being
    [max_pages - page + 1]. *)
Fixpoint search_pages (encoded_query : pystr) (pages_left page : nat)
  (seen : gset pystr) (st : search_state) : M search_state :=
  match pages_left with
  | O => ret st
  | S pages_left' =>
      fetched <- try_except
                   (response <- do_urlopen (search_url encoded_query page) ;;
                    html_content <- read_all response ;;
                    ret (Some html_content))
                   (fun e =>
                      match e with
                      | HTTPError _ _ | URLError _ => ret None
                      | _ => raise e
                      end) ;;
      match fetched with
      | None => ret st
      | Some html_content =>
          let boards := map (group 0) (findall board_pattern html_content) in
          let '(page_boards, seen) := new_boards boards seen in
          if bool_decide (page_boards = []) then ret st
          else
            r <- analyse_boards page_boards st ;;
            let '(st, keep_searching) := r in
            if (max_results <=? downloadable_count st)%nat then ret st
            else if keep_searching
                 then search_pages encoded_query pages_left' (S page) seen st
                 else ret st
      end
  end.

(** [encoded_query] is [quote(query)]. *)
Definition search_boards (encoded_query : pystr) : M (list board) :=
  st <- search_pages encoded_query 10 1 ∅ search_state0 ;;
  ret (final_results st).

End Search.

(** * Notions used in the statements *)

(** ** The stages of [_sanitize_filename] *)

Definition isdot (c : ascii) : bool := Ascii.eqb c ".".

(** The fallback of step 3. *)
Definition with_fallback (cleaned sound_id page_title : pystr) : pystr :=
  if bool_decide (strip cleaned = []) || startswith (lit ".") (strip cleaned)
  then
    if negb (bool_decide (page_title = []))
       && negb (bool_decide (strip page_title = []))
    then strip page_title ++ lit ".mp3"
    else lit "audio_" ++ sound_id ++ lit ".mp3"
  else cleaned.

(** Spacing and punctuation, after the underscores were replaced. *)
Definition normalize_spacing (cleaned : pystr) : pystr :=
  let cleaned := replace (lit "--") (lit "-") cleaned in
  let cleaned := re_sub spaces_pattern (fun _ => lit " ") cleaned in
  let cleaned := re_sub hyphen_pattern (fun _ => lit " - ") cleaned in
  let cleaned := re_sub space_before_ext_pattern (fun cs => hd [] cs) cleaned in
  strip cleaned.

Definition sanitize_chars (cleaned : pystr) : pystr :=
  let cleaned := re_sub (Chr invalid_char) (fun _ => lit "-") cleaned in
  re_sub (Chr control_char) (fun _ => []) cleaned.

(** The string handed to [os.path.splitext]. *)
Definition cleaned_name (unescape : pystr -> pystr)
  (raw_filename sound_id page_title : pystr) : pystr :=
  sanitize_chars
    (normalize_spacing
       (replace (lit "_") (lit " ")
          (with_fallback (re_sub uuid_pattern (fun _ => []) (unescape raw_filename))
             sound_id page_title))).

Definition title_if_uniform (name : pystr) : pystr :=
  if negb (bool_decide (name = [])) && (islower name || isupper name)
  then title name else name.

Definition guard_reserved (name : pystr) : pystr :=
  if bool_decide (upper name ∈ WINDOWS_RESERVED_NAMES)
  then lit "_" ++ name else name.

(** The stem as it is rebuilt from the split. *)
Definition rebuilt_stem (name : pystr) : pystr :=
  guard_reserved (title_if_uniform (rstrip (one_of ". ") name)).

Definition fallback_name (sound_id : pystr) : pystr :=
  lit "audio_" ++ sound_id ++ lit ".mp3".

Definition finish (sound_id cleaned : pystr) : pystr :=
  let cleaned := rebuilt_stem (fst (splitext cleaned)) ++ snd (splitext cleaned) in
  if bool_decide (cleaned = []) || bool_decide (cleaned = lit ".mp3")
  then fallback_name sound_id else cleaned.

(** The characters the normalizer must not let through. *)
Definition clean (c : ascii) : bool := negb (invalid_char c) && negb (control_char c).

Definition nondot (c : ascii) : bool := negb (isdot c).

(** After the leading dots there is no dot. *)
Definition leading_dots_only (p : pystr) : bool :=
  forallb nondot (lstrip isdot p).

Definition reserved_list : list pystr :=
  map lit ["CON"; "PRN"; "AUX"; "NUL";
           "COM1"; "COM2"; "COM3"; "COM4"; "COM5"; "COM6"; "COM7"; "COM8"; "COM9";
           "LPT1"; "LPT2"; "LPT3"; "LPT4"; "LPT5"; "LPT6"; "LPT7"; "LPT8"; "LPT9"]%string.

Definition stem (p : pystr) : pystr := fst (splitext p).
Definition extension (p : pystr) : pystr := snd (splitext p).

Definition tail_closed (P : pystr -> Prop) : Prop :=
  forall c t, P (c :: t) -> P t.

(** Every whitespace character is a space, and what follows it is
    neither whitespace nor a dot. *)
Fixpoint well_spaced (s : pystr) : bool :=
  match s with
  | [] => true
  | c :: s' =>
      (if isspace c
       then Ascii.eqb c " "
            && match s' with
               | [] => true
               | d :: _ => negb (isspace d) && negb (isdot d)
               end
       else true)
      && well_spaced s'
  end.

(** A plain character: no whitespace, no control or reserved character,
    none of [-], [_], [.], [&]. *)
Definition plain (c : ascii) : bool :=
  negb (isspace c || control_char c || invalid_char c || one_of "-_.&" c).

(** Words of plain characters separated by single spaces. *)
Fixpoint spaced_words (after_space : bool) (s : pystr) : bool :=
  match s with
  | [] => negb after_space
  | c :: s' =>
      if Ascii.eqb c " " then negb after_space && spaced_words true s'
      else plain c && spaced_words false s'
  end.

Definition simple_stem (n : pystr) : bool := spaced_words true n.

(** No extension, or a dot and plain characters. *)
Definition simple_ext (e : pystr) : bool :=
  match e with
  | [] => true
  | c :: x => isdot c && negb (bool_decide (x = [])) && forallb plain x
  end.

(** The characters of a simple name. *)
Definition simple_char (c : ascii) : bool :=
  plain c || Ascii.eqb c " " || isdot c.

Definition normal_stem (n : pystr) : pystr := guard_reserved (title_if_uniform n).

(** ** The Board Fetcher *)

Section FetcherSpec.

Variable unescape : pystr -> pystr.
Variable self : SoundboardSnag.

Definition download_url (sound_id : pystr) : pystr :=
  base_url self ++ lit "/track/download/" ++ sound_id.

(** The server and the fault oracle are the same in both worlds. *)
Definition same_env (w w' : world) : Prop :=
  urlopen w' = urlopen w /\ fault w' = fault w.

(** No file of the directory disappears. *)
Definition keeps_files (n n' : node) : Prop :=
  forall name, is_file n name = true -> is_file n' name = true.

(** The URLs requested, in order. *)
Definition requests (l : list event) : list pystr :=
  flat_map (fun e => match e with Requested u => [u] | ReadBody _ => [] end) l.

(** What an attempt tells about the world it ran in. *)
Definition outcome_facts (sid title : pystr) (w w' : world)
  (o : DownloadOutcome) : Prop :=
  match o with
  | Saved f _ =>
      exists resp, urlopen w (download_url sid) = Return resp
        /\ getcode resp = 200
        /\ f = final_filename_of unescape sid title resp
        /\ is_file (output_dir w') f = true
  | Skipped f =>
      exists resp, urlopen w (download_url sid) = Return resp
        /\ getcode resp = 200
        /\ f = final_filename_of unescape sid title resp
        /\ is_file (output_dir w) f = true
        /\ w' = record (Requested (download_url sid)) w
  | Failed _ => True
  end.

Definition is_failed (o : DownloadOutcome) : bool :=
  match o with Failed _ => true | _ => false end.

(** The consecutive-failure counter: a failure adds one, a [Saved] or a
    [Skipped] resets it. *)
Definition bump (n : nat) (o : DownloadOutcome) : nat :=
  if is_failed o then S n else O.

Definition trailing_failures (os : list DownloadOutcome) : nat :=
  fold_left bump os O.

Definition tally (os : list DownloadOutcome) (c : counters) : counters :=
  fold_left (fun c o => count o c) os c.

(** The preparation of an attempt: the directory is created when it is
    not there. *)
Definition prepare : M unit :=
  e <- path_exists ;; (if negb e then makedirs else ret tt).

(** The clean-up of the cut-off. *)
Definition cleanup (c : counters) : M unit :=
  if (snagged_count c =? 0)%nat && (existing_count c =? 0)%nat
  then remove_if_empty else ret tt.

Definition is_saved (o : DownloadOutcome) : bool :=
  match o with Saved _ _ => true | _ => false end.
Definition is_skipped (o : DownloadOutcome) : bool :=
  match o with Skipped _ => true | _ => false end.

Definition item_url (it : pystr * pystr) : pystr := download_url (fst it).


End FetcherSpec.

(** A page whose only download button carries two classes. *)
Definition two_class_page : pystr :=
  qlit "<a href=~/sb/sound/1~ class=~btn btn-download-track~>x</a>".

(** A board of four sounds whose server refuses the first two downloads,
    would deliver the third and refuses the fourth: attempted one by
    one, the records give [Failed], [Failed], [Saved], [Failed]. *)
Definition sim_self : SoundboardSnag :=
  {| board_name := lit "b"; base_url := BASE_URL |}.

Definition sim_items : list (pystr * pystr) :=
  [(lit "1", lit "one"); (lit "2", lit "two");
   (lit "3", lit "three"); (lit "4", lit "four")].

Definition sim_server (url : pystr) : result response :=
  if bool_decide (url = BASE_URL ++ lit "/track/download/3")
  then Return {| getcode := 200; headers := ∅; chunks := [Return (lit "RIFF")] |}
  else Raise (HTTPError 404 (lit "Not Found")).

Definition sim_world (n : node) : world :=
  {| urlopen := sim_server; fault := fun _ _ => None; output_dir := n;
     clock := O; log := [] |}.

Definition sim_run : result (counters * bool) * world :=
  download_loop html_unescape sim_self sim_items counters0 (sim_world Absent).

Definition sim_counters : counters :=
  match fst sim_run with
  | Return (c, _) => c
  | Raise _ => counters0
  end.

(** ** Board Search *)



(** A search answered by a single board of 10 sounds and 5 views, with or
    without a download button. *)
Definition quiet_html (with_button : bool) : pystr :=
  qlit "<strong>Views: </strong> <span class=~text-muted~> 5</span>"
  ++ (if with_button
      then qlit "<a href=~/sb/sound/1~ class=~btn btn-download-track~>"
      else [])
  ++ concat (repeat (qlit "<div data-src=~1~><span>s</span>") 10).



Definition quiet_board (with_button : bool) : board :=
  {| name := lit "quiet"; has_downloads := with_button;
     sounds_info := repeat (lit "1", lit "s") 10; sound_count := 10;
     views := lit "5"; views_int := 5 |}.

(** * Further notions *)

(** ** [SoundboardSnag.__init__] and [_extract_board_name]

    [path] is [self.url.path], the path [urllib.parse.urlparse] finds in
    the URL; the [ValueError] raised is an [OtherException]. *)
Definition _extract_board_name (path : pystr) : result pystr :=
  if bool_decide (path = []) || bool_decide (path = lit "/")
  then Raise (OtherException
                (lit "Invalid URL: No soundboard path found. Expected format: https://www.soundboard.com/sb/boardname"))
  else
    let name := strip (replace (lit "/") [] (replace (lit "/sb/") [] path)) in
    if bool_decide (name = [])
    then Raise (OtherException (lit "Could not extract board name from URL path"))
    else Return name.

Definition __init__ (path : pystr) : result SoundboardSnag :=
  match _extract_board_name path with
  | Return board_name => Return {| board_name := board_name; base_url := BASE_URL |}
  | Raise e => Raise e
  end.

(** The class [[a-zA-Z0-9_-]] of the names a search finds. *)
Definition board_char (c : ascii) : bool := isalnum_c c || one_of "_-" c.

(** ** What a pattern matches

    [matches r s cs s' cs']: [r] matches a prefix of [s] leaving [s'],
    the groups going from [cs] to [cs'].  An iteration of a star consumes
    at least one character. *)

Inductive iter (R : pystr -> groups -> pystr -> groups -> Prop)
  : pystr -> groups -> pystr -> groups -> Prop :=
| iter_stop s cs : iter R s cs s cs
| iter_step s cs s1 cs1 s2 cs2 :
    R s cs s1 cs1 -> (List.length s1 < List.length s)%nat ->
    iter R s1 cs1 s2 cs2 -> iter R s cs s2 cs2.

Fixpoint matches (r : regex) (s : pystr) (cs : groups) (s' : pystr)
  (cs' : groups) : Prop :=
  match r with
  | Eps => s' = s /\ cs' = cs
  | Chr p => exists c, s = c :: s' /\ p c = true /\ cs' = cs
  | Cat a b => exists s1 cs1, matches a s cs s1 cs1 /\ matches b s1 cs1 s' cs'
  | Alt a b => matches a s cs s' cs' \/ matches b s cs s' cs'
  | Star _ a => iter (matches a) s cs s' cs'
  | Grp a => exists cs1, matches a s cs s' cs1 /\ cs' = cs1 ++ [consumed s s']
  | Eos => s' = s /\ cs' = cs /\ (s = [] \/ s = ["010"%char])
  end.

(** The pattern of a literal text. *)
Definition lits (l : pystr) : regex :=
  fold_right (fun c r => Cat (Chr (Ascii.eqb c)) r) Eps l.

(** ** The files of the output directory *)

Definition entry_at (n : node) (name : pystr) : option entry :=
  match n with
  | Directory es => es !! name
  | _ => None
  end.

(** Every entry of the directory stays as it is. *)
Definition keeps_entries (n n' : node) : Prop :=
  forall name e, entry_at n name = Some e -> entry_at n' name = Some e.

(** The entries other than [f] are the same. *)
Definition same_but (f : pystr) (n n' : node) : Prop :=
  forall name, name <> f -> entry_at n' name = entry_at n name.

(** The operating system refuses no file operation. *)
Definition no_fault (w : world) : Prop :=
  forall op n, fault w op n = None.

(** What the chunk loop of [_snag_sound] writes of a body: the chunks up
    to the first empty one, to a failing read or to the end. *)
Fixpoint received (parts : list (result pystr)) : pystr :=
  match parts with
  | Return chunk :: rest =>
      if bool_decide (chunk = []) then [] else chunk ++ received rest
  | _ => []
  end.

(** The exception that ends the chunk loop, if one does. *)
Fixpoint read_error (parts : list (result pystr)) : option exn :=
  match parts with
  | Return chunk :: rest =>
      if bool_decide (chunk = []) then None else read_error rest
  | Raise e :: _ => Some e
  | [] => None
  end.

(** A server whose connection breaks after the first chunk of a body. *)
Definition cut_server (url : pystr) : result response :=
  Return {| getcode := 200; headers := ∅;
            chunks := [Return (lit "RI"); Raise (OtherException (lit "timed out"))] |}.

Definition cut_world : world :=
  {| urlopen := cut_server; fault := fun _ _ => None;
     output_dir := Directory ∅; clock := O; log := [] |}.

(** The URL of the board page. *)
Definition page_url (self : SoundboardSnag) : pystr :=
  base_url self ++ lit "/sb/" ++ board_name self.

(** A board of two sounds with download buttons, its server, and a
    world whose output directory holds a file of the user. *)
Definition demo_page : pystr :=
  qlit "<div class=~item r~ data-src=~17~><div class=~item-title text-ellipsis~> <span>laser</span><a href=~/sb/sound/17~ class=~btn btn-download-track~></a><div class=~item r~ data-src=~18~><div class=~item-title text-ellipsis~> <span>blast</span><a href=~/sb/sound/18~ class=~btn btn-download-track~></a>".

Definition play_only_page : pystr :=
  qlit "<div class=~item r~ data-src=~17~><div class=~item-title text-ellipsis~> <span>laser</span>".

Definition demo_server (page : pystr) (url : pystr) : result response :=
  if bool_decide (url = lit "https://www.soundboard.com/sb/b")
  then Return {| getcode := 200; headers := ∅; chunks := [Return page] |}
  else if bool_decide (url = lit "https://www.soundboard.com/track/download/17")
  then Return {| getcode := 200; headers := ∅;
                 chunks := [Return (lit "RI"); Return (lit "FF")] |}
  else if bool_decide (url = lit "https://www.soundboard.com/track/download/18")
  then Return {| getcode := 200; headers := ∅; chunks := [Return (lit "WAVE")] |}
  else Raise (HTTPError 404 (lit "Not Found")).

Definition demo_world (page : pystr) (n : node) : world :=
  {| urlopen := demo_server page; fault := fun _ _ => None; output_dir := n;
     clock := O; log := [] |}.

(** The exception is one of the two [urllib] classes. *)
Definition is_urllib_error (e : exn) : bool :=
  match e with
  | HTTPError _ _ | URLError _ => true
  | _ => false
  end.

(** [response.read()]: the body read to its end. *)
Fixpoint read_whole (parts : list (result pystr)) : result pystr :=
  match parts with
  | [] => Return []
  | Return chunk :: rest =>
      match read_whole rest with
      | Return body => Return (chunk ++ body)
      | Raise e => Raise e
      end
  | Raise e :: _ => Raise e
  end.

Definition is_runtime_error (e : exn) : bool :=
  match e with RuntimeError _ => true | _ => false end.

(** ** A run in which every download succeeds *)






(** ** Board Search: what the loops keep *)

(** The names [search_boards] passes over. *)
Definition excluded_names : list pystr := map lit ["search"; "popular"; "new"]%string.

Definition board_names (st : search_state) : list pystr := map name (results st).

(** The order of the results: by views, highest first. *)
Definition by_views (a b : board) : Prop := views_int b <= views_int a.

(** The boards of a given number of views. *)
Definition with_views (v : Z) (l : list board) : list board :=
  List.filter (fun b => views_int b =? v) l.

(** What holds of the state of the search between two boards. *)
Definition search_inv (max_results : nat) (seen : gset pystr)
  (st : search_state) : Prop :=
  List.length (List.filter has_downloads (results st)) = downloadable_count st
  /\ (downloadable_count st <= max_results)%nat
  /\ NoDup (board_names st)
  /\ forall n, In n (board_names st) -> n ∈ seen /\ ~ In (lower n) excluded_names.

(** The URL of a board page. *)
Definition board_url (board_name : pystr) : pystr :=
  BASE_URL ++ lit "/sb/" ++ board_name.

(** The requests a search may make: a result page up to the tenth, or a
    board page. *)
Definition search_request (encoded_query : pystr) (url : pystr) : Prop :=
  (exists page, (1 <= page <= 10)%nat /\ url = search_url encoded_query page)
  \/ (exists board_name, url = board_url board_name).

(** A search answered by two boards with download buttons. *)
Definition two_board_server (url : pystr) : result response :=
  if bool_decide (url = lit "https://www.soundboard.com/search/q")
  then Return {| getcode := 200; headers := ∅;
                 chunks := [Return (qlit "<a href=~/sb/quiet~>quiet</a><a href=~/sb/loud~>loud</a><a href=~/sb/quiet~>again</a><a href=~/sb/popular~>popular</a>")] |}
  else if bool_decide (url = lit "https://www.soundboard.com/sb/quiet")
  then Return {| getcode := 200; headers := ∅;
                 chunks := [Return (quiet_html true)] |}
  else if bool_decide (url = lit "https://www.soundboard.com/sb/loud")
  then Return {| getcode := 200; headers := ∅;
                 chunks := [Return (qlit "<strong>Views: </strong> <span class=~text-muted~> 1,234</span><a href=~/sb/sound/2~ class=~btn-download-track~>")] |}
  else Raise (HTTPError 404 (lit "Not Found")).

Definition two_board_world : world :=
  {| urlopen := two_board_server; fault := fun _ _ => None;
     output_dir := Absent; clock := O; log := [] |}.


(** Two sounds of the same title. *)
Definition twin_items : list (pystr * pystr) :=
  [(lit "17", lit "laser"); (lit "18", lit "laser")].

(** [t] holds the first place of the page [pre ++ t] at which the text
    [l] starts. *)
Definition first_start (l pre t : pystr) : Prop :=
  forall p1 p2, pre = p1 ++ p2 -> p2 <> [] -> startswith l (p2 ++ t) = false.

(** The part of a board page that gives the views, from its label on. *)
Definition views_markup (ws1 ws2 ws3 label post : pystr) : pystr :=
  lit "<strong>Views:" ++ ws1 ++ lit "</strong>" ++ ws2
  ++ qlit "<span class=~text-muted~>" ++ ws3 ++ label ++ lit "</span>" ++ post.

(** [first_start], computed: no suffix of [pre] that is not empty,
    followed by [t], starts with [l]. *)
Fixpoint no_start (l pre t : pystr) : bool :=
  match pre with
  | [] => true
  | _ :: pre' => negb (startswith l (pre ++ t)) && no_start l pre' t
  end.

(** ** Pages, servers and worlds of the examples *)

Definition one_item_page : pystr :=
  qlit "<div class=~item r~ data-src=~17~><div class=~item-title text-ellipsis~> <span>Hi</span>".

Definition button_only_page : pystr :=
  qlit "<a href=~/sb/sound/7~ class=~btn-download-track~>x</a>".

Definition attachment_headers : gmap pystr pystr :=
  {[ lit "content-disposition" := qlit "attachment; filename=~laser blast.mp3~" ]}.

(** * Properties of the Filename Normalizer *)

(** ** The stages of [_sanitize_filename] *)

Lemma sanitize_filename_stages unescape raw sound_id page_title :
  _sanitize_filename unescape raw sound_id page_title
  = finish sound_id (cleaned_name unescape raw sound_id page_title).
Proof.
  unfold _sanitize_filename, finish, cleaned_name, sanitize_chars,
    normalize_spacing, with_fallback, rebuilt_stem, guard_reserved,
    title_if_uniform, fallback_name.
  cbv zeta.
  match goal with |- context [splitext ?x] => destruct (splitext x) as [name ext] end.
  reflexivity.
Qed.

(** ** Character classes *)

Ltac by_cases c :=
  destruct c as [[] [] [] [] [] [] [] []]; vm_compute;
  try reflexivity; try congruence; auto.

Lemma clean_toupper c : clean c = true -> clean (toupper c) = true.
Proof. by_cases c. Qed.
Lemma clean_tolower c : clean c = true -> clean (tolower c) = true.
Proof. by_cases c. Qed.
Lemma isdot_toupper c : isdot (toupper c) = isdot c.
Proof. by_cases c. Qed.
Lemma isdot_tolower c : isdot (tolower c) = isdot c.
Proof. by_cases c. Qed.
Lemma clean_not_sep c : clean c = true -> c <> "/"%char /\ c <> "\"%char.
Proof. by_cases c; split; congruence. Qed.

Lemma isdot_eq c : isdot c = true <-> c = "."%char.
Proof. apply Ascii.eqb_eq. Qed.

(** ** Substitution of a character class *)

Lemma re_sub_chr (p : ascii -> bool) (repl : groups -> pystr) (s : pystr) :
  re_sub (Chr p) repl s = flat_map (fun c => if p c then repl [] else [c]) s.
Proof.
  unfold re_sub. induction s as [|c s IH]; [reflexivity|].
  cbn [sub_from flat_map]. unfold match_at. cbn [rmatch].
  destruct (p c).
  - replace (List.length (c :: s) - List.length s)%nat with 1%nat by (simpl; lia).
    now rewrite IH.
  - now rewrite IH.
Qed.

Lemma sanitize_chars_clean (s : pystr) : forallb clean (sanitize_chars s) = true.
Proof.
  apply forallb_forall. intros c H. unfold sanitize_chars in H.
  rewrite !re_sub_chr in H. apply in_flat_map in H as (y & Hy & Hc).
  apply in_flat_map in Hy as (x & _ & Hx).
  destruct (control_char y) eqn:Cy; [destruct Hc|].
  destruct Hc as [<-|[]]. unfold clean. rewrite Cy.
  destruct (invalid_char x) eqn:Ix.
  - destruct Hx as [<-|[]]. reflexivity.
  - destruct Hx as [<-|[]]. now rewrite Ix.
Qed.

(** ** [str.strip] *)

Lemma lstrip_incl (p : ascii -> bool) (s : pystr) (c : ascii) :
  In c (lstrip p s) -> In c s.
Proof.
  induction s as [|x s IH]; [easy|]. simpl. destruct (p x); [right; auto | easy].
Qed.

Lemma rstrip_incl (p : ascii -> bool) (s : pystr) (c : ascii) :
  In c (rstrip p s) -> In c s.
Proof.
  unfold rstrip. intros H. apply in_rev in H. apply lstrip_incl in H.
  now apply in_rev in H.
Qed.

Lemma lstrip_id (p : ascii -> bool) (s : pystr) :
  match s with [] => True | c :: _ => p c = false end -> lstrip p s = s.
Proof. destruct s as [|c s]; [reflexivity|]. simpl. now intros ->. Qed.

Lemma rstrip_id (p : ascii -> bool) (s : pystr) :
  match rev s with [] => True | c :: _ => p c = false end -> rstrip p s = s.
Proof. intros H. unfold rstrip. rewrite lstrip_id by assumption. apply rev_involutive. Qed.

(** ** [str] methods keep the characters clean *)

Lemma lstrip_suffix (p : ascii -> bool) (s : pystr) :
  exists t, s = t ++ lstrip p s /\ forallb p t = true.
Proof.
  induction s as [|c s (t & E & F)]; [now exists []|].
  simpl. destruct (p c) eqn:Pc.
  - exists (c :: t). simpl. rewrite Pc, F. split; [now f_equal | reflexivity].
  - now exists [].
Qed.

Lemma rstrip_prefix (p : ascii -> bool) (s : pystr) :
  exists t, s = rstrip p s ++ t /\ forallb p t = true.
Proof.
  unfold rstrip. destruct (lstrip_suffix p (rev s)) as (t & E & F).
  exists (rev t). split.
  - rewrite <- rev_app_distr, <- E. now rewrite rev_involutive.
  - rewrite forallb_forall in *. intros c H. apply F. now apply in_rev.
Qed.

Lemma rstrip_last (p : ascii -> bool) (s : pystr) :
  match rev (rstrip p s) with [] => True | c :: _ => p c = false end.
Proof.
  unfold rstrip. rewrite rev_involutive.
  induction (rev s) as [|c r IH]; [exact I|]. simpl.
  destruct (p c) eqn:Pc; [exact IH | exact Pc].
Qed.

Lemma forallb_app_l {A} (p : A -> bool) (a b : list A) :
  forallb p (a ++ b) = true -> forallb p a = true.
Proof. rewrite forallb_app. intros H. now apply andb_prop in H as [? _]. Qed.

Lemma forallb_app_r {A} (p : A -> bool) (a b : list A) :
  forallb p (a ++ b) = true -> forallb p b = true.
Proof. rewrite forallb_app. intros H. now apply andb_prop in H as [_ ?]. Qed.

Lemma rstrip_clean (p : ascii -> bool) (s : pystr) :
  forallb clean s = true -> forallb clean (rstrip p s) = true.
Proof.
  destruct (rstrip_prefix p s) as (t & E & _). intros H. rewrite E in H.
  now apply forallb_app_l in H.
Qed.

Lemma title_from_clean (s : pystr) : forall b,
  forallb clean s = true -> forallb clean (title_from b s) = true.
Proof.
  induction s as [|c s IH]; intros b H; [reflexivity|].
  simpl in *. apply andb_prop in H as [Hc Hs]. rewrite IH by assumption.
  destruct b; [rewrite clean_tolower | rewrite clean_toupper]; auto.
Qed.

Lemma title_if_uniform_clean (s : pystr) :
  forallb clean s = true -> forallb clean (title_if_uniform s) = true.
Proof.
  intros H. unfold title_if_uniform. destruct (_ && _); [|assumption].
  now apply title_from_clean.
Qed.

Lemma guard_reserved_clean (s : pystr) :
  forallb clean s = true -> forallb clean (guard_reserved s) = true.
Proof.
  intros H. unfold guard_reserved. destruct (bool_decide _); [|assumption].
  simpl. exact H.
Qed.

Lemma rebuilt_stem_clean (s : pystr) :
  forallb clean s = true -> forallb clean (rebuilt_stem s) = true.
Proof.
  intros H. unfold rebuilt_stem.
  now apply guard_reserved_clean, title_if_uniform_clean, rstrip_clean.
Qed.

(** ** [os.path.splitext] *)

Lemma rfind_from_app (c : ascii) (a : pystr) : forall i last b,
  rfind_from c i last (a ++ b)
  = rfind_from c (i + Z.of_nat (List.length a)) (rfind_from c i last a) b.
Proof.
  induction a as [|x a IH]; intros i last b.
  - simpl. now rewrite Z.add_0_r.
  - cbn [app rfind_from List.length]. rewrite IH. f_equal. lia.
Qed.

Lemma rfind_from_notin (c : ascii) (b : pystr) : forall i last,
  ~ In c b -> rfind_from c i last b = last.
Proof.
  induction b as [|x b IH]; intros i last H; [reflexivity|].
  cbn [rfind_from]. destruct (Ascii.eqb x c) eqn:E.
  - apply Ascii.eqb_eq in E. subst x. exfalso. apply H. now left.
  - apply IH. intros Hb. apply H. now right.
Qed.

Lemma rfind_notin (c : ascii) (p : pystr) : ~ In c p -> rfind c p = -1.
Proof. apply rfind_from_notin. Qed.

Lemma rfind_last (c : ascii) (a b : pystr) :
  ~ In c b -> rfind c (a ++ c :: b) = Z.of_nat (List.length a).
Proof.
  intros H. unfold rfind. rewrite rfind_from_app. cbn [rfind_from].
  rewrite Ascii.eqb_refl. rewrite rfind_from_notin by assumption. lia.
Qed.

Lemma splitext_nodot (p : pystr) :
  ~ In "."%char p -> ~ In "/"%char p -> splitext p = (p, []).
Proof.
  intros Hd Hs. unfold splitext, _splitext.
  rewrite (rfind_notin "/" p Hs), (rfind_notin "." p Hd). reflexivity.
Qed.

Lemma splitext_last_dot (n e : pystr) :
  ~ In "."%char e -> ~ In "/"%char (n ++ "."%char :: e) ->
  splitext (n ++ "."%char :: e)
  = if existsb nondot n then (n, "."%char :: e) else (n ++ "."%char :: e, []).
Proof.
  intros Hd Hs. unfold splitext, _splitext.
  rewrite (rfind_notin "/" _ Hs), (rfind_last "." n e Hd).
  replace (-1 <? Z.of_nat (List.length n)) with true by (symmetry; apply Z.ltb_lt; lia).
  rewrite Nat2Z.id. change (Z.to_nat (-1 + 1)) with O. cbn [skipn andb].
  rewrite firstn_app, Nat.sub_diag, firstn_all, firstn_O, app_nil_r.
  rewrite skipn_app, Nat.sub_diag, skipn_all. reflexivity.
Qed.

Lemma last_dot_split (p : pystr) :
  ~ In "."%char p
  \/ exists n e, p = n ++ "."%char :: e /\ ~ In "."%char e.
Proof.
  induction p as [|c p [IH|(n & e & -> & He)]].
  - left. intros [].
  - destruct (Ascii.eqb c ".") eqn:E.
    + apply Ascii.eqb_eq in E. subst c. right. now exists [], p.
    + apply Ascii.eqb_neq in E. left. intros [H|H]; auto.
  - right. now exists (c :: n), e.
Qed.

Lemma lstrip_app_stop (p : ascii -> bool) (a b : pystr) :
  existsb (fun c => negb (p c)) a = true -> lstrip p (a ++ b) = lstrip p a ++ b.
Proof.
  induction a as [|c a IH]; [discriminate|]. simpl.
  destruct (p c); simpl; [exact IH | reflexivity].
Qed.

Lemma lstrip_app_all (p : ascii -> bool) (a b : pystr) :
  existsb (fun c => negb (p c)) a = false -> lstrip p (a ++ b) = lstrip p b.
Proof.
  induction a as [|c a IH]; [reflexivity|]. simpl.
  destruct (p c); simpl; [exact IH | discriminate].
Qed.

Lemma lstrip_all (p : ascii -> bool) (a : pystr) :
  existsb (fun c => negb (p c)) a = false -> lstrip p a = [].
Proof.
  intros H. rewrite <- (app_nil_r a). now rewrite lstrip_app_all.
Qed.

Lemma nondot_notin (e : pystr) : forallb nondot e = true <-> ~ In "."%char e.
Proof.
  rewrite forallb_forall. split.
  - intros H Hin. specialize (H _ Hin). discriminate.
  - intros H c Hc. unfold nondot, isdot. destruct (Ascii.eqb c ".") eqn:E; [|reflexivity].
    apply Ascii.eqb_eq in E. now subst c.
Qed.

Lemma existsb_nondot_lstrip (n : pystr) :
  existsb nondot n = true -> exists c r, lstrip isdot n = c :: r.
Proof.
  induction n as [|c n IH]; [discriminate|]. simpl. unfold nondot at 1.
  destruct (isdot c); simpl; [exact IH | eauto].
Qed.

(** The two ways [splitext] treats a name without separator. *)
Lemma splitext_cases (p : pystr) :
  ~ In "/"%char p ->
  (leading_dots_only p = true /\ splitext p = (p, []))
  \/ (exists n e, p = n ++ "."%char :: e /\ ~ In "."%char e
                  /\ existsb nondot n = true /\ splitext p = (n, "."%char :: e)).
Proof.
  intros Hs. destruct (last_dot_split p) as [Hd|(n & e & -> & He)].
  - left. split; [|now apply splitext_nodot].
    unfold leading_dots_only. destruct (lstrip_suffix isdot p) as (t & E & _).
    apply nondot_notin. intros H. apply Hd. rewrite E. apply in_or_app. now right.
  - rewrite splitext_last_dot by assumption.
    destruct (existsb nondot n) eqn:N.
    + right. exists n, e. auto.
    + left. split; [|reflexivity]. unfold leading_dots_only.
      rewrite lstrip_app_all by exact N.
      change (lstrip isdot ("."%char :: e)) with (lstrip isdot e).
      destruct (lstrip_suffix isdot e) as (t & E & _).
      apply nondot_notin. intros H. apply He. rewrite E. apply in_or_app. now right.
Qed.

Lemma splitext_leading_dots (p : pystr) :
  ~ In "/"%char p -> leading_dots_only p = true -> splitext p = (p, []).
Proof.
  intros Hs Hl. destruct (splitext_cases p Hs) as [[_ E]|(n & e & -> & He & N & E)];
    [exact E|].
  exfalso. unfold leading_dots_only in Hl. rewrite lstrip_app_stop in Hl by exact N.
  apply forallb_app_r in Hl. simpl in Hl. discriminate.
Qed.

Lemma leading_dots_only_prefix (a b : pystr) :
  leading_dots_only (a ++ b) = true -> leading_dots_only a = true.
Proof.
  unfold leading_dots_only. destruct (existsb nondot a) eqn:N.
  - rewrite lstrip_app_stop by exact N. apply forallb_app_l.
  - intros _. now rewrite lstrip_all.
Qed.

Lemma title_from_nondot (s : pystr) : forall b,
  forallb nondot (title_from b s) = forallb nondot s.
Proof.
  induction s as [|c s IH]; intros b; [reflexivity|]. simpl. rewrite IH.
  f_equal. unfold nondot. destruct b; now rewrite ?isdot_tolower, ?isdot_toupper.
Qed.

Lemma title_from_leading_dots (s : pystr) : forall b,
  leading_dots_only (title_from b s) = leading_dots_only s.
Proof.
  unfold leading_dots_only. induction s as [|c s IH]; intros b; [reflexivity|].
  cbn [title_from lstrip].
  assert (E : isdot (if b then tolower c else toupper c) = isdot c)
    by (destruct b; now rewrite ?isdot_tolower, ?isdot_toupper).
  rewrite E. destruct (isdot c) eqn:D; [apply IH|].
  cbn [forallb]. rewrite title_from_nondot. unfold nondot at 1 3. now rewrite E, D.
Qed.

(** ** The reserved names *)

Lemma reserved_In (x : pystr) : x ∈ WINDOWS_RESERVED_NAMES <-> In x reserved_list.
Proof.
  unfold WINDOWS_RESERVED_NAMES.
  rewrite !elem_of_union, !elem_of_list_to_set, !list_elem_of_In.
  unfold reserved_list. simpl. tauto.
Qed.

Lemma reserved_shape (x : pystr) :
  x ∈ WINDOWS_RESERVED_NAMES ->
  (List.length x <= 4)%nat /\ forallb nondot x = true
  /\ exists c r, x = c :: r /\ c <> "_"%char /\ c <> "."%char.
Proof.
  rewrite reserved_In. intros H.
  assert (G : forallb (fun x => (List.length x <=? 4)%nat && forallb nondot x
                && match x with
                   | c :: _ => negb (Ascii.eqb c "_") && negb (Ascii.eqb c ".")
                   | [] => false
                   end) reserved_list = true) by (vm_compute; reflexivity).
  rewrite forallb_forall in G. specialize (G x H).
  apply andb_prop in G as [G G3]. apply andb_prop in G as [G1 G2].
  apply Nat.leb_le in G1. split; [assumption|]. split; [assumption|].
  destruct x as [|c r]; [discriminate|]. exists c, r.
  apply andb_prop in G3 as [A B]. apply negb_true_iff in A, B.
  apply Ascii.eqb_neq in A, B. auto.
Qed.

Lemma upper_nondot (s : pystr) : forallb nondot (upper s) = forallb nondot s.
Proof.
  induction s as [|c s IH]; [reflexivity|]. simpl. rewrite IH.
  unfold nondot. now rewrite isdot_toupper.
Qed.

Lemma guard_reserved_safe (y : pystr) :
  upper (guard_reserved y) ∉ WINDOWS_RESERVED_NAMES.
Proof.
  unfold guard_reserved. destruct (bool_decide (upper y ∈ _)) eqn:B.
  - intros H. apply reserved_shape in H as (_ & _ & c & r & E & Hc & _).
    simpl in E. injection E as <- _. now apply Hc.
  - now apply bool_decide_eq_false in B.
Qed.

Lemma guard_reserved_leading_dots (y : pystr) :
  leading_dots_only y = true -> leading_dots_only (guard_reserved y) = true.
Proof.
  intros H. unfold guard_reserved. destruct (bool_decide (upper y ∈ _)) eqn:B;
    [|assumption].
  apply bool_decide_eq_true in B. apply reserved_shape in B as (_ & N & _).
  rewrite upper_nondot in N. unfold leading_dots_only. simpl. exact N.
Qed.

Lemma rebuilt_stem_leading_dots (s : pystr) :
  leading_dots_only s = true -> leading_dots_only (rebuilt_stem s) = true.
Proof.
  intros H. unfold rebuilt_stem. apply guard_reserved_leading_dots.
  assert (R : leading_dots_only (rstrip (one_of ". ") s) = true).
  { destruct (rstrip_prefix (one_of ". ") s) as (t & E & _).
    rewrite E in H. now apply leading_dots_only_prefix in H. }
  unfold title_if_uniform. destruct (_ && _); [|assumption].
  unfold title. now rewrite title_from_leading_dots.
Qed.

Lemma rebuilt_stem_safe (s : pystr) :
  upper (rebuilt_stem s) ∉ WINDOWS_RESERVED_NAMES.
Proof. apply guard_reserved_safe. Qed.

(** ** The last stage *)

Lemma clean_sep_free (s : pystr) : forallb clean s = true -> ~ In "/"%char s.
Proof.
  rewrite forallb_forall. intros H Hin. specialize (H _ Hin). discriminate.
Qed.

Lemma leading_dot_safe (c : ascii) (r : pystr) :
  isdot c = true -> upper (c :: r) ∉ WINDOWS_RESERVED_NAMES.
Proof.
  intros D H. apply reserved_shape in H as (_ & _ & c' & r' & E & _ & Hc).
  simpl in E. injection E as E _. apply Hc. rewrite <- E.
  apply isdot_eq. now rewrite isdot_toupper.
Qed.

Lemma existsb_nondot_false (s : pystr) :
  existsb nondot s = false ->
  s = [] \/ exists c r, s = c :: r /\ isdot c = true.
Proof.
  destruct s as [|c r]; [now left|]. simpl. intros H.
  apply orb_false_elim in H as [H _]. right. exists c, r. split; [reflexivity|].
  unfold nondot in H. now apply negb_false_iff in H.
Qed.

Lemma finish_cases (sound_id cleaned : pystr) :
  forallb clean cleaned = true ->
  finish sound_id cleaned = fallback_name sound_id
  \/ (finish sound_id cleaned <> []
      /\ forallb clean (finish sound_id cleaned) = true
      /\ (upper (stem (finish sound_id cleaned)) ∉ WINDOWS_RESERVED_NAMES)
      /\ (extension (finish sound_id cleaned) = []
          \/ extension (finish sound_id cleaned) = extension cleaned)).
Proof.
  intros C. unfold finish.
  set (out := rebuilt_stem (fst (splitext cleaned)) ++ snd (splitext cleaned)).
  destruct (bool_decide (out = [])) eqn:B1; [now left|].
  destruct (bool_decide (out = lit ".mp3")); [now left|]. cbn [orb].
  right. apply bool_decide_eq_false in B1. split; [exact B1|].
  unfold stem, extension.
  destruct (splitext_cases cleaned (clean_sep_free _ C))
    as [[L E]|(n & e & Ec & He & N & E)].
  - unfold out in *. rewrite E in *. cbn [fst snd] in *. rewrite app_nil_r in *.
    assert (Co : forallb clean (rebuilt_stem cleaned) = true)
      by now apply rebuilt_stem_clean.
    rewrite (splitext_leading_dots (rebuilt_stem cleaned));
      [|now apply clean_sep_free|now apply rebuilt_stem_leading_dots].
    cbn [fst snd]. split; [exact Co|]. split; [apply rebuilt_stem_safe | now left].
  - unfold out in *. rewrite E in *. cbn [fst snd] in *.
    rewrite Ec in C. pose proof (forallb_app_l _ _ _ C) as Cn.
    pose proof (forallb_app_r _ _ _ C) as Ce.
    assert (Co : forallb clean (rebuilt_stem n ++ "."%char :: e) = true).
    { rewrite forallb_app, rebuilt_stem_clean by assumption. exact Ce. }
    split; [exact Co|].
    rewrite splitext_last_dot; [|assumption|now apply clean_sep_free].
    destruct (existsb nondot (rebuilt_stem n)) eqn:X; cbn [fst snd].
    + split; [apply rebuilt_stem_safe | now right].
    + split; [|now left].
      apply existsb_nondot_false in X as [->|(c & r & -> & D)].
      * now apply leading_dot_safe.
      * cbn [app]. now apply leading_dot_safe.
Qed.

Lemma fallback_name_split (sound_id : pystr) :
  forallb clean sound_id = true ->
  splitext (fallback_name sound_id) = (lit "audio_" ++ sound_id, lit ".mp3").
Proof.
  intros C. unfold fallback_name. rewrite app_assoc.
  change (lit ".mp3") with ("."%char :: lit "mp3").
  rewrite splitext_last_dot.
  - reflexivity.
  - vm_compute. intuition discriminate.
  - apply clean_sep_free. rewrite !forallb_app, C. reflexivity.
Qed.

Lemma upper_length (s : pystr) : List.length (upper s) = List.length s.
Proof. apply length_map. Qed.

(** C5, as amended — safety of the normalizer.  For a fallback id free
    of the reserved and control characters (the ids of the extractor are
    digits) the final filename holds none of them, and its stem, as
    [os.path.splitext] gives it, upper-cased, is no reserved device
    name. *)
Theorem sanitize_filename_safe :
  forall (unescape : pystr -> pystr) (raw sound_id page_title : pystr),
    forallb clean sound_id = true ->
    (forall c, In c (_sanitize_filename unescape raw sound_id page_title) ->
               invalid_char c = false /\ control_char c = false)
    /\ upper (stem (_sanitize_filename unescape raw sound_id page_title))
       ∉ WINDOWS_RESERVED_NAMES.
Proof.
  intros unescape raw sound_id page_title Cid.
  rewrite sanitize_filename_stages.
  set (X := cleaned_name unescape raw sound_id page_title).
  assert (CX : forallb clean X = true) by apply sanitize_chars_clean.
  assert (G : forallb clean (finish sound_id X) = true
              /\ upper (stem (finish sound_id X)) ∉ WINDOWS_RESERVED_NAMES).
  { destruct (finish_cases sound_id X CX) as [->|(_ & C & S & _)]; [|auto].
    split.
    - unfold fallback_name. rewrite !forallb_app, Cid. reflexivity.
    - unfold stem. rewrite fallback_name_split by assumption. cbn [fst].
      intros H. apply reserved_shape in H as (L & _).
      rewrite upper_length, length_app in L. simpl in L. lia. }
  destruct G as [G1 G2]. split; [|exact G2].
  intros c Hc. rewrite forallb_forall in G1. specialize (G1 c Hc).
  unfold clean in G1. apply andb_prop in G1 as [A B].
  apply negb_true_iff in A, B. split; assumption.
Qed.

(** C5 as stated fails: the last fallback inserts the id as it is. *)
Lemma fallback_id_is_not_cleaned :
  In "/"%char (_sanitize_filename html_unescape ["001"%char] (lit "/") [])
  /\ invalid_char "/" = true.
Proof.
  split; [|reflexivity].
  assert (E : _sanitize_filename html_unescape ["001"%char] (lit "/") []
              = lit "audio_/.mp3") by (vm_compute; reflexivity).
  rewrite E. simpl. repeat (first [left; reflexivity | right]).
Qed.

Lemma sanitize_filename_safe_witness :
  forallb clean (lit "42") = true
  /\ (forall c, In c (_sanitize_filename html_unescape (lit "con.mp3") (lit "42") []) ->
                invalid_char c = false /\ control_char c = false)
  /\ upper (stem (_sanitize_filename html_unescape (lit "con.mp3") (lit "42") []))
     ∉ WINDOWS_RESERVED_NAMES.
Proof.
  split; [reflexivity|].
  apply (sanitize_filename_safe html_unescape (lit "con.mp3") (lit "42") []).
  reflexivity.
Defined.



(** On the names the normalizer splits, [ntpath.splitext] and
    [posixpath.splitext] agree. *)
Lemma splitext_nt_posix (p : pystr) :
  forallb clean p = true -> nt_splitext p = splitext p.
Proof.
  intros C. unfold nt_splitext, splitext, _splitext.
  assert (S1 : ~ In "/"%char p) by now apply clean_sep_free.
  assert (S2 : ~ In "\"%char p).
  { rewrite forallb_forall in C. intros Hin. specialize (C _ Hin). discriminate. }
  rewrite (rfind_notin "/" p S1), (rfind_notin "\" p S2). reflexivity.
Qed.

(** ** The matcher on names without the characters a pattern needs *)

Lemma no_hyphen_tail_closed : tail_closed (fun t => ~ In "-"%char t).
Proof. intros c t H Hin. apply H. now right. Qed.

Lemma rmatch_cat (a b : regex) (s : pystr) (cs : groups) (k : cont) :
  rmatch (Cat a b) s cs k = rmatch a s cs (fun s' cs' => rmatch b s' cs' k).
Proof. reflexivity. Qed.

Lemma rmatch_chr (p : ascii -> bool) (c : ascii) (s : pystr) (cs : groups)
  (k : cont) :
  rmatch (Chr p) (c :: s) cs k = if p c then k s cs else None.
Proof. reflexivity. Qed.

Lemma rmatch_star (g : bool) (a : regex) (s : pystr) (cs : groups) (k : cont) :
  rmatch (Star g a) s cs k = star_iter (rmatch a) g k (List.length s) s cs.
Proof. reflexivity. Qed.

(** Where no suffix of [s] matches, [re.sub] leaves [s] as it is. *)
Lemma re_sub_no_match (r : regex) (repl : groups -> pystr) (P : pystr -> Prop) :
  tail_closed P -> (forall t, P t -> match_at r t = None) ->
  forall s, P s -> re_sub r repl s = s.
Proof.
  intros TC NM. unfold re_sub. induction s as [|c s IH]; intros Ps.
  - cbn [sub_from]. now rewrite NM.
  - cbn [sub_from]. rewrite NM by assumption. f_equal. apply IH. eapply TC, Ps.
Qed.

(** A star over a character class stops at once before a character out
    of the class. *)
Lemma star_iter_chr_stop (p : ascii -> bool) (g : bool) (k : cont)
  (fuel : nat) (s : pystr) (cs : groups) :
  match s with [] => True | d :: _ => p d = false end ->
  star_iter (rmatch (Chr p)) g k fuel s cs = k s cs.
Proof.
  intros H. destruct fuel as [|fuel]; [reflexivity|]. cbn [star_iter rmatch].
  destruct s as [|d s]; [|rewrite H]; destruct g; try reflexivity;
    now destruct (k _ cs).
Qed.

(** A star over a character class fails where its continuation fails on
    every suffix. *)
Lemma star_iter_chr_none (p : ascii -> bool) (g : bool) (k : cont)
  (P : pystr -> Prop) :
  tail_closed P -> (forall t cs, P t -> k t cs = None) ->
  forall fuel s cs, P s -> star_iter (rmatch (Chr p)) g k fuel s cs = None.
Proof.
  intros TC NK. induction fuel as [|fuel IH]; intros s cs Ps.
  - now apply NK.
  - cbn [star_iter rmatch]. rewrite (NK s cs Ps).
    destruct s as [|c s]; [now destruct g|].
    destruct (p c); [|now destruct g].
    replace (List.length s <? List.length (c :: s))%nat with true
      by (symmetry; apply Nat.ltb_lt; simpl; lia).
    rewrite IH by (eapply TC, Ps). now destruct g.
Qed.

Lemma rep_chr_none (p : ascii -> bool) (k : cont) (P : pystr -> Prop) :
  tail_closed P -> (forall t cs, P t -> k t cs = None) ->
  forall n s cs, P s -> rmatch (Rep n (Chr p)) s cs k = None.
Proof.
  intros TC NK. induction n as [|n IH]; intros s cs Ps.
  - now apply NK.
  - cbn [Rep rmatch]. destruct s as [|c s]; [reflexivity|].
    destruct (p c); [|reflexivity]. apply IH. eapply TC, Ps.
Qed.

Lemma lit_hyphen_none (r : regex) (k : cont) (t : pystr) (cs : groups) :
  ~ In "-"%char t -> rmatch (Cat (Lit "-") r) t cs k = None.
Proof.
  intros H. unfold Lit. cbn [lit list_ascii_of_string fold_right rmatch].
  destruct t as [|c t]; [reflexivity|].
  destruct (Ascii.eqb "-" c) eqn:E; [|reflexivity].
  apply Ascii.eqb_eq in E. subst c. exfalso. apply H. now left.
Qed.

Lemma uuid_sub_no_hyphen (s : pystr) :
  ~ In "-"%char s -> re_sub uuid_pattern (fun _ => []) s = s.
Proof.
  apply (re_sub_no_match _ _ (fun t => ~ In "-"%char t)).
  - apply no_hyphen_tail_closed.
  - intros t Ht. unfold match_at, uuid_pattern. cbn [rmatch].
    apply (rep_chr_none _ _ (fun t => ~ In "-"%char t));
      [apply no_hyphen_tail_closed| |assumption].
    intros t' cs' Ht'. now apply lit_hyphen_none.
Qed.

Lemma hyphen_sub_no_hyphen (s : pystr) :
  ~ In "-"%char s -> re_sub hyphen_pattern (fun _ => lit " - ") s = s.
Proof.
  apply (re_sub_no_match _ _ (fun t => ~ In "-"%char t)).
  - apply no_hyphen_tail_closed.
  - intros t Ht. unfold match_at, hyphen_pattern. cbn [rmatch].
    apply (star_iter_chr_none _ _ _ (fun t => ~ In "-"%char t));
      [apply no_hyphen_tail_closed| |assumption].
    intros t' cs' Ht'. now apply lit_hyphen_none.
Qed.

(** ** [str.replace] *)

Lemma replace_absent (a : ascii) (old new s : pystr) :
  ~ In a s -> replace (a :: old) new s = s.
Proof.
  unfold replace. induction s as [|c s IH]; intros H; [reflexivity|].
  cbn [replace_from startswith].
  destruct (Ascii.eqb a c) eqn:E.
  - apply Ascii.eqb_eq in E. subst c. exfalso. apply H. now left.
  - cbn [andb]. f_equal. apply IH. intros Hin. apply H. now right.
Qed.

Lemma replace_char (a b : ascii) (s : pystr) :
  replace [a] [b] s = map (fun c => if Ascii.eqb a c then b else c) s.
Proof.
  unfold replace. induction s as [|c s IH]; [reflexivity|].
  cbn [replace_from startswith List.length pred map]. rewrite andb_true_r.
  destruct (Ascii.eqb a c); cbn [app]; now rewrite IH.
Qed.

(** ** Well-spaced names *)

Lemma well_spaced_tail_closed : tail_closed (fun t => well_spaced t = true).
Proof. intros c t H. simpl in H. now apply andb_prop in H as [_ ?]. Qed.

Lemma spaces_sub_well_spaced (s : pystr) :
  well_spaced s = true -> re_sub spaces_pattern (fun _ => lit " ") s = s.
Proof.
  unfold re_sub. induction s as [|c s IH]; intros W; [reflexivity|].
  cbn [well_spaced] in W. apply andb_prop in W as [Wc Ws].
  cbn [sub_from]. unfold match_at, spaces_pattern, Plus.
  rewrite rmatch_cat, rmatch_chr.
  destruct (isspace c) eqn:Sc.
  - apply andb_prop in Wc as [Ec Wn]. apply Ascii.eqb_eq in Ec. subst c.
    rewrite rmatch_star, star_iter_chr_stop.
    + replace (List.length (" "%char :: s) - List.length s)%nat with 1%nat
        by (simpl; lia).
      cbn [lit list_ascii_of_string app]. f_equal. now apply IH.
    + destruct s as [|d s]; [exact I|]. apply andb_prop in Wn as [Wn _].
      now apply negb_true_iff in Wn.
  - f_equal. now apply IH.
Qed.

Lemma space_before_ext_none (t : pystr) :
  well_spaced t = true -> match_at space_before_ext_pattern t = None.
Proof.
  intros W. unfold match_at, space_before_ext_pattern, Plus.
  rewrite !rmatch_cat.
  destruct t as [|c t]; [reflexivity|].
  cbn [well_spaced] in W. apply andb_prop in W as [Wc _].
  rewrite rmatch_chr.
  destruct (isspace c); [|reflexivity].
  apply andb_prop in Wc as [_ Wn].
  rewrite rmatch_star, star_iter_chr_stop.
  - destruct t as [|d t]; [reflexivity|]. apply andb_prop in Wn as [_ Wd].
    unfold Lit. cbn [lit list_ascii_of_string fold_right rmatch].
    unfold isdot in Wd. apply negb_true_iff in Wd.
    rewrite Ascii.eqb_sym, Wd. reflexivity.
  - destruct t as [|d t]; [exact I|]. apply andb_prop in Wn as [Wn _].
    now apply negb_true_iff in Wn.
Qed.

Lemma space_before_ext_sub_well_spaced (s : pystr) :
  well_spaced s = true ->
  re_sub space_before_ext_pattern (fun cs => hd [] cs) s = s.
Proof.
  apply (re_sub_no_match _ _ (fun t => well_spaced t = true)).
  - apply well_spaced_tail_closed.
  - apply space_before_ext_none.
Qed.

(** ** Simple names *)

Lemma plain_props c :
  plain c = true ->
  isspace c = false /\ isdot c = false /\ clean c = true
  /\ Ascii.eqb c " " = false /\ simple_char c = true.
Proof. by_cases c. Qed.

Lemma simple_char_props c :
  simple_char c = true ->
  clean c = true /\ c <> "-"%char /\ c <> "_"%char /\ c <> "&"%char.
Proof. by_cases c; repeat split; congruence. Qed.

Lemma plain_toupper c : plain (toupper c) = plain c.
Proof. by_cases c. Qed.
Lemma plain_tolower c : plain (tolower c) = plain c.
Proof. by_cases c. Qed.
Lemma space_toupper c : Ascii.eqb (toupper c) " " = Ascii.eqb c " ".
Proof. by_cases c. Qed.
Lemma space_tolower c : Ascii.eqb (tolower c) " " = Ascii.eqb c " ".
Proof. by_cases c. Qed.

Lemma simple_stem_inv (n : pystr) :
  simple_stem n = true ->
  exists c r, n = c :: r /\ plain c = true /\ spaced_words false r = true.
Proof.
  destruct n as [|c r]; [discriminate|]. unfold simple_stem. simpl.
  destruct (Ascii.eqb c " "); [discriminate|]. intros H.
  apply andb_prop in H as [? ?]. eauto.
Qed.

Lemma simple_ext_chars (e : pystr) :
  simple_ext e = true -> forallb simple_char e = true.
Proof.
  destruct e as [|c x]; [reflexivity|]. simpl. intros H.
  apply andb_prop in H as [H Hx]. apply andb_prop in H as [Hc _].
  unfold simple_char at 1. rewrite Hc, orb_true_r. cbn [andb].
  apply forallb_forall. intros d Hd. rewrite forallb_forall in Hx.
  now apply plain_props, Hx.
Qed.

Lemma spaced_words_chars (n : pystr) : forall b,
  spaced_words b n = true -> forallb simple_char n = true.
Proof.
  induction n as [|c n IH]; intros b H; [reflexivity|]. simpl in *.
  destruct (Ascii.eqb c " ") eqn:E.
  - apply andb_prop in H as [_ H]. rewrite (IH _ H).
    unfold simple_char. now rewrite E, orb_true_r.
  - apply andb_prop in H as [Hc H]. rewrite (IH _ H).
    now destruct (plain_props c Hc) as (_ & _ & _ & _ & ->).
Qed.

Lemma simple_name_chars (lead n e : pystr) :
  forallb simple_char lead = true -> simple_stem n = true ->
  simple_ext e = true -> forallb simple_char (lead ++ n ++ e) = true.
Proof.
  intros L N E. rewrite !forallb_app, L.
  now rewrite (spaced_words_chars n true N), (simple_ext_chars e E).
Qed.

Lemma simple_chars_absent (s : pystr) :
  forallb simple_char s = true ->
  forallb clean s = true /\ ~ In "-"%char s /\ ~ In "_"%char s /\ ~ In "&"%char s.
Proof.
  rewrite forallb_forall. intros H. split; [|split_and!].
  - apply forallb_forall. intros c Hc. now apply simple_char_props, H.
  - intros Hin. now apply H, simple_char_props in Hin as (_ & ? & _).
  - intros Hin. now apply H, simple_char_props in Hin as (_ & _ & ? & _).
  - intros Hin. now apply H, simple_char_props in Hin as (_ & _ & _ & ?).
Qed.

Lemma simple_ext_well_spaced (e : pystr) :
  simple_ext e = true -> well_spaced e = true.
Proof.
  destruct e as [|c x]; [reflexivity|]. simpl. intros H.
  apply andb_prop in H as [H Hx]. apply andb_prop in H as [Hc _].
  apply isdot_eq in Hc. subst c. cbn [isspace in_range code andb orb].
  change (isspace ".") with false. cbn [andb].
  induction x as [|d x IH]; [reflexivity|]. simpl in *.
  apply andb_prop in Hx as [Hd Hx].
  destruct (plain_props d Hd) as (-> & _). cbn [andb]. now apply IH.
Qed.

Lemma spaced_words_well_spaced (e : pystr) :
  simple_ext e = true ->
  forall n b, spaced_words b n = true -> well_spaced (n ++ e) = true.
Proof.
  intros E. induction n as [|c n IH]; intros b H.
  - now apply simple_ext_well_spaced.
  - cbn [spaced_words] in H. cbn [app well_spaced].
    destruct (Ascii.eqb c " ") eqn:Ec.
    + apply andb_prop in H as [_ H]. rewrite (IH _ H), andb_true_r.
      apply Ascii.eqb_eq in Ec. subst c. change (isspace " ") with true.
      cbn iota. cbn [andb].
      apply simple_stem_inv in H as (d & r & -> & Hd & _). cbn [app].
      now destruct (plain_props d Hd) as (-> & -> & _).
    + apply andb_prop in H as [Hc H]. rewrite (IH _ H), andb_true_r.
      now destruct (plain_props c Hc) as (-> & _).
Qed.

Lemma spaced_words_last (n : pystr) : forall b,
  spaced_words b n = true ->
  match rev n with [] => b = false | c :: _ => plain c = true end.
Proof.
  induction n as [|c n IH]; intros b H.
  - simpl in *. now apply negb_true_iff in H.
  - cbn [spaced_words] in H. cbn [rev].
    destruct (Ascii.eqb c " ") eqn:Ec.
    + apply andb_prop in H as [_ H]. specialize (IH _ H).
      destruct (rev n) as [|d r]; [discriminate | exact IH].
    + apply andb_prop in H as [Hc H]. specialize (IH _ H).
      destruct (rev n) as [|d r]; [exact Hc | exact IH].
Qed.

Lemma simple_name_last (n e : pystr) :
  simple_stem n = true -> simple_ext e = true ->
  exists c r, rev (n ++ e) = c :: r /\ plain c = true.
Proof.
  intros N E. rewrite rev_app_distr.
  destruct e as [|d x].
  - simpl. pose proof (spaced_words_last n true N) as L.
    destruct (rev n) as [|c r]; [discriminate | eauto].
  - simpl in E. apply andb_prop in E as [E Hx]. apply andb_prop in E as [_ Ne].
    apply negb_true_iff, bool_decide_eq_false in Ne.
    cbn [rev]. destruct (rev x) as [|c r] eqn:R.
    + exfalso. apply Ne. apply (f_equal (@rev _)) in R. now rewrite rev_involutive in R.
    + cbn [app]. exists c. eexists. split; [reflexivity|].
      rewrite forallb_forall in Hx. apply Hx, in_rev. rewrite R. now left.
Qed.

(** The spacing stage on a simple name, with or without a space in
    front. *)
Lemma normalize_spacing_simple (lead n e : pystr) :
  lead = [] \/ lead = lit " " ->
  simple_stem n = true -> simple_ext e = true ->
  normalize_spacing (lead ++ n ++ e) = n ++ e.
Proof.
  intros L N E.
  assert (Lc : forallb simple_char lead = true) by (destruct L as [->| ->]; reflexivity).
  destruct (simple_chars_absent _ (simple_name_chars lead n e Lc N E))
    as (_ & Hh & _ & _).
  assert (W : well_spaced (lead ++ n ++ e) = true).
  { pose proof (spaced_words_well_spaced e E n true N) as W.
    destruct L as [->| ->]; [exact W|].
    change (lit " " ++ n ++ e) with (" "%char :: (n ++ e)).
    cbn [well_spaced]. rewrite W, andb_true_r. change (isspace " ") with true.
    change (Ascii.eqb " " " ") with true. cbn iota. cbn [andb].
    apply simple_stem_inv in N as (d & r & -> & Hd & _). cbn [app].
    now destruct (plain_props d Hd) as (-> & -> & _). }
  unfold normalize_spacing. change (lit "--") with ("-"%char :: lit "-").
  rewrite replace_absent by assumption.
  rewrite spaces_sub_well_spaced by assumption.
  rewrite hyphen_sub_no_hyphen by assumption.
  rewrite space_before_ext_sub_well_spaced by assumption.
  unfold strip.
  assert (S1 : lstrip isspace (lead ++ n ++ e) = n ++ e).
  { pose proof N as N'. apply simple_stem_inv in N' as (d & r & -> & Hd & _).
    destruct (plain_props d Hd) as (Sd & _).
    destruct L as [->| ->]; cbn [app lit list_ascii_of_string lstrip];
      change (isspace " ") with true; cbn iota; now rewrite Sd. }
  rewrite S1. apply rstrip_id.
  destruct (simple_name_last n e N E) as (c & r & -> & Hc).
  now destruct (plain_props c Hc) as (-> & _).
Qed.

Lemma flat_map_id (p : ascii -> bool) (r : pystr) (s : pystr) :
  forallb (fun c => negb (p c)) s = true ->
  flat_map (fun c => if p c then r else [c]) s = s.
Proof.
  induction s as [|c s IH]; [reflexivity|]. simpl. intros H.
  apply andb_prop in H as [Hc Hs]. apply negb_true_iff in Hc.
  now rewrite Hc, IH.
Qed.

Lemma sanitize_chars_id (s : pystr) :
  forallb clean s = true -> sanitize_chars s = s.
Proof.
  intros C. unfold sanitize_chars. rewrite !re_sub_chr.
  rewrite (flat_map_id invalid_char).
  - apply flat_map_id. apply forallb_forall. intros c Hc.
    rewrite forallb_forall in C. specialize (C c Hc). unfold clean in C.
    now apply andb_prop in C as [_ ?].
  - apply forallb_forall. intros c Hc.
    rewrite forallb_forall in C. specialize (C c Hc). unfold clean in C.
    now apply andb_prop in C as [? _].
Qed.

Lemma spaced_words_nodot (n : pystr) : forall b,
  spaced_words b n = true -> ~ In "."%char n.
Proof.
  induction n as [|c n IH]; intros b H; [intros []|].
  cbn [spaced_words] in H. destruct (Ascii.eqb c " ") eqn:Ec.
  - apply andb_prop in H as [_ H]. intros [->|Hin]; [discriminate|].
    now apply (IH _ H).
  - apply andb_prop in H as [Hc H]. intros [->|Hin]; [discriminate|].
    now apply (IH _ H).
Qed.

Lemma simple_stem_nondot (n : pystr) :
  simple_stem n = true -> ~ In "."%char n /\ existsb nondot n = true.
Proof.
  intros N. split.
  - now apply (spaced_words_nodot n true).
  - apply simple_stem_inv in N as (c & r & -> & Hc & _). simpl.
    destruct (plain_props c Hc) as (_ & D & _). unfold nondot. now rewrite D.
Qed.

Lemma splitext_simple (n e : pystr) :
  simple_stem n = true -> simple_ext e = true -> splitext (n ++ e) = (n, e).
Proof.
  intros N E.
  assert (C : forallb clean (n ++ e) = true).
  { apply (simple_chars_absent ([] ++ n ++ e)). now apply simple_name_chars. }
  destruct (simple_stem_nondot n N) as [Nd Ne].
  destruct e as [|d x].
  - rewrite app_nil_r in *. rewrite splitext_nodot;
      [reflexivity | assumption | now apply clean_sep_free].
  - simpl in E. apply andb_prop in E as [E Hx]. apply andb_prop in E as [Hd _].
    apply isdot_eq in Hd. subst d.
    rewrite splitext_last_dot; [now rewrite Ne| |now apply clean_sep_free].
    intros Hin. rewrite forallb_forall in Hx. specialize (Hx _ Hin). discriminate.
Qed.

Lemma rstrip_simple (n : pystr) :
  simple_stem n = true -> rstrip (one_of ". ") n = n.
Proof.
  intros N. apply rstrip_id. pose proof (spaced_words_last n true N) as L.
  destruct (rev n) as [|c r]; [exact I|]. revert L. by_cases c.
Qed.

(** ** [str.title] *)




Lemma title_from_spaced (n : pystr) : forall b b',
  spaced_words b (title_from b' n) = spaced_words b n.
Proof.
  induction n as [|c n IH]; intros b b'; [reflexivity|].
  cbn [title_from spaced_words].
  assert (E : Ascii.eqb (if b' then tolower c else toupper c) " " = Ascii.eqb c " ")
    by (destruct b'; now rewrite ?space_tolower, ?space_toupper).
  assert (P : plain (if b' then tolower c else toupper c) = plain c)
    by (destruct b'; now rewrite ?plain_tolower, ?plain_toupper).
  now rewrite E, P, !IH.
Qed.

Lemma title_if_uniform_simple (n : pystr) :
  simple_stem n = true -> simple_stem (title_if_uniform n) = true.
Proof.
  intros N. unfold title_if_uniform. destruct (_ && _); [|assumption].
  unfold simple_stem, title. now rewrite title_from_spaced.
Qed.

(** ** The normalizer on simple names *)

Lemma guard_reserved_first (m : pystr) :
  simple_stem m = true ->
  exists c r, guard_reserved m = c :: r /\ isdot c = false.
Proof.
  intros M. unfold guard_reserved. destruct (bool_decide _).
  - exists "_"%char, m. split; reflexivity.
  - apply simple_stem_inv in M as (c & r & -> & Hc & _). exists c, r.
    split; [reflexivity|]. now destruct (plain_props c Hc) as (_ & -> & _).
Qed.

Lemma finish_simple (sound_id n e : pystr) :
  simple_stem n = true -> simple_ext e = true ->
  finish sound_id (n ++ e) = normal_stem n ++ e.
Proof.
  intros N E. unfold finish. rewrite splitext_simple by assumption.
  cbn [fst snd]. unfold rebuilt_stem. rewrite rstrip_simple by assumption.
  fold (normal_stem n).
  destruct (guard_reserved_first (title_if_uniform n)
              (title_if_uniform_simple n N)) as (c & r & G & D).
  unfold normal_stem. rewrite G. cbn [app].
  rewrite bool_decide_eq_false_2 by discriminate.
  rewrite bool_decide_eq_false_2; [reflexivity|].
  intros [= -> _]. discriminate.
Qed.

(** The stages after the underscores were replaced, on a simple name
    with or without a space in front. *)
Lemma after_underscores_simple (sound_id lead n e : pystr) :
  lead = [] \/ lead = lit " " ->
  simple_stem n = true -> simple_ext e = true ->
  finish sound_id (sanitize_chars (normalize_spacing (lead ++ n ++ e)))
  = normal_stem n ++ e.
Proof.
  intros L N E. rewrite normalize_spacing_simple by assumption.
  rewrite sanitize_chars_id.
  - now apply finish_simple.
  - apply (simple_chars_absent ([] ++ n ++ e)). now apply simple_name_chars.
Qed.

Lemma html_unescape_plain (s : pystr) :
  ~ In "&"%char s -> html_unescape s = s.
Proof.
  intros H. unfold html_unescape.
  destruct (existsb (Ascii.eqb "&") s) eqn:E; [|reflexivity].
  apply existsb_exists in E as (c & Hc & Ec). apply Ascii.eqb_eq in Ec.
  subst c. contradiction.
Qed.

Lemma strip_id (s : pystr) :
  match s with [] => True | c :: _ => isspace c = false end ->
  match rev s with [] => True | c :: _ => isspace c = false end ->
  strip s = s.
Proof.
  intros F L. unfold strip. rewrite lstrip_id by assumption. now apply rstrip_id.
Qed.

(** Steps 1 to 3 on a name without [&] and [-] that neither starts nor
    ends with whitespace and does not start with a dot. *)
Lemma front_stages_id (first : ascii) (s sound_id page_title : pystr) :
  ~ In "&"%char (first :: s) -> ~ In "-"%char (first :: s) ->
  isspace first = false -> isdot first = false ->
  match rev (first :: s) with [] => True | c :: _ => isspace c = false end ->
  with_fallback (re_sub uuid_pattern (fun _ => []) (html_unescape (first :: s)))
    sound_id page_title
  = first :: s.
Proof.
  intros Ha Hh Fs Fd L.
  rewrite html_unescape_plain, uuid_sub_no_hyphen by assumption.
  unfold with_fallback. rewrite strip_id; [|exact Fs|exact L].
  rewrite bool_decide_eq_false_2 by discriminate.
  cbn [lit list_ascii_of_string startswith orb].
  unfold isdot in Fd. rewrite Ascii.eqb_sym, Fd. reflexivity.
Qed.

Lemma map_id_absent (a b : ascii) (s : pystr) :
  ~ In a s -> map (fun c => if Ascii.eqb a c then b else c) s = s.
Proof.
  induction s as [|c s IH]; intros H; [reflexivity|]. simpl.
  destruct (Ascii.eqb a c) eqn:E.
  - apply Ascii.eqb_eq in E. subst c. exfalso. apply H. now left.
  - f_equal. apply IH. intros Hin. apply H. now right.
Qed.

Lemma sanitize_simple (sound_id page_title n e : pystr) :
  simple_stem n = true -> simple_ext e = true ->
  _sanitize_filename html_unescape (n ++ e) sound_id page_title
  = normal_stem n ++ e.
Proof.
  intros N E. rewrite sanitize_filename_stages. unfold cleaned_name.
  destruct (simple_chars_absent _ (simple_name_chars [] n e eq_refl N E))
    as (_ & Hh & Hu & Ha). cbn [app] in Hh, Hu, Ha.
  destruct (simple_name_last n e N E) as (l & r & L & Hl).
  pose proof N as N'. apply simple_stem_inv in N' as (c & n' & -> & Hc & _).
  destruct (plain_props c Hc) as (Sc & Dc & _).
  cbn [app] in *. rewrite front_stages_id; try assumption.
  2:{ rewrite L. now destruct (plain_props l Hl) as (-> & _). }
  change (lit "_") with ("_"%char :: []). rewrite replace_absent by assumption.
  now apply (after_underscores_simple sound_id [] (c :: n') e); [left| |].
Qed.





(** ** The fallback name of an empty raw name *)

Lemma digit_props c :
  isdigit c = true ->
  plain c = true /\ Ascii.eqb c " " = false /\ Ascii.eqb "_" c = false
  /\ iscased c = false /\ isupper_c c = false /\ toupper c = c.
Proof.
  destruct c as [[] [] [] [] [] [] [] []]; vm_compute; try congruence;
    intros _; repeat split; reflexivity.
Qed.

Lemma digits_spaced (s : pystr) :
  forallb isdigit s = true -> s <> [] -> forall b, spaced_words b s = true.
Proof.
  induction s as [|c s IH]; intros H Hne b; [contradiction|].
  simpl in H. apply andb_prop in H as [Hc Hs].
  destruct (digit_props c Hc) as (P & S & _). cbn [spaced_words]. rewrite S, P.
  destruct s as [|d s]; [reflexivity|]. now apply IH.
Qed.

Lemma digits_facts (s : pystr) :
  forallb isdigit s = true ->
  ~ In "_"%char s /\ existsb isupper_c s = false /\ title_from false s = s.
Proof.
  induction s as [|c s IH]; intros H.
  - split_and!; try done. intros [].
  - simpl in H. apply andb_prop in H as [Hc Hs].
    destruct (IH Hs) as (U & Up & T).
    destruct (digit_props c Hc) as (_ & _ & Eu & Ca & Iu & Tu). split_and!.
    + intros [E|Hin]; [|contradiction]. subst c. vm_compute in Eu. discriminate.
    + simpl. now rewrite Iu, Up.
    + cbn [title_from]. now rewrite Tu, Ca, T.
Qed.

(** C2, as amended — the name of an empty raw name.  Without a title the
    empty raw name takes the fallback [audio_<id>.mp3] of step 3, which
    the later steps turn into [Audio <id>.mp3]: for every id of one or
    more digits that is the final filename. *)
Theorem sanitize_empty_name :
  forall (sound_id : pystr),
    sound_id <> [] -> forallb isdigit sound_id = true ->
    _sanitize_filename html_unescape [] sound_id []
    = lit "Audio " ++ sound_id ++ lit ".mp3".
Proof.
  intros sound_id Hne Hd.
  destruct (digits_facts sound_id Hd) as (Hu & Up & T).
  rewrite sanitize_filename_stages. unfold cleaned_name.
  change (with_fallback (re_sub uuid_pattern (fun _ => []) (html_unescape []))
            sound_id [])
    with (lit "audio_" ++ sound_id ++ lit ".mp3").
  change (lit "_") with ["_"%char]. change (lit " ") with [" "%char].
  rewrite replace_char, !map_app, (map_id_absent _ _ sound_id Hu).
  change (map _ (lit "audio_")) with (lit "audio ").
  change (map _ (lit ".mp3")) with (lit ".mp3").
  rewrite app_assoc.
  assert (N : simple_stem (lit "audio " ++ sound_id) = true).
  { unfold simple_stem. cbn. now apply digits_spaced. }
  pose proof (after_underscores_simple sound_id [] (lit "audio " ++ sound_id)
                (lit ".mp3") (or_introl eq_refl) N eq_refl) as A.
  change ([] ++ (lit "audio " ++ sound_id) ++ lit ".mp3")
    with ((lit "audio " ++ sound_id) ++ lit ".mp3") in A.
  rewrite A.
  rewrite (app_assoc (lit "Audio ")). f_equal.
  unfold normal_stem, title_if_uniform.
  rewrite bool_decide_eq_false_2 by discriminate.
  assert (L : islower (lit "audio " ++ sound_id) = true).
  { unfold islower. rewrite !existsb_app, Up. reflexivity. }
  rewrite L. cbn [negb andb orb].
  assert (Ti : title (lit "audio " ++ sound_id) = lit "Audio " ++ sound_id).
  { unfold title. cbn [lit list_ascii_of_string app title_from].
    change (iscased " ") with false. rewrite T. reflexivity. }
  rewrite Ti. unfold guard_reserved. rewrite bool_decide_eq_false_2; [reflexivity|].
  intros H. apply reserved_shape in H as (Len & _).
  rewrite upper_length, length_app in Len. simpl in Len. lia.
Qed.

(** C2 as stated fails: the fallback name goes through the later steps. *)
Lemma empty_raw_name_is_title_cased :
  _sanitize_filename html_unescape [] (lit "42") [] = lit "Audio 42.mp3"
  /\ _sanitize_filename html_unescape [] (lit "42") []
     <> lit "audio_" ++ lit "42" ++ lit ".mp3".
Proof. split; [vm_compute; reflexivity | vm_compute; discriminate]. Qed.

Lemma sanitize_empty_name_witness :
  lit "42" <> [] /\ forallb isdigit (lit "42") = true
  /\ _sanitize_filename html_unescape [] (lit "42") []
     = lit "Audio " ++ lit "42" ++ lit ".mp3".
Proof.
  split; [discriminate|]. split; [reflexivity|].
  apply (sanitize_empty_name (lit "42")); [discriminate | reflexivity].
Defined.

(** * Properties of the Markup Extractor *)

(** C3 — the fallback of the extraction.  On a page whose sound items
    are not recognised and whose download button carries a second class,
    the capability check counts the button while the fallback pattern,
    which asks for the class attribute to be exactly
    [btn-download-track], finds no record. *)
Theorem fallback_misses_download_button :
  _check_downloads_enabled two_class_page = (true, 1%nat)
  /\ findall item_pattern two_class_page = []
  /\ _parse_sound_items two_class_page = [].
Proof. split; [|split]; vm_compute; reflexivity. Qed.

(** * Properties of the Board Fetcher *)

Section FetcherProofs.

Variable unescape : pystr -> pystr.
Variable self : SoundboardSnag.

Lemma keeps_files_refl n : keeps_files n n.
Proof. intros name H. exact H. Qed.

Lemma keeps_files_trans n1 n2 n3 :
  keeps_files n1 n2 -> keeps_files n2 n3 -> keeps_files n1 n3.
Proof. intros F1 F2 name H. auto. Qed.

Lemma same_env_refl w : same_env w w.
Proof. split; reflexivity. Qed.

Lemma same_env_trans w1 w2 w3 :
  same_env w1 w2 -> same_env w2 w3 -> same_env w1 w3.
Proof. intros [A B] [C D]. split; congruence. Qed.

Lemma fs_call_inv {A} (op : fs_op) (run : node -> result A * node) w r w' :
  fs_call op run w = (r, w') ->
  same_env w w' /\ log w' = log w
  /\ ((exists e, fault w op (clock w) = Some e /\ r = Raise e
                 /\ output_dir w' = output_dir w)
      \/ (fault w op (clock w) = None /\ run (output_dir w) = (r, output_dir w'))).
Proof.
  unfold fs_call. destruct (fault w op (clock w)) as [e|] eqn:F.
  - intros [= <- <-]. repeat split; eauto.
  - destruct (run (output_dir w)) as [r0 n] eqn:R. intros [= <- <-].
    repeat split; eauto.
Qed.

Lemma is_file_insert es name data other :
  is_file (Directory es) other = true ->
  is_file (Directory (<[name := RegularFile data]> es)) other = true.
Proof.
  simpl. destruct (decide (name = other)) as [->|Hne].
  - rewrite lookup_insert_eq. reflexivity.
  - rewrite lookup_insert_ne by assumption. auto.
Qed.

Lemma open_wb_inv name w r w' :
  open_wb name w = (r, w') ->
  same_env w w' /\ log w' = log w /\ keeps_files (output_dir w) (output_dir w')
  /\ (r = Return tt -> is_file (output_dir w') name = true).
Proof.
  intros H. apply fs_call_inv in H as (E & L & [(e & _ & -> & D) | (_ & R)]).
  - rewrite D. split; [assumption|]. split; [assumption|].
    split; [apply keeps_files_refl | discriminate].
  - split; [assumption|]. split; [assumption|].
    destruct (output_dir w) as [| |es] eqn:N; simpl in R.
    + injection R as <- <-. split; [apply keeps_files_refl | discriminate].
    + injection R as <- <-. split; [apply keeps_files_refl | discriminate].
    + destruct (es !! name) as [[data|]|] eqn:Lk; injection R as <- <-.
      * split.
        { intros other. apply is_file_insert. }
        intros _. simpl. now rewrite lookup_insert_eq.
      * split; [apply keeps_files_refl | discriminate].
      * split.
        { intros other. apply is_file_insert. }
        intros _. simpl. now rewrite lookup_insert_eq.
Qed.

Lemma file_write_inv name chunk w r w' :
  file_write name chunk w = (r, w') ->
  same_env w w' /\ log w' = log w /\ keeps_files (output_dir w) (output_dir w').
Proof.
  intros H. apply fs_call_inv in H as (E & L & [(e & _ & -> & D) | (_ & R)]).
  - rewrite D. auto using keeps_files_refl.
  - split; [assumption|]. split; [assumption|].
    destruct (output_dir w) as [| |es] eqn:N; simpl in R.
    + injection R as <- <-. apply keeps_files_refl.
    + injection R as <- <-. apply keeps_files_refl.
    + destruct (es !! name) as [[data|]|] eqn:Lk; injection R as <- <-;
        try apply keeps_files_refl.
      intros other. apply is_file_insert.
Qed.

Lemma getsize_inv name w r w' :
  getsize name w = (r, w') ->
  same_env w w' /\ log w' = log w /\ output_dir w' = output_dir w.
Proof.
  intros H. apply fs_call_inv in H as (E & L & [(e & _ & -> & D) | (_ & R)]).
  - auto.
  - split; [assumption|]. split; [assumption|].
    destruct (output_dir w) as [| |es] eqn:N; simpl in R.
    + now injection R as <- <-.
    + now injection R as <- <-.
    + destruct (es !! name) as [[data|]|] eqn:Lk; now injection R as <- <-.
Qed.

Lemma requests_app l1 l2 : requests (l1 ++ l2) = requests l1 ++ requests l2.
Proof. apply flat_map_app. Qed.

Lemma read_chunk_inv url left w r w' :
  read_chunk url left w = (r, w') ->
  same_env w w' /\ output_dir w' = output_dir w
  /\ requests (log w') = requests (log w).
Proof.
  unfold read_chunk.
  destruct left as [|[chunk|e] left']; intros [= <- <-];
    (split; [split; reflexivity | split; [reflexivity|] ]);
    simpl; rewrite requests_app; simpl; apply app_nil_r.
Qed.

Lemma write_chunks_inv url name fuel : forall left w r w',
  write_chunks url name fuel left w = (r, w') ->
  same_env w w' /\ keeps_files (output_dir w) (output_dir w')
  /\ requests (log w') = requests (log w).
Proof.
  induction fuel as [|fuel IH]; intros left w r w'; simpl.
  - intros [= <- <-].
    split; [apply same_env_refl | split; [apply keeps_files_refl | reflexivity]].
  - unfold bind at 1. destruct (read_chunk url left w) as [[[chunk left']|e] w1] eqn:R;
      apply read_chunk_inv in R as (E1 & D1 & L1).
    + destruct (bool_decide (chunk = [])).
      * intros [= <- <-]. split; [assumption|]. rewrite D1.
        split; [apply keeps_files_refl | assumption].
      * unfold bind. destruct (file_write name chunk w1) as [[[]|e] w2] eqn:W;
          apply file_write_inv in W as (E2 & L2 & K2).
        -- intros H. apply IH in H as (E3 & K3 & L3). split; [|split].
           ++ eauto using same_env_trans.
           ++ rewrite <- D1. eauto using keeps_files_trans.
           ++ congruence.
        -- intros [= <- <-]. split; [eauto using same_env_trans|].
           rewrite <- D1. split; [assumption | congruence].
    + intros [= <- <-]. split; [assumption|]. rewrite D1.
      split; [apply keeps_files_refl | assumption].
Qed.


Lemma snag_sound_inv sid title w r w' :
  _snag_sound unescape self sid title w = (r, w') ->
  same_env w w' /\ keeps_files (output_dir w) (output_dir w')
  /\ requests (log w') = requests (log w) ++ [download_url self sid]
  /\ exists o, r = Return o /\ outcome_facts unescape self sid title w w' o.
Proof.
  unfold _snag_sound, snag_sound_try, try_except, bind at 1, do_urlopen.
  fold (download_url self sid).
  set (w1 := record (Requested (download_url self sid)) w).
  assert (E1 : same_env w w1) by (split; reflexivity).
  assert (D1 : output_dir w1 = output_dir w) by reflexivity.
  assert (L1 : requests (log w1) = requests (log w) ++ [download_url self sid])
    by (unfold w1; simpl; now rewrite requests_app).
  destruct (urlopen w (download_url self sid)) as [resp|e] eqn:U.
  - destruct (getcode resp =? 200) eqn:G; cbn [negb].
    + apply Z.eqb_eq in G.
      set (f := final_filename_of unescape sid title resp).
      unfold bind at 1, path_isfile. rewrite D1.
      destruct (is_file (output_dir w) f) eqn:NF.
      * unfold ret. intros [= <- <-]. split; [assumption|].
        split; [apply keeps_files_refl|]. split; [assumption|].
        eexists; split; [reflexivity|].
        simpl. exists resp. auto.
      * unfold bind at 1.
        destruct (open_wb f w1) as [[[]|e] w2] eqn:O;
          apply open_wb_inv in O as (E2 & L2 & K2 & F2).
        -- unfold bind at 1.
           destruct (write_chunks _ _ _ _ w2) as [[[]|e] w3] eqn:W;
             apply write_chunks_inv in W as (E3 & K3 & L3).
           ++ unfold bind at 1.
              destruct (getsize f w3) as [[size|e] w4] eqn:S;
                apply getsize_inv in S as (E4 & L4 & D4).
              ** unfold ret. intros [= <- <-].
                 split; [eauto using same_env_trans|].
                 split. { rewrite D4, <- D1. eauto using keeps_files_trans. }
                 split; [congruence|].
                 eexists; split; [reflexivity|]. simpl. exists resp.
                 repeat split; auto. rewrite D4. apply K3. auto.
              ** intros H.
                 assert (same_env w w4) by eauto using same_env_trans.
                 assert (keeps_files (output_dir w) (output_dir w4))
                   by (rewrite D4, <- D1; eauto using keeps_files_trans).
                 assert (requests (log w4) = requests (log w) ++ [download_url self sid])
                   by congruence.
                 unfold ret in H; injection H as <- <-;
                   (split; [assumption|]); (split; [assumption|]);
                   (split; [assumption|]);
                   eexists; (split; [reflexivity|exact I]).
           ++ intros H.
              assert (same_env w w3) by eauto using same_env_trans.
              assert (keeps_files (output_dir w) (output_dir w3))
                by (rewrite <- D1; eauto using keeps_files_trans).
              assert (requests (log w3) = requests (log w) ++ [download_url self sid])
                by congruence.
              unfold ret in H; injection H as <- <-;
                (split; [assumption|]); (split; [assumption|]);
                (split; [assumption|]);
                eexists; (split; [reflexivity|exact I]).
        -- intros H.
           assert (same_env w w2) by eauto using same_env_trans.
           assert (keeps_files (output_dir w) (output_dir w2))
             by (rewrite <- D1; assumption).
           assert (requests (log w2) = requests (log w) ++ [download_url self sid])
             by congruence.
           unfold ret in H; injection H as <- <-;
             (split; [assumption|]); (split; [assumption|]);
             (split; [assumption|]);
             eexists; (split; [reflexivity|exact I]).
    + unfold ret. intros [= <- <-]. split; [assumption|].
      split; [apply keeps_files_refl|]. split; [assumption|].
      eexists; split; [reflexivity|exact I].
  - intros H. unfold ret in H; injection H as <- <-;
      (split; [assumption|]); (split; [apply keeps_files_refl|]);
      (split; [assumption|]);
      eexists; (split; [reflexivity|exact I]).
Qed.

Lemma snag_sound_skips sid title w resp :
  urlopen w (download_url self sid) = Return resp ->
  getcode resp = 200 ->
  is_file (output_dir w) (final_filename_of unescape sid title resp) = true ->
  _snag_sound unescape self sid title w
  = (Return (Skipped (final_filename_of unescape sid title resp)),
     record (Requested (download_url self sid)) w).
Proof.
  intros U G F.
  unfold _snag_sound, snag_sound_try, try_except, bind at 1, do_urlopen.
  fold (download_url self sid). rewrite U, G. simpl.
  unfold bind, path_isfile. simpl. rewrite F. reflexivity.
Qed.

(** ** The download loop *)

Lemma download_loop_cons sid title rest c w :
  download_loop unescape self ((sid, title) :: rest) c w
  = match prepare w with
    | (Raise e, w1) => (Raise e, w1)
    | (Return _, w1) =>
        match _snag_sound unescape self sid title w1 with
        | (Raise e, w2) => (Raise e, w2)
        | (Return o, w2) =>
            let c1 := count o c in
            if is_failed o && (2 <=? consecutive_failures c1)%nat
            then match cleanup c1 w2 with
                 | (Return _, w3) => (Return (c1, true), w3)
                 | (Raise e, w3) => (Raise e, w3)
                 end
            else download_loop unescape self rest c1 w2
        end
    end.
Proof.
  cbn [download_loop]. unfold prepare, cleanup, bind, path_exists.
  match goal with
  | |- context [(if ?b then makedirs else ret ()) w] =>
      destruct ((if b then makedirs else ret ()) w) as [[[]|e1] w1]
  end; [|reflexivity].
  destruct (_snag_sound unescape self sid title w1) as [[o|e2] w2]; [|reflexivity].
  destruct o; cbn [is_failed andb]; try reflexivity.
  unfold max_consecutive_failures.
  destruct (2 <=? _)%nat; [|reflexivity].
  match goal with
  | |- context [(if ?b then remove_if_empty else ret ()) w2] =>
      destruct ((if b then remove_if_empty else ret ()) w2) as [[[]|e3] w3]
  end; reflexivity.
Qed.

Lemma keeps_files_no_dir n n' :
  (forall es, n <> Directory es) -> keeps_files n n'.
Proof. intros H name. destruct n; try discriminate. now destruct (H entries). Qed.

Lemma keeps_files_empty n' : keeps_files (Directory ∅) n'.
Proof. intros name. simpl. now rewrite lookup_empty. Qed.

Lemma prepare_inv w r w' :
  prepare w = (r, w') ->
  same_env w w' /\ log w' = log w /\ keeps_files (output_dir w) (output_dir w')
  /\ (output_dir w <> Absent -> r = Return tt /\ w' = w)
  /\ (forall e, r = Raise e -> fault w Makedirs (clock w) = Some e).
Proof.
  unfold prepare, bind, path_exists.
  destruct (output_dir w) as [| |es] eqn:N; cbn [negb].
  - intros H. apply fs_call_inv in H as (E & L & [(e & F & -> & D) | (F & R)]).
    + split_and!; try done;
        first [ congruence
              | apply keeps_files_no_dir; intros es; congruence ].
    + rewrite N in R. injection R as <- D. split_and!; try done;
        apply keeps_files_no_dir; intros es; congruence.
  - unfold ret. intros [= <- <-]. rewrite N.
    split_and!; try done; auto using keeps_files_refl, same_env_refl.
  - unfold ret. intros [= <- <-]. rewrite N.
    split_and!; try done; auto using keeps_files_refl, same_env_refl.
Qed.

Lemma remove_if_empty_inv w r w' :
  remove_if_empty w = (r, w') ->
  r = Return tt /\ same_env w w' /\ log w' = log w
  /\ keeps_files (output_dir w) (output_dir w')
  /\ (fault w Rmdir (clock w) = None -> output_dir w' <> Directory ∅).
Proof.
  unfold remove_if_empty, bind, path_exists, path_isdir, try_except.
  destruct (output_dir w) as [| |es] eqn:N; cbn [andb].
  - unfold ret. intros [= <- <-]. rewrite N.
    split_and!; try done; auto using keeps_files_refl, same_env_refl.
  - unfold ret. intros [= <- <-]. rewrite N.
    split_and!; try done; auto using keeps_files_refl, same_env_refl.
  - destruct (rmdir w) as [[[]|e] w1] eqn:R;
      apply fs_call_inv in R as (E & L & [(e0 & F & Q & D) | (F & R)]);
      try discriminate.
    + rewrite N in R. destruct (bool_decide (es = ∅)) eqn:B; [|discriminate].
      injection R as D. intros [= <- <-]. rewrite <- D.
      apply bool_decide_eq_true in B. subst es.
      split_and!; try done; auto using keeps_files_empty.
    + unfold ret. intros [= <- <-]. rewrite D, N.
      split_and!; try done; auto using keeps_files_refl; try congruence.
    + rewrite N in R. destruct (bool_decide (es = ∅)) eqn:B; [discriminate|].
      injection R as _ D. unfold ret. intros [= <- <-]. rewrite <- D.
      split_and!; try done; auto using keeps_files_refl;
        try (intros _ [= ->]; now rewrite bool_decide_eq_true_2 in B).
Qed.

Lemma cleanup_inv c w r w' :
  cleanup c w = (r, w') ->
  r = Return tt /\ same_env w w' /\ log w' = log w
  /\ keeps_files (output_dir w) (output_dir w')
  /\ (snagged_count c = 0%nat -> existing_count c = 0%nat ->
      fault w Rmdir (clock w) = None -> output_dir w' <> Directory ∅).
Proof.
  unfold cleanup.
  destruct (snagged_count c =? 0)%nat eqn:A;
    [destruct (existing_count c =? 0)%nat eqn:B|]; cbn [andb].
  - intros H. apply remove_if_empty_inv in H as (-> & E & L & K & D).
    auto 10.
  - unfold ret. intros [= <- <-]. apply Nat.eqb_neq in B.
    split_and!; try done; auto using keeps_files_refl, same_env_refl.
  - unfold ret. intros [= <- <-]. apply Nat.eqb_neq in A.
    split_and!; try done; auto using keeps_files_refl, same_env_refl.
Qed.

Lemma tally_app os1 os2 c : tally (os1 ++ os2) c = tally os2 (tally os1 c).
Proof. apply fold_left_app. Qed.

Lemma consecutive_count o c :
  consecutive_failures (count o c) = bump (consecutive_failures c) o.
Proof. now destruct o. Qed.

Lemma consecutive_tally os : forall c,
  consecutive_failures (tally os c) = fold_left bump os (consecutive_failures c).
Proof.
  induction os as [|o os IH]; intros c; [reflexivity|].
  cbn [tally fold_left]. fold (tally os (count o c)).
  now rewrite IH, consecutive_count.
Qed.

Lemma outcomes_tally os : forall c, outcomes (tally os c) = outcomes c ++ os.
Proof.
  induction os as [|o os IH]; intros c; [now rewrite app_nil_r|].
  cbn [tally fold_left]. fold (tally os (count o c)).
  rewrite IH. destruct o; simpl; now rewrite <- app_assoc.
Qed.

Lemma failed_tally os : forall c,
  failed_count (tally os c)
  = (failed_count c + List.length (List.filter is_failed os))%nat.
Proof.
  induction os as [|o os IH]; intros c; [simpl; lia|].
  cbn [tally fold_left]. fold (tally os (count o c)).
  rewrite IH. destruct o; simpl; lia.
Qed.

Lemma snagged_tally os : forall c,
  snagged_count (tally os c)
  = (snagged_count c + List.length (List.filter is_saved os))%nat.
Proof.
  induction os as [|o os IH]; intros c; [simpl; lia|].
  cbn [tally fold_left]. fold (tally os (count o c)).
  rewrite IH. destruct o; simpl; lia.
Qed.

Lemma existing_tally os : forall c,
  existing_count (tally os c)
  = (existing_count c + List.length (List.filter is_skipped os))%nat.
Proof.
  induction os as [|o os IH]; intros c; [simpl; lia|].
  cbn [tally fold_left]. fold (tally os (count o c)).
  rewrite IH. destruct o; simpl; lia.
Qed.

(** The loop, run from counters whose consecutive-failure count is
    below the cut-off. *)
Lemma download_loop_inv items : forall c w r w',
  download_loop unescape self items c w = (r, w') ->
  (consecutive_failures c < 2)%nat ->
  same_env w w' /\ keeps_files (output_dir w) (output_dir w')
  /\ match r with
     | Raise e => exists n, fault w Makedirs n = Some e
     | Return (c', stopped) =>
         exists os, c' = tally os c
           /\ (List.length os <= List.length items)%nat
           /\ requests (log w')
              = requests (log w) ++ map (item_url self) (firstn (List.length os) items)
           /\ (forall pre post, os = pre ++ post -> post <> [] ->
               (fold_left bump pre (consecutive_failures c) < 2)%nat)
           /\ (if stopped : bool
               then (2 <= consecutive_failures c')%nat
                    /\ (snagged_count c' = 0%nat -> existing_count c' = 0%nat ->
                        (forall n, fault w Rmdir n = None) ->
                        output_dir w' <> Directory ∅)
               else List.length os = List.length items
                    /\ (consecutive_failures c' < 2)%nat)
     end.
Proof.
  induction items as [|[sid title] rest IH]; intros c w r w' H Hc.
  - injection H as <- <-.
    split; [apply same_env_refl|]. split; [apply keeps_files_refl|].
    exists []. split_and!; try done.
    + simpl. now rewrite app_nil_r.
    + intros pre post E. symmetry in E. apply app_eq_nil in E as [_ ->]. done.
  - rewrite download_loop_cons in H.
    destruct (prepare w) as [[[]|e] w1] eqn:P;
      apply prepare_inv in P as (E1 & L1 & K1 & _ & F1).
    2:{ injection H as <- <-. split; [assumption|]. split; [assumption|]. eauto. }
    destruct (_snag_sound unescape self sid title w1) as [r2 w2] eqn:S.
    apply snag_sound_inv in S as (E2 & K2 & L2 & o & -> & _).
    cbv zeta in H.
    assert (E12 : same_env w w2) by eauto using same_env_trans.
    assert (K12 : keeps_files (output_dir w) (output_dir w2))
      by eauto using keeps_files_trans.
    destruct (is_failed o && (2 <=? consecutive_failures (count o c))%nat) eqn:B.
    + apply andb_prop in B as [Bf B2]. apply Nat.leb_le in B2.
      destruct (cleanup (count o c) w2) as [rc w3] eqn:C.
      apply cleanup_inv in C as (-> & E3 & L3 & K3 & D3).
      injection H as <- <-.
      split; [eauto using same_env_trans|]. split; [eauto using keeps_files_trans|].
      exists [o]. split_and!; try done.
      * simpl. lia.
      * rewrite L3, L2, L1. reflexivity.
      * intros pre post E Hp. destruct pre as [|x pre]; [assumption|].
        destruct pre; destruct post; simpl in E; congruence.
      * intros Hs He Hr. apply D3; auto. destruct E12 as [_ ->]. apply Hr.
    + assert (Hc1 : (consecutive_failures (count o c) < 2)%nat).
      { rewrite consecutive_count in *. unfold bump in *.
        destruct (is_failed o); [|lia]. cbn [andb] in B.
        now apply Nat.leb_gt in B. }
      apply IH in H as (E3 & K3 & R); [|assumption].
      split; [eauto using same_env_trans|]. split; [eauto using keeps_files_trans|].
      destruct r as [[c' stopped]|e].
      * destruct R as (os & -> & Len & Rq & Pre & St).
        exists (o :: os). split_and!; try done.
        -- simpl. lia.
        -- rewrite Rq, L2, L1. simpl. now rewrite <- app_assoc.
        -- intros pre post E Hp. destruct pre as [|x pre]; [assumption|].
           injection E as <- E. simpl. rewrite <- consecutive_count. eauto.
        -- destruct stopped.
           ++ destruct St as [S2 D]. split; [assumption|].
              intros Hs He Hr. apply D; auto. destruct E12 as [_ ->]. apply Hr.
           ++ destruct St as [S2 D]. split; [simpl; lia | assumption].
      * destruct R as [n Fn]. exists n. destruct E12 as [_ Ef]. now rewrite <- Ef.
Qed.

(** ** Running twice *)





End FetcherProofs.

(** ** The claims about the Board Fetcher *)

Lemma trailing_snoc (pre : list DownloadOutcome) (o : DownloadOutcome) :
  trailing_failures (pre ++ [o])
  = if is_failed o then S (trailing_failures pre) else O.
Proof. unfold trailing_failures. rewrite fold_left_app. reflexivity. Qed.

Lemma tally_counters0 (os : list DownloadOutcome) :
  outcomes (tally os counters0) = os
  /\ consecutive_failures (tally os counters0) = trailing_failures os.
Proof.
  split; [apply outcomes_tally | apply consecutive_tally].
Qed.

(** C6 — the consecutive-failure cut-off of the download loop.  For a run
    of the loop over [items] from fresh counters: the counter is the
    number of failures trailing the outcomes, a [Saved] or [Skipped]
    outcome resetting it to 0; two [Failed] outcomes in a row can only be
    the last two outcomes, and the loop has then stopped, no request
    having been made for a later record; and when the loop stops with
    nothing saved nor skipped, the directory is not left behind empty
    (as far as [os.rmdir] is not refused). *)
Theorem consecutive_failure_cutoff :
  forall (unescape : pystr -> pystr) (self : SoundboardSnag)
         (items : list (pystr * pystr)) (w w' : world)
         (c : counters) (stopped : bool),
    download_loop unescape self items counters0 w = (Return (c, stopped), w') ->
    consecutive_failures c = trailing_failures (outcomes c)
    /\ (forall pre o, is_failed o = false -> trailing_failures (pre ++ [o]) = O)
    /\ (forall pre r1 r2 post,
          outcomes c = pre ++ [Failed r1; Failed r2] ++ post ->
          post = [] /\ stopped = true)
    /\ (stopped = true <-> (2 <= trailing_failures (outcomes c))%nat)
    /\ (stopped = false -> List.length (outcomes c) = List.length items)
    /\ requests (log w')
       = requests (log w)
         ++ map (item_url self) (firstn (List.length (outcomes c)) items)
    /\ (stopped = true -> snagged_count c = O -> existing_count c = O ->
        (forall n, fault w Rmdir n = None) ->
        output_dir w' <> Directory ∅).
Proof.
  intros unescape self items w w' c stopped H.
  apply download_loop_inv in H as (_ & _ & os & -> & Len & Rq & Pre & St);
    [|simpl; lia].
  destruct (tally_counters0 os) as [-> ->]. simpl in Pre.
  split; [reflexivity|].
  split. { intros pre o Ho. rewrite trailing_snoc, Ho. reflexivity. }
  assert (Stop : stopped = true <-> (2 <= trailing_failures os)%nat).
  { destruct stopped.
    - destruct St as [S2 _]. destruct (tally_counters0 os) as [_ E].
      rewrite E in S2. tauto.
    - destruct St as [_ S2]. destruct (tally_counters0 os) as [_ E].
      rewrite E in S2. split; [discriminate | lia]. }
  split.
  { intros pre r1 r2 post E.
    assert (T : trailing_failures (pre ++ [Failed r1; Failed r2])
                = S (S (trailing_failures pre))).
    { change [Failed r1; Failed r2] with ([Failed r1] ++ [Failed r2]).
      rewrite app_assoc, !trailing_snoc. reflexivity. }
    destruct post as [|p post].
    - split; [reflexivity|]. apply Stop. rewrite E, app_nil_r, T. lia.
    - exfalso. specialize (Pre (pre ++ [Failed r1; Failed r2]) (p :: post)).
      rewrite <- app_assoc in Pre. specialize (Pre E ltac:(discriminate)).
      fold (trailing_failures (pre ++ [Failed r1; Failed r2])) in Pre. lia. }
  split; [exact Stop|].
  split. { intros ->. apply St. }
  split; [exact Rq|].
  intros ->. destruct St as [_ D]. exact D.
Qed.

Example sim_one_by_one :
  map (fun it => fst (_snag_sound html_unescape sim_self (fst it) (snd it)
                        (sim_world (Directory ∅)))) sim_items
  = [Return (Failed (lit "HTTP 404: Not Found"));
     Return (Failed (lit "HTTP 404: Not Found"));
     Return (Saved (lit "Three.mp3") 4);
     Return (Failed (lit "HTTP 404: Not Found"))].
Proof. vm_compute. reflexivity. Qed.

Lemma consecutive_failure_cutoff_witness :
  sim_run = (Return (sim_counters, true), snd sim_run)
  /\ outcomes sim_counters
     = [Failed (lit "HTTP 404: Not Found"); Failed (lit "HTTP 404: Not Found")]
  /\ requests (log (snd sim_run))
     = [lit "https://www.soundboard.com/track/download/1";
        lit "https://www.soundboard.com/track/download/2"]
  /\ output_dir (snd sim_run) = Absent
  /\ consecutive_failures sim_counters = trailing_failures (outcomes sim_counters)
  /\ (true = true <-> (2 <= trailing_failures (outcomes sim_counters))%nat).
Proof.
  assert (H : sim_run = (Return (sim_counters, true), snd sim_run))
    by (vm_compute; reflexivity).
  split; [exact H|].
  split; [vm_compute; reflexivity|].
  split; [vm_compute; reflexivity|].
  split; [vm_compute; reflexivity|].
  destruct (consecutive_failure_cutoff html_unescape sim_self sim_items
              (sim_world Absent) (snd sim_run) sim_counters true H)
    as (A & _ & _ & B & _).
  split; [exact A | exact B].
Defined.






(** * Properties of Board Search *)

Lemma replace_char_nil (c : ascii) (s : pystr) :
  replace [c] [] s = List.filter (fun x => negb (Ascii.eqb c x)) s.
Proof.
  unfold replace. induction s as [|x s IH]; [reflexivity|].
  cbn [replace_from startswith List.length pred List.filter].
  rewrite andb_true_r. destruct (Ascii.eqb c x); cbn [negb app]; now rewrite IH.
Qed.










Lemma In_insert_by_views (b x : board) (l : list board) :
  In x (insert_by_views b l) <-> x = b \/ In x l.
Proof.
  induction l as [|y l IH]; simpl.
  - intuition congruence.
  - destruct (views_int b <? views_int y); simpl; rewrite ?IH; intuition congruence.
Qed.

Lemma In_sort_by_views (x : board) (l : list board) :
  In x (sort_by_views l) <-> In x l.
Proof.
  induction l as [|y l IH]; simpl; [tauto|].
  rewrite In_insert_by_views, IH. intuition congruence.
Qed.

Lemma In_final_results (st : search_state) (b : board) :
  In b (final_results st) <-> In b (results st) /\ has_downloads b = true.
Proof. unfold final_results. rewrite In_sort_by_views. apply filter_In. Qed.

Section SearchProofs.

Variable unescape : pystr -> pystr.
Variable int_max_str_digits : nat.
Variables min_views min_sounds : Z.
Variable max_results : nat.




End SearchProofs.




(** * The matcher against what a pattern matches *)

Lemma star_iter_sound (a : regex) (g : bool)
  (IHa : forall s cs k res, rmatch a s cs k = Some res ->
         exists s' cs', matches a s cs s' cs' /\ k s' cs' = Some res) :
  forall fuel s cs k res,
    star_iter (rmatch a) g k fuel s cs = Some res ->
    exists s' cs', iter (matches a) s cs s' cs' /\ k s' cs' = Some res.
Proof.
  induction fuel as [|fuel IH]; intros s cs k res H.
  - exists s, cs. split; [constructor | exact H].
  - cbn [star_iter] in H.
    set (K := fun s' cs' =>
                if (List.length s' <? List.length s)%nat
                then star_iter (rmatch a) g k fuel s' cs' else None) in H.
    assert (Again : forall r, rmatch a s cs K = Some r ->
              exists s' cs', iter (matches a) s cs s' cs' /\ k s' cs' = Some r).
    { intros r Hr. apply IHa in Hr as (s1 & cs1 & M1 & K1). unfold K in K1.
      destruct (List.length s1 <? List.length s)%nat eqn:L; [|discriminate].
      apply Nat.ltb_lt in L. apply IH in K1 as (s' & cs' & I & Hk).
      exists s', cs'. split; [|exact Hk]. econstructor; eauto. }
    assert (Stop : forall r, k s cs = Some r ->
              exists s' cs', iter (matches a) s cs s' cs' /\ k s' cs' = Some r).
    { intros r Hr. exists s, cs. split; [constructor | exact Hr]. }
    destruct g.
    + destruct (rmatch a s cs K) as [r|] eqn:E.
      * injection H as <-. now apply Again.
      * now apply Stop.
    + destruct (k s cs) as [r|] eqn:E.
      * injection H as <-. now apply Stop.
      * now apply Again.
Qed.

Lemma rmatch_sound (r : regex) : forall s cs k res,
  rmatch r s cs k = Some res ->
  exists s' cs', matches r s cs s' cs' /\ k s' cs' = Some res.
Proof.
  induction r as [|p|a IHa b IHb|a IHa b IHb|g a IHa|a IHa|];
    intros s cs k res H; cbn [rmatch] in H.
  - exists s, cs. split; [split; reflexivity | exact H].
  - destruct s as [|c s]; [discriminate|].
    destruct (p c) eqn:P; [|discriminate].
    exists s, cs. split; [|exact H]. exists c. auto.
  - apply IHa in H as (s1 & cs1 & M1 & H). apply IHb in H as (s2 & cs2 & M2 & H).
    exists s2, cs2. split; [|exact H]. exists s1, cs1. auto.
  - destruct (rmatch a s cs k) as [r|] eqn:E.
    + injection H as <-. apply IHa in E as (s' & cs' & M1 & H).
      exists s', cs'. split; [now left | exact H].
    + apply IHb in H as (s' & cs' & M1 & H).
      exists s', cs'. split; [now right | exact H].
  - now apply (star_iter_sound a g IHa) in H.
  - apply IHa in H as (s' & cs' & M1 & H).
    exists s', (cs' ++ [consumed s s']). split; [|exact H]. exists cs'. auto.
  - destruct s as [|c [|d s]].
    + exists [], cs. split; [|exact H]. cbn. auto.
    + destruct (Ascii.eqb c "010") eqn:E; [|discriminate].
      apply Ascii.eqb_eq in E. subst c.
      exists ["010"%char], cs. split; [|exact H]. cbn. auto.
    + discriminate.
Qed.

Lemma star_iter_complete (a : regex) (g : bool) (k : cont)
  (IHa : forall s cs k s' cs', matches a s cs s' cs' ->
         rmatch a s cs k = None -> k s' cs' = None) :
  forall s cs s' cs', iter (matches a) s cs s' cs' ->
  forall fuel, (List.length s <= fuel)%nat ->
    star_iter (rmatch a) g k fuel s cs = None -> k s' cs' = None.
Proof.
  induction 1 as [s cs|s cs s1 cs1 s2 cs2 M1 L I IH]; intros fuel F H.
  - destruct fuel as [|fuel]; [exact H|]. cbn [star_iter] in H.
    destruct g.
    + destruct (rmatch a s cs _); [discriminate | exact H].
    + destruct (k s cs); [discriminate | reflexivity].
  - destruct fuel as [|fuel]; [lia|]. cbn [star_iter] in H.
    apply (IH fuel); [lia|].
    assert (Again : rmatch a s cs (fun s' cs' =>
                if (List.length s' <? List.length s)%nat
                then star_iter (rmatch a) g k fuel s' cs' else None) = None).
    { destruct g.
      - destruct (rmatch a s cs _); [discriminate | reflexivity].
      - destruct (k s cs); [discriminate | exact H]. }
    apply (IHa _ _ _ _ _ M1) in Again. cbv beta in Again.
    apply Nat.ltb_lt in L. now rewrite L in Again.
Qed.

Lemma rmatch_complete (r : regex) : forall s cs k s' cs',
  matches r s cs s' cs' -> rmatch r s cs k = None -> k s' cs' = None.
Proof.
  induction r as [|p|a IHa b IHb|a IHa b IHb|g a IHa|a IHa|];
    intros s cs k s' cs' M H; cbn [rmatch] in H; cbn [matches] in M.
  - destruct M as [-> ->]. exact H.
  - destruct M as (c & -> & P & ->). now rewrite P in H.
  - destruct M as (s1 & cs1 & M1 & M2).
    apply (IHa _ _ _ _ _ M1) in H. now apply (IHb _ _ _ _ _ M2) in H.
  - destruct (rmatch a s cs k) eqn:E; [discriminate|].
    destruct M as [M|M]; eauto.
  - now apply (star_iter_complete a g k IHa _ _ _ _ M (List.length s)).
  - destruct M as (cs1 & M & ->). now apply (IHa _ _ _ _ _ M) in H.
  - destruct M as (-> & -> & [->| ->]); [exact H|]. exact H.
Qed.

Lemma match_at_sound (r : regex) (s rest : pystr) (cs : groups) :
  match_at r s = Some (rest, cs) -> matches r s [] rest cs.
Proof.
  unfold match_at. intros H.
  apply rmatch_sound in H as (s' & cs' & M & [= <- <-]). exact M.
Qed.

Lemma match_at_complete (r : regex) (s rest : pystr) (cs : groups) :
  matches r s [] rest cs -> match_at r s <> None.
Proof.
  unfold match_at. intros M H.
  now apply (rmatch_complete _ _ _ _ _ _ M) in H.
Qed.

(** What is matched is a prefix of the subject. *)
Lemma iter_suffix (R : pystr -> groups -> pystr -> groups -> Prop) :
  (forall s cs s' cs', R s cs s' cs' -> exists g, s = g ++ s') ->
  forall s cs s' cs', iter R s cs s' cs' -> exists g, s = g ++ s'.
Proof.
  intros HR. induction 1 as [s cs|s cs s1 cs1 s2 cs2 M1 L I [g2 E2]].
  - now exists [].
  - apply HR in M1 as [g1 ->]. subst s1. exists (g1 ++ g2). now rewrite app_assoc.
Qed.

Lemma matches_suffix (r : regex) : forall s cs s' cs',
  matches r s cs s' cs' -> exists g, s = g ++ s'.
Proof.
  induction r as [|p|a IHa b IHb|a IHa b IHb|g a IHa|a IHa|];
    intros s cs s' cs' M; cbn [matches] in M.
  - destruct M as [-> _]. now exists [].
  - destruct M as (c & -> & _). now exists [c].
  - destruct M as (s1 & cs1 & M1 & M2).
    apply IHa in M1 as [g1 ->]. apply IHb in M2 as [g2 ->].
    exists (g1 ++ g2). now rewrite app_assoc.
  - destruct M as [M|M]; eauto.
  - now apply (iter_suffix _ IHa) in M.
  - destruct M as (cs1 & M & _). eauto.
  - destruct M as (-> & _). now exists [].
Qed.

Lemma consumed_app (g rest : pystr) : consumed (g ++ rest) rest = g.
Proof.
  unfold consumed. rewrite length_app.
  replace (List.length g + List.length rest - List.length rest)%nat
    with (List.length g) by lia.
  rewrite firstn_app, Nat.sub_diag, firstn_all. simpl. apply app_nil_r.
Qed.

(** ** Literals and classes *)

Lemma Lit_lits (s : string) : Lit s = lits (lit s).
Proof. reflexivity. Qed.

Lemma QLit_lits (s : string) : QLit s = lits (qlit s).
Proof. reflexivity. Qed.

Lemma matches_lits (l : pystr) : forall s cs s' cs',
  matches (lits l) s cs s' cs' <-> s = l ++ s' /\ cs' = cs.
Proof.
  induction l as [|c l IH]; intros s cs s' cs'; cbn [lits fold_right matches].
  - split; [intros [-> ->]|intros [-> ->]]; auto.
  - fold (lits l). split.
    + intros (s1 & cs1 & (c' & -> & E & ->) & M). apply IH in M as [-> ->].
      apply Ascii.eqb_eq in E. subst c'. auto.
    + intros [-> ->]. exists (l ++ s'), cs. split.
      * exists c. split; [reflexivity|]. split; [apply Ascii.eqb_refl | reflexivity].
      * apply IH. auto.
Qed.

Lemma matches_cat a b s cs s' cs' :
  matches (Cat a b) s cs s' cs'
  <-> exists s1 cs1, matches a s cs s1 cs1 /\ matches b s1 cs1 s' cs'.
Proof. reflexivity. Qed.

Lemma matches_star_chr (g : bool) (p : ascii -> bool) s cs s' cs' :
  matches (Star g (Chr p)) s cs s' cs'
  <-> exists x, s = x ++ s' /\ forallb p x = true /\ cs' = cs.
Proof.
  cbn [matches]. split.
  - induction 1 as [s cs|s cs s1 cs1 s2 cs2 M1 L I (x & -> & Px & ->)].
    + exists []. split_and!; reflexivity.
    + destruct M1 as (c & -> & Pc & ->). exists (c :: x).
      split; [reflexivity|]. simpl. rewrite Pc, Px. auto.
  - intros (x & -> & Px & ->). induction x as [|c x IH].
    + constructor.
    + simpl in Px. apply andb_prop in Px as [Pc Px].
      apply (iter_step _ _ _ (x ++ s') cs).
      * exists c. auto.
      * simpl. lia.
      * now apply IH.
Qed.

Lemma matches_plus_chr (g : bool) (p : ascii -> bool) s cs s' cs' :
  matches (Plus g (Chr p)) s cs s' cs'
  <-> exists x, x <> [] /\ s = x ++ s' /\ forallb p x = true /\ cs' = cs.
Proof.
  unfold Plus. rewrite matches_cat. split.
  - intros (s1 & cs1 & (c & -> & Pc & ->) & M).
    apply matches_star_chr in M as (x & -> & Px & ->).
    exists (c :: x). split; [discriminate|]. split; [reflexivity|].
    simpl. rewrite Pc, Px. auto.
  - intros (x & Nx & -> & Px & ->). destruct x as [|c x]; [congruence|].
    simpl in Px. apply andb_prop in Px as [Pc Px].
    exists (x ++ s'), cs. split; [exists c; auto|].
    apply matches_star_chr. exists x. auto.
Qed.

Lemma matches_seq_cons a rs s cs s' cs' :
  matches (Seq (a :: rs)) s cs s' cs'
  <-> exists s1 cs1, matches a s cs s1 cs1 /\ matches (Seq rs) s1 cs1 s' cs'.
Proof. reflexivity. Qed.

Lemma matches_seq_nil s cs s' cs' :
  matches (Seq []) s cs s' cs' <-> s' = s /\ cs' = cs.
Proof. reflexivity. Qed.

Lemma matches_grp a s cs s' cs' :
  matches (Grp a) s cs s' cs'
  <-> exists cs1, matches a s cs s' cs1 /\ cs' = cs1 ++ [consumed s s'].
Proof. reflexivity. Qed.

(** ** [re.findall] and [re.search] *)

Lemma findall_from_In (r : regex) (m : pystr * groups) : forall s skip,
  In m (findall_from r skip s) ->
  exists pre t rest cs,
    s = pre ++ t /\ match_at r t = Some (rest, cs) /\ m = (consumed t rest, cs).
Proof.
  induction s as [|c s IH]; intros skip H; cbn [findall_from] in H.
  - destruct skip; [|destruct H].
    destruct (match_at r []) as [[rest cs]|] eqn:E; [|destruct H].
    destruct H as [<-|[]]. exists [], [], rest, cs. auto.
  - assert (Tail : forall k, In m (findall_from r k s) ->
              exists pre t rest cs, c :: s = pre ++ t
                /\ match_at r t = Some (rest, cs) /\ m = (consumed t rest, cs)).
    { intros k Hk. apply IH in Hk as (pre & t & rest & cs & -> & Hm & ->).
      exists (c :: pre), t, rest, cs. auto. }
    destruct skip as [|k]; [|eauto].
    destruct (match_at r (c :: s)) as [[rest cs]|] eqn:E; [|eauto].
    destruct H as [<-|H]; [|eauto].
    exists [], (c :: s), rest, cs. auto.
Qed.

(** No match anywhere: [findall] is empty, and conversely. *)
Lemma findall_nil (r : regex) (s : pystr) :
  findall r s = [] <-> forall pre t, s = pre ++ t -> match_at r t = None.
Proof.
  unfold findall. split.
  - induction s as [|c s IH]; intros H pre t E; cbn [findall_from] in H.
    + symmetry in E. apply app_eq_nil in E as [-> ->].
      destruct (match_at r []) as [[]|]; [discriminate | reflexivity].
    + destruct (match_at r (c :: s)) as [[rest cs]|] eqn:M; [discriminate|].
      destruct pre as [|c' pre]; simpl in E.
      * now subst t.
      * injection E as <- E. eauto.
  - induction s as [|c s IH]; intros H; cbn [findall_from].
    + now rewrite (H [] []).
    + rewrite (H [] (c :: s)) by reflexivity. apply IH.
      intros pre t ->. now apply (H (c :: pre)).
Qed.

(** [re.search] finds the leftmost match. *)
Lemma re_search_leftmost (r : regex) (pre t rest : pystr) (cs : groups) :
  (forall p1 p2, pre = p1 ++ p2 -> p2 <> [] -> match_at r (p2 ++ t) = None) ->
  match_at r t = Some (rest, cs) ->
  re_search r (pre ++ t) = Some (consumed t rest, cs).
Proof.
  unfold re_search, findall. induction pre as [|c pre IH]; intros N M.
  - cbn [app]. destruct t as [|c t]; cbn [findall_from]; now rewrite M.
  - pose proof (N [] (c :: pre) eq_refl ltac:(discriminate)) as E.
    cbn [app] in E. cbn [app findall_from]. rewrite E.
    apply IH; [|exact M]. intros p1 p2 -> Hp. now apply (N (c :: p1)).
Qed.

Lemma re_search_In (r : regex) (s : pystr) (m : pystr * groups) :
  re_search r s = Some m -> In m (findall r s).
Proof.
  unfold re_search. destruct (findall r s) as [|x l]; [discriminate|].
  intros [= ->]. now left.
Qed.

Lemma re_search_Some (r : regex) (s : pystr) (m : pystr * groups) :
  re_search r s = Some m ->
  exists pre t rest cs,
    s = pre ++ t /\ matches r t [] rest cs /\ m = (consumed t rest, cs).
Proof.
  intros H. apply re_search_In, findall_from_In in H
    as (pre & t & rest & cs & -> & M & ->).
  exists pre, t, rest, cs. auto using match_at_sound.
Qed.

Lemma re_search_None (r : regex) (s : pystr) :
  re_search r s = None <-> forall pre t, s = pre ++ t -> match_at r t = None.
Proof.
  rewrite <- findall_nil. unfold re_search.
  destruct (findall r s); split; intros H; try reflexivity; discriminate.
Qed.

(** * Properties of the Markup Extractor *)

Lemma iter_groups (R : pystr -> groups -> pystr -> groups -> Prop) :
  (forall s cs s' cs', R s cs s' cs' -> exists ext, cs' = cs ++ ext) ->
  forall s cs s' cs', iter R s cs s' cs' -> exists ext, cs' = cs ++ ext.
Proof.
  intros HR. induction 1 as [s cs|s cs s1 cs1 s2 cs2 M1 L I [e2 E2]].
  - exists []. now rewrite app_nil_r.
  - apply HR in M1 as [e1 ->]. subst cs2. exists (e1 ++ e2). now rewrite app_assoc.
Qed.

(** Matching only adds groups. *)
Lemma matches_groups (r : regex) : forall s cs s' cs',
  matches r s cs s' cs' -> exists ext, cs' = cs ++ ext.
Proof.
  induction r as [|p|a IHa b IHb|a IHa b IHb|g a IHa|a IHa|];
    intros s cs s' cs' M; cbn [matches] in M.
  - destruct M as [_ ->]. exists []. now rewrite app_nil_r.
  - destruct M as (c & _ & _ & ->). exists []. now rewrite app_nil_r.
  - destruct M as (s1 & cs1 & M1 & M2).
    apply IHa in M1 as [e1 ->]. apply IHb in M2 as [e2 ->].
    exists (e1 ++ e2). now rewrite app_assoc.
  - destruct M as [M|M]; eauto.
  - now apply (iter_groups _ IHa) in M.
  - destruct M as (cs1 & M & ->). apply IHa in M as [e1 ->].
    exists (e1 ++ [consumed s s']). now rewrite app_assoc.
  - destruct M as (_ & -> & _). exists []. now rewrite app_nil_r.
Qed.

Ltac seq_step M s1 cs1 M1 :=
  apply matches_seq_cons in M as (s1 & cs1 & M1 & M).

(** A pattern that opens with a literal and a group of digits: the first
    group of a match is a non-empty string of digits. *)
Lemma first_group_digits (l : pystr) (rs : list regex) (t rest : pystr)
  (cs : groups) :
  matches (Seq (lits l :: Grp (Plus true (Chr isdigit)) :: rs)) t [] rest cs ->
  exists d, nth 0 cs [] = d /\ d <> [] /\ forallb isdigit d = true
            /\ exists t', t = l ++ d ++ t'.
Proof.
  intros M. seq_step M s1 cs1 M1. seq_step M s2 cs2 M2.
  apply matches_lits in M1 as [-> ->].
  apply matches_grp in M2 as (cs' & M2 & ->).
  apply matches_plus_chr in M2 as (d & Nd & -> & Dd & ->).
  rewrite consumed_app in M. apply matches_groups in M as [ext ->].
  exists d. split; [reflexivity|]. split; [exact Nd|]. split; [exact Dd|].
  now exists s2.
Qed.

Lemma item_pattern_shape :
  item_pattern
  = Seq (lits (qlit "<div class=~item r~")
         :: Star true (Not ">") :: lits (qlit "data-src=~")
         :: Grp (Plus true (Chr isdigit))
         :: [QLit "~"; Star true (Not ">"); Lit ">";
             Star false Any; QLit "<div class=~item-title text-ellipsis~>";
             Star true (Chr isspace); Lit "<span>"; Grp (Star false Any);
             Lit "</span>"]).
Proof. reflexivity. Qed.

Lemma item_first_group (t rest : pystr) (cs : groups) :
  matches item_pattern t [] rest cs ->
  nth 0 cs [] <> [] /\ forallb isdigit (nth 0 cs []) = true.
Proof.
  rewrite item_pattern_shape. intros M.
  seq_step M s1 cs1 M1. seq_step M s2 cs2 M2.
  apply matches_lits in M1 as [-> ->].
  apply matches_star_chr in M2 as (x & -> & _ & ->).
  apply first_group_digits in M as (d & -> & Nd & Dd & _). auto.
Qed.

Lemma id_first_group (t rest : pystr) (cs : groups) :
  matches id_pattern t [] rest cs ->
  nth 0 cs [] <> [] /\ forallb isdigit (nth 0 cs []) = true.
Proof.
  intros M.
  apply (first_group_digits (qlit "<a href=~/sb/sound/")) in M
    as (d & -> & Nd & Dd & _). auto.
Qed.

Lemma findall_groups (r : regex) (s : pystr) (m : pystr * groups) :
  In m (findall r s) ->
  exists t rest, matches r t [] rest (snd m).
Proof.
  intros H. apply findall_from_In in H as (pre & t & rest & cs & _ & M & ->).
  exists t, rest. now apply match_at_sound.
Qed.

(** X1 — the sound ids the extractor yields are non-empty strings of
    decimal digits, and the fallback yields empty titles. *)
Theorem parse_sound_items_ids :
  forall (html_content sound_id page_title : pystr),
    In (sound_id, page_title) (_parse_sound_items html_content) ->
    sound_id <> [] /\ forallb isdigit sound_id = true
    /\ (findall item_pattern html_content = [] -> page_title = []).
Proof.
  intros html sid title H. unfold _parse_sound_items in H.
  destruct (bool_decide (findall item_pattern html = [])) eqn:B; cbn [negb] in H.
  - apply bool_decide_eq_true in B.
    apply in_map_iff in H as (m & [= <- <-] & Hm).
    apply findall_groups in Hm as (t & rest & M).
    apply id_first_group in M as [N D]. unfold group. auto.
  - apply bool_decide_eq_false in B.
    apply in_map_iff in H as (m & [= <- <-] & Hm).
    apply findall_groups in Hm as (t & rest & M).
    apply item_first_group in M as [N D]. unfold group.
    split; [exact N|]. split; [exact D|]. intros E. contradiction.
Qed.

Lemma parse_sound_items_ids_witness :
  In (lit "17", lit "Hi") (_parse_sound_items one_item_page)
  /\ lit "17" <> [] /\ forallb isdigit (lit "17") = true
  /\ (findall item_pattern one_item_page = [] -> lit "Hi" = []).
Proof.
  assert (H : In (lit "17", lit "Hi") (_parse_sound_items one_item_page))
    by (vm_compute; left; reflexivity).
  split; [exact H|].
  exact (parse_sound_items_ids one_item_page (lit "17") (lit "Hi") H).
Defined.

(** Where the fallback pattern matches, the pattern of the capability
    check matches. *)
Lemma id_matches_download (t rest : pystr) (cs : groups) :
  matches id_pattern t [] rest cs ->
  exists rest' cs', matches download_pattern t [] rest' cs'.
Proof.
  unfold id_pattern. intros M.
  seq_step M s1 cs1 M1. seq_step M s2 cs2 M2. seq_step M s3 cs3 M3.
  seq_step M s4 cs4 M4. seq_step M s5 cs5 M5.
  apply matches_seq_nil in M as [-> ->].
  rewrite QLit_lits in M1, M3, M5.
  apply matches_lits in M1 as [-> ->].
  apply matches_grp in M2 as (cs' & M2 & ->).
  apply matches_plus_chr in M2 as (d & Nd & -> & Dd & ->).
  apply matches_lits in M3 as [-> ->].
  apply matches_star_chr in M4 as (x & -> & Px & ->).
  apply matches_lits in M5 as [-> ->].
  exists (dquote :: s5), [].
  unfold download_pattern.
  apply matches_seq_cons. eexists _, _. split.
  { rewrite QLit_lits. apply matches_lits. split; reflexivity. }
  apply matches_seq_cons. eexists _, _. split.
  { apply matches_plus_chr. exists d. split_and!; try done. }
  apply matches_seq_cons. eexists _, _. split.
  { rewrite QLit_lits. apply matches_lits. split; reflexivity. }
  apply matches_seq_cons. eexists _, _. split.
  { apply matches_star_chr. exists x. split_and!; try done. }
  apply matches_seq_cons. eexists (lit "btn-download-track" ++ dquote :: s5), _. split.
  { rewrite QLit_lits. apply matches_lits. split; reflexivity. }
  apply matches_seq_cons. eexists _, _. split.
  { apply matches_star_chr. exists []. split_and!; try done. }
  apply matches_seq_cons. eexists _, _. split.
  { rewrite Lit_lits. apply matches_lits. split; reflexivity. }
  apply matches_seq_nil. split; reflexivity.
Qed.

(** X2 — sounds found by the fallback pattern come with download buttons:
    when the item pattern finds nothing and the extractor still yields
    sounds, the capability check reports downloads. *)
Theorem fallback_items_have_buttons :
  forall (html_content : pystr),
    findall item_pattern html_content = [] ->
    _parse_sound_items html_content <> [] ->
    fst (_check_downloads_enabled html_content) = true
    /\ (1 <= snd (_check_downloads_enabled html_content))%nat.
Proof.
  intros html E N. unfold _parse_sound_items in N. rewrite E in N.
  rewrite bool_decide_eq_true_2 in N by reflexivity. cbn [negb] in N.
  destruct (findall id_pattern html) as [|m ms] eqn:F; [contradiction|].
  assert (Hm : In m (findall id_pattern html)) by (rewrite F; now left).
  apply findall_from_In in Hm as (pre & t & rest & cs & -> & M & _).
  apply match_at_sound, id_matches_download in M as (rest' & cs' & M).
  apply match_at_complete in M.
  unfold _check_downloads_enabled. cbn [fst snd].
  destruct (findall download_pattern (pre ++ t)) as [|b bs] eqn:D.
  - exfalso. apply M. now apply (proj1 (findall_nil _ _) D pre t).
  - simpl. split; [reflexivity | lia].
Qed.

Lemma fallback_items_have_buttons_witness :
  findall item_pattern button_only_page = []
  /\ _parse_sound_items button_only_page = [(lit "7", [])]
  /\ fst (_check_downloads_enabled button_only_page) = true
  /\ (1 <= snd (_check_downloads_enabled button_only_page))%nat.
Proof.
  assert (E : findall item_pattern button_only_page = [])
    by (vm_compute; reflexivity).
  assert (P : _parse_sound_items button_only_page = [(lit "7", [])])
    by (vm_compute; reflexivity).
  split; [exact E|]. split; [exact P|].
  apply (fallback_items_have_buttons button_only_page E).
  rewrite P. discriminate.
Defined.

(** * Properties of the header filename *)

Lemma first_group_class (l : pystr) (p : ascii -> bool) (rs : list regex)
  (t rest : pystr) (cs : groups) :
  matches (Seq (lits l :: Grp (Plus true (Chr p)) :: rs)) t [] rest cs ->
  exists d t', nth 0 cs [] = d /\ d <> [] /\ forallb p d = true
               /\ t = l ++ d ++ t'.
Proof.
  intros M. seq_step M s1 cs1 M1. seq_step M s2 cs2 M2.
  apply matches_lits in M1 as [-> ->].
  apply matches_grp in M2 as (cs' & M2 & ->).
  apply matches_plus_chr in M2 as (d & Nd & -> & Dd & ->).
  rewrite consumed_app in M. apply matches_groups in M as [ext ->].
  exists d, s2. auto.
Qed.

Lemma split_first (c : ascii) (a b a' b' : pystr) :
  ~ In c a -> ~ In c a' -> a ++ c :: b = a' ++ c :: b' -> a = a' /\ b = b'.
Proof.
  revert a'. induction a as [|x a IH]; intros [|x' a'] Ha Ha' E; simpl in E.
  - injection E as ->. auto.
  - injection E as <- _. exfalso. apply Ha'. now left.
  - injection E as -> _. exfalso. apply Ha. now left.
  - injection E as <- E. apply IH in E as [-> ->]; auto.
    + intros H. apply Ha. now right.
    + intros H. apply Ha'. now right.
Qed.

Lemma search_group (l : pystr) (p : ascii -> bool) (rs : list regex)
  (s : pystr) (m : pystr * groups) :
  re_search (Seq (lits l :: Grp (Plus true (Chr p)) :: rs)) s = Some m ->
  group 0 m <> [] /\ forallb p (group 0 m) = true
  /\ exists pre post, s = pre ++ l ++ group 0 m ++ post.
Proof.
  intros H. apply re_search_Some in H as (pre & t & rest & cs & -> & M & ->).
  apply first_group_class in M as (d & t' & <- & Nd & Pd & ->).
  unfold group. cbn [snd]. split; [exact Nd|]. split; [exact Pd|].
  now exists pre, t'.
Qed.

Lemma extract_filename_unfold (headers : gmap pystr pystr) :
  _extract_filename_from_headers headers
  = let content_disp := default [] (headers !! lit "content-disposition") in
    match re_search (nth 0 filename_patterns Eps) content_disp with
    | Some m => Some (group 0 m)
    | None =>
        match re_search (nth 1 filename_patterns Eps) content_disp with
        | Some m => Some (group 0 m)
        | None =>
            match re_search (nth 2 filename_patterns Eps) content_disp with
            | Some m => Some (group 0 m)
            | None => None
            end
        end
    end.
Proof. reflexivity. Qed.

(** X3 — a filename taken from the headers is never empty and stands in
    the [content-disposition] header right after [filename=], or after
    [filename=] and an opening quote; without the header there is
    none. *)
Theorem extract_filename_sound :
  forall (headers : gmap pystr pystr) (x : pystr),
    _extract_filename_from_headers headers = Some x ->
    x <> []
    /\ exists content_disp pre q post,
         headers !! lit "content-disposition" = Some content_disp
         /\ content_disp = pre ++ lit "filename=" ++ q ++ x ++ post
         /\ In q [[]; [dquote]; lit "'"].
Proof.
  intros headers x. rewrite extract_filename_unfold. cbv zeta.
  set (cd := default [] (headers !! lit "content-disposition")).
  assert (Found : forall (q : pystr) p rs m,
            In q [[]; [dquote]; lit "'"] ->
            re_search (Seq (lits (lit "filename=" ++ q)
                            :: Grp (Plus true (Chr p)) :: rs)) cd = Some m ->
            group 0 m <> []
            /\ exists content_disp pre q post,
                 headers !! lit "content-disposition" = Some content_disp
                 /\ content_disp = pre ++ lit "filename=" ++ q ++ group 0 m ++ post
                 /\ In q [[]; [dquote]; lit "'"]).
  { intros q p rs m Hq H. apply search_group in H as (N & _ & pre & post & E).
    split; [exact N|]. exists cd, pre, q, post. rewrite <- app_assoc in E.
    split; [|auto]. unfold cd in *.
    destruct (headers !! lit "content-disposition") as [v|]; [reflexivity|].
    simpl in E. destruct pre; discriminate. }
  destruct (re_search (nth 0 filename_patterns Eps) cd) as [m|] eqn:S1.
  { intros [= <-]. apply (Found [dquote] _ _ m) in S1; [exact S1|].
    right; left; reflexivity. }
  destruct (re_search (nth 1 filename_patterns Eps) cd) as [m|] eqn:S2.
  { intros [= <-]. apply (Found (lit "'") _ _ m) in S2; [exact S2|].
    right; right; left; reflexivity. }
  destruct (re_search (nth 2 filename_patterns Eps) cd) as [m|] eqn:S3.
  { intros [= <-]. apply (Found [] _ _ m) in S3; [exact S3|].
    left; reflexivity. }
  discriminate.
Qed.

Lemma extract_filename_sound_witness :
  _extract_filename_from_headers attachment_headers = Some (lit "laser blast.mp3")
  /\ lit "laser blast.mp3" <> []
  /\ exists content_disp pre q post,
       attachment_headers !! lit "content-disposition" = Some content_disp
       /\ content_disp = pre ++ lit "filename=" ++ q ++ lit "laser blast.mp3" ++ post
       /\ In q [[]; [dquote]; lit "'"].
Proof.
  assert (H : _extract_filename_from_headers attachment_headers
              = Some (lit "laser blast.mp3")) by (vm_compute; reflexivity).
  split; [exact H|].
  exact (extract_filename_sound attachment_headers (lit "laser blast.mp3") H).
Defined.

(** ** The matcher run on a literal and on a run of a class *)

Lemma rmatch_lits (l : pystr) : forall s cs k,
  rmatch (lits l) (l ++ s) cs k = k s cs.
Proof.
  induction l as [|c l IH]; intros s cs k; [reflexivity|].
  cbn [lits fold_right app]. rewrite rmatch_cat, rmatch_chr, Ascii.eqb_refl.
  apply IH.
Qed.

(** A greedy star takes the whole run when what follows then matches. *)
Lemma star_greedy_run (p : ascii -> bool) (k : cont) (post : pystr)
  (cs : groups) :
  match post with [] => True | d :: _ => p d = false end ->
  k post cs <> None ->
  forall x fuel, forallb p x = true -> (List.length (x ++ post) <= fuel)%nat ->
    star_iter (rmatch (Chr p)) true k fuel (x ++ post) cs = k post cs.
Proof.
  intros Stop K. induction x as [|c x IH]; intros fuel Px F.
  - now apply star_iter_chr_stop.
  - simpl in Px. apply andb_prop in Px as [Pc Px].
    destruct fuel as [|fuel]; [simpl in F; lia|].
    cbn [star_iter app]. rewrite rmatch_chr, Pc.
    replace (List.length (x ++ post) <? List.length (c :: x ++ post))%nat
      with true by (symmetry; apply Nat.ltb_lt; simpl; lia).
    rewrite IH by (auto; simpl in F; lia).
    destruct (k post cs); [reflexivity | contradiction].
Qed.

Lemma plus_greedy_run (p : ascii -> bool) (k : cont) (x post : pystr)
  (cs : groups) :
  x <> [] -> forallb p x = true ->
  match post with [] => True | d :: _ => p d = false end ->
  k post cs <> None ->
  rmatch (Plus true (Chr p)) (x ++ post) cs k = k post cs.
Proof.
  intros N Px Stop K. destruct x as [|c x]; [contradiction|].
  simpl in Px. apply andb_prop in Px as [Pc Px].
  unfold Plus. cbn [app]. rewrite rmatch_cat, rmatch_chr, Pc, rmatch_star.
  now apply star_greedy_run.
Qed.

Lemma not_in_forallb (c : ascii) (x : pystr) :
  ~ In c x -> forallb (fun y => negb (Ascii.eqb y c)) x = true.
Proof.
  intros H. apply forallb_forall. intros y Hy.
  destruct (Ascii.eqb y c) eqn:E; [|reflexivity].
  apply Ascii.eqb_eq in E. subst y. contradiction.
Qed.

(** X4 — a quoted filename is recovered: from a header that holds
    [filename=], a double quote, a name without double quote and the
    closing quote, and has no double quote before, the name is
    extracted as it stands. *)
Theorem extract_quoted_filename :
  forall (headers : gmap pystr pystr) (pre x post : pystr),
    headers !! lit "content-disposition"
      = Some (pre ++ lit "filename=" ++ [dquote] ++ x ++ [dquote] ++ post) ->
    ~ In dquote pre -> x <> [] -> ~ In dquote x ->
    _extract_filename_from_headers headers = Some x.
Proof.
  intros headers pre x post Hh Hpre Nx Hx.
  rewrite extract_filename_unfold, Hh. cbv zeta. cbn [default from_option id].
  set (t := lit "filename=" ++ [dquote] ++ x ++ [dquote] ++ post).
  assert (S : re_search (nth 0 filename_patterns Eps) (pre ++ t)
              = Some (consumed t post, [x])).
  { apply re_search_leftmost.
    - intros p1 p2 -> Np.
      destruct (match_at (nth 0 filename_patterns Eps) (p2 ++ t))
        as [[rest cs]|] eqn:M; [|reflexivity].
      exfalso. apply match_at_sound in M.
      apply (first_group_class (qlit "filename=~")) in M
        as (d & t' & _ & _ & _ & E).
      unfold t in E.
      change (qlit "filename=~" ++ d ++ t')
        with (lit "filename=" ++ dquote :: (d ++ t')) in E.
      change (p2 ++ lit "filename=" ++ [dquote] ++ x ++ [dquote] ++ post)
        with (p2 ++ lit "filename=" ++ dquote :: (x ++ [dquote] ++ post)) in E.
      rewrite app_assoc in E. apply split_first in E as [E _].
      + apply (f_equal (@List.length ascii)) in E. rewrite length_app in E.
        destruct p2; [contradiction | simpl in E; lia].
      + intros H. apply in_app_or in H as [H|H].
        * apply Hpre. apply in_or_app. now right.
        * vm_compute in H. intuition discriminate.
      + vm_compute. intuition discriminate.
    - unfold match_at, t.
      change (nth 0 filename_patterns Eps)
        with (Cat (lits (lit "filename=" ++ [dquote]))
                (Cat (Grp (Plus true not_dquote)) (Cat (lits [dquote]) Eps))).
      rewrite rmatch_cat.
      replace (lit "filename=" ++ [dquote] ++ x ++ [dquote] ++ post)
        with ((lit "filename=" ++ [dquote]) ++ x ++ dquote :: post)
        by now rewrite <- app_assoc.
      rewrite rmatch_lits, rmatch_cat. cbn [rmatch]. fold (rmatch (Plus true not_dquote)).
      unfold not_dquote.
      assert (R : forall cs k, rmatch (lits [dquote]) (dquote :: post) cs k = k post cs)
        by (intros cs k; apply (rmatch_lits [dquote] post)).
      rewrite plus_greedy_run.
      + rewrite R, consumed_app. reflexivity.
      + exact Nx.
      + now apply not_in_forallb.
      + reflexivity.
      + rewrite R. discriminate. }
  rewrite S. reflexivity.
Qed.

Lemma extract_quoted_filename_witness :
  attachment_headers !! lit "content-disposition"
    = Some (lit "attachment; " ++ lit "filename=" ++ [dquote]
            ++ lit "laser blast.mp3" ++ [dquote] ++ [])
  /\ _extract_filename_from_headers attachment_headers = Some (lit "laser blast.mp3").
Proof.
  assert (H : attachment_headers !! lit "content-disposition"
              = Some (lit "attachment; " ++ lit "filename=" ++ [dquote]
                      ++ lit "laser blast.mp3" ++ [dquote] ++ []))
    by (vm_compute; reflexivity).
  split; [exact H|].
  apply (extract_quoted_filename attachment_headers (lit "attachment; ")
           (lit "laser blast.mp3") [] H).
  - vm_compute. intuition discriminate.
  - discriminate.
  - vm_compute. intuition discriminate.
Defined.

(** * The names of the files of extracted sounds *)

Lemma digit_clean (c : ascii) : isdigit c = true -> clean c = true.
Proof. by_cases c. Qed.

Lemma digits_clean (s : pystr) :
  forallb isdigit s = true -> forallb clean s = true.
Proof.
  rewrite !forallb_forall. intros H c Hc. apply digit_clean. auto.
Qed.

Lemma sanitize_safe_clean_id unescape raw sound_id page_title :
  forallb clean sound_id = true ->
  _sanitize_filename unescape raw sound_id page_title <> []
  /\ forallb clean (_sanitize_filename unescape raw sound_id page_title) = true
  /\ (upper (stem (_sanitize_filename unescape raw sound_id page_title))
      ∉ WINDOWS_RESERVED_NAMES).
Proof.
  intros Cid. rewrite sanitize_filename_stages.
  set (X := cleaned_name unescape raw sound_id page_title).
  destruct (finish_cases sound_id X (sanitize_chars_clean _))
    as [->|(N & C & S & _)]; [|auto].
  split; [discriminate|]. split.
  - unfold fallback_name. rewrite !forallb_app, Cid. reflexivity.
  - unfold stem. rewrite fallback_name_split by assumption. cbn [fst].
    intros H. apply reserved_shape in H as (L & _).
    rewrite upper_length, length_app in L. simpl in L. lia.
Qed.

(** X5 — every sound the extractor finds on a page gets a safe file name:
    whatever the server answers for it, the name [_snag_sound] computes
    is not empty, holds none of the reserved and control characters, and
    its stem is no reserved device name. *)
Theorem extracted_sounds_get_safe_names :
  forall (unescape : pystr -> pystr) (html_content sound_id page_title : pystr)
         (resp : response),
    In (sound_id, page_title) (_parse_sound_items html_content) ->
    final_filename_of unescape sound_id page_title resp <> []
    /\ (forall c, In c (final_filename_of unescape sound_id page_title resp) ->
                  invalid_char c = false /\ control_char c = false)
    /\ (upper (stem (final_filename_of unescape sound_id page_title resp))
        ∉ WINDOWS_RESERVED_NAMES).
Proof.
  intros unescape html sid title resp H.
  assert (D : forallb isdigit sid = true).
  { unfold _parse_sound_items in H.
    destruct (negb (bool_decide (findall item_pattern html = [])));
      apply in_map_iff in H as (m & [= <- <-] & Hm);
      apply findall_groups in Hm as (t & rest & M).
    - now apply item_first_group in M as [_ D].
    - now apply id_first_group in M as [_ D]. }
  unfold final_filename_of.
  match goal with
  | |- context [_sanitize_filename unescape ?raw sid title] =>
      destruct (sanitize_safe_clean_id unescape raw sid title (digits_clean _ D))
        as (N & C & S)
  end.
  split; [exact N|]. split; [|exact S].
  intros c Hc. rewrite forallb_forall in C. specialize (C c Hc).
  unfold clean in C. apply andb_prop in C as [A B].
  apply negb_true_iff in A, B. split; assumption.
Qed.

Lemma extracted_sounds_get_safe_names_witness :
  let resp := {| getcode := 200; headers := ∅; chunks := [] |} in
  In (lit "7", []) (_parse_sound_items button_only_page)
  /\ final_filename_of html_unescape (lit "7") [] resp = lit "Audio 7.mp3"
  /\ (upper (stem (final_filename_of html_unescape (lit "7") [] resp))
      ∉ WINDOWS_RESERVED_NAMES).
Proof.
  intros resp.
  assert (H : In (lit "7", []) (_parse_sound_items button_only_page))
    by (vm_compute; left; reflexivity).
  split; [exact H|]. split; [vm_compute; reflexivity|].
  exact (proj2 (proj2 (extracted_sounds_get_safe_names html_unescape
                         button_only_page (lit "7") [] resp H))).
Defined.

(** * Underscores in file names *)

Lemma iter_group_chars (R : pystr -> groups -> pystr -> groups -> Prop) :
  (forall s cs s' cs', R s cs s' cs' -> exists g, s = g ++ s') ->
  (forall s cs s' cs', R s cs s' cs' ->
     forall g, In g cs' -> In g cs \/ forall c, In c g -> In c s) ->
  forall s cs s' cs', iter R s cs s' cs' ->
    forall g, In g cs' -> In g cs \/ forall c, In c g -> In c s.
Proof.
  intros Suf HR. induction 1 as [s cs|s cs s1 cs1 s2 cs2 M1 L I IH]; intros g Hg.
  - now left.
  - destruct (IH g Hg) as [H|H].
    + apply (HR _ _ _ _ M1) in H as [H|H]; auto.
    + right. intros c Hc. apply Suf in M1 as [x ->]. apply in_or_app. auto.
Qed.

(** The text of a group is made of characters of the subject. *)
Lemma matches_group_chars (r : regex) : forall s cs s' cs',
  matches r s cs s' cs' ->
  forall g, In g cs' -> In g cs \/ forall c, In c g -> In c s.
Proof.
  induction r as [|p|a IHa b IHb|a IHa b IHb|gr a IHa|a IHa|];
    intros s cs s' cs' M g Hg; cbn [matches] in M.
  - destruct M as [_ ->]. now left.
  - destruct M as (c & _ & _ & ->). now left.
  - destruct M as (s1 & cs1 & M1 & M2).
    destruct (IHb _ _ _ _ M2 g Hg) as [H|H].
    + eapply IHa; eassumption.
    + right. intros c Hc. apply matches_suffix in M1 as [x ->].
      apply in_or_app. auto.
  - destruct M as [M|M]; eauto.
  - eapply (iter_group_chars _ (matches_suffix a) IHa); eassumption.
  - destruct M as (cs1 & M & ->). apply in_app_or in Hg as [Hg|[<-|[]]].
    + eapply IHa; eassumption.
    + right. intros c Hc. unfold consumed in Hc.
      rewrite <- (firstn_skipn (List.length s - List.length s') s).
      apply in_or_app. now left.
  - destruct M as (_ & -> & _). now left.
Qed.

Section Characters.

(** A class of characters. *)
Variable P : ascii -> bool.

Lemma replace_from_forallb (old new : pystr) :
  forallb P new = true ->
  forall s skip, forallb P s = true ->
    forallb P (replace_from old new skip s) = true.
Proof.
  intros Pn. induction s as [|c s IH]; intros skip Ps; [reflexivity|].
  simpl in Ps. apply andb_prop in Ps as [Pc Ps]. cbn [replace_from].
  destruct skip as [|k]; [|now apply IH].
  destruct (startswith old (c :: s)).
  - rewrite forallb_app, Pn. now apply IH.
  - cbn [forallb]. rewrite Pc. now apply IH.
Qed.

Lemma sub_from_forallb (r : regex) (repl : groups -> pystr) :
  (forall t rest cs, forallb P t = true -> match_at r t = Some (rest, cs) ->
     forallb P (repl cs) = true) ->
  forall s skip, forallb P s = true ->
    forallb P (sub_from r repl skip s) = true.
Proof.
  intros Pr. induction s as [|c s IH]; intros skip Ps.
  - cbn [sub_from]. destruct skip; [|reflexivity].
    destruct (match_at r []) as [[rest cs]|] eqn:M; [|reflexivity].
    eapply Pr; [|exact M]. reflexivity.
  - pose proof Ps as Ps'. simpl in Ps. apply andb_prop in Ps as [Pc Ps].
    cbn [sub_from]. destruct skip as [|k]; [|now apply IH].
    destruct (match_at r (c :: s)) as [[rest cs]|] eqn:M.
    + destruct (List.length (c :: s) - List.length rest)%nat;
        rewrite forallb_app, (Pr _ _ _ Ps' M); [|now apply IH].
      cbn [forallb andb]. rewrite Pc. now apply IH.
    + cbn [forallb]. rewrite Pc. now apply IH.
Qed.

Hypothesis P_space : P " " = true.
Hypothesis P_hyphen : P "-" = true.
Hypothesis P_upper : forall c, P c = true -> P (toupper c) = true.
Hypothesis P_lower : forall c, P c = true -> P (tolower c) = true.

Lemma normalize_spacing_forallb (s : pystr) :
  forallb P s = true -> forallb P (normalize_spacing s) = true.
Proof using P_space P_hyphen.
  intros Ps. unfold normalize_spacing, strip, re_sub, replace.
  assert (S1 : forallb P (replace_from (lit "--") (lit "-") 0 s) = true).
  { apply replace_from_forallb; [|exact Ps]. simpl. now rewrite P_hyphen. }
  assert (S2 : forallb P (sub_from spaces_pattern (fun _ => lit " ") 0
                            (replace_from (lit "--") (lit "-") 0 s)) = true).
  { apply sub_from_forallb; [|exact S1]. intros. simpl. now rewrite P_space. }
  assert (S3 : forallb P (sub_from hyphen_pattern (fun _ => lit " - ") 0
                 (sub_from spaces_pattern (fun _ => lit " ") 0
                    (replace_from (lit "--") (lit "-") 0 s))) = true).
  { apply sub_from_forallb; [|exact S2]. intros. simpl.
    now rewrite P_space, P_hyphen. }
  assert (S4 : forallb P (sub_from space_before_ext_pattern (fun cs => hd [] cs) 0
                 (sub_from hyphen_pattern (fun _ => lit " - ") 0
                    (sub_from spaces_pattern (fun _ => lit " ") 0
                       (replace_from (lit "--") (lit "-") 0 s)))) = true).
  { apply sub_from_forallb; [|exact S3]. intros t rest cs Pt M.
    apply match_at_sound in M. destruct cs as [|g cs]; [reflexivity|].
    destruct (matches_group_chars _ _ _ _ _ M g (or_introl eq_refl)) as [[]|H].
    cbn [hd]. apply forallb_forall. intros c Hc.
    rewrite forallb_forall in Pt. auto. }
  apply forallb_forall. intros c Hc. apply rstrip_incl, lstrip_incl in Hc.
  rewrite forallb_forall in S4. auto.
Qed.

Lemma sanitize_chars_forallb (s : pystr) :
  forallb P s = true -> forallb P (sanitize_chars s) = true.
Proof using P_hyphen.
  intros Ps. unfold sanitize_chars, re_sub.
  apply sub_from_forallb; [reflexivity|].
  apply sub_from_forallb; [|exact Ps]. intros. simpl. now rewrite P_hyphen.
Qed.

Lemma title_from_forallb (s : pystr) : forall b,
  forallb P s = true -> forallb P (title_from b s) = true.
Proof using P_upper P_lower.
  induction s as [|c s IH]; intros b Ps; [reflexivity|].
  simpl in Ps. apply andb_prop in Ps as [Pc Ps]. cbn [title_from forallb].
  rewrite IH by exact Ps. destruct b; [rewrite P_lower | rewrite P_upper]; auto.
Qed.

Lemma title_if_uniform_forallb (s : pystr) :
  forallb P s = true -> forallb P (title_if_uniform s) = true.
Proof using P_upper P_lower.
  intros Ps. unfold title_if_uniform. destruct (_ && _); [|exact Ps].
  now apply title_from_forallb.
Qed.

Lemma splitext_parts (p : pystr) : fst (splitext p) ++ snd (splitext p) = p.
Proof.
  unfold splitext, _splitext. destruct (_ && _); cbn [fst snd].
  - apply firstn_skipn.
  - apply app_nil_r.
Qed.

(** The name as it is rebuilt from the split, before the guard of the
    reserved names. *)
Lemma rebuilt_forallb (s : pystr) :
  forallb P s = true ->
  forallb P (title_if_uniform (rstrip (one_of ". ") (fst (splitext s)))
             ++ snd (splitext s)) = true.
Proof using P_upper P_lower.
  intros Ps. rewrite <- (splitext_parts s), forallb_app in Ps.
  apply andb_prop in Ps as [Pn Pe]. rewrite forallb_app, Pe, andb_true_r.
  apply title_if_uniform_forallb.
  destruct (rstrip_prefix (one_of ". ") (fst (splitext s))) as (t & E & _).
  rewrite E in Pn. now apply forallb_app_l in Pn.
Qed.

End Characters.

Lemma not_underscore_upper c :
  negb (Ascii.eqb c "_") = true -> negb (Ascii.eqb (toupper c) "_") = true.
Proof. by_cases c. Qed.

Lemma not_underscore_lower c :
  negb (Ascii.eqb c "_") = true -> negb (Ascii.eqb (tolower c) "_") = true.
Proof. by_cases c. Qed.

Lemma forallb_not_in (a : ascii) (s : pystr) :
  forallb (fun c => negb (Ascii.eqb c a)) s = true <-> ~ In a s.
Proof.
  split.
  - intros H Hin. rewrite forallb_forall in H. specialize (H a Hin).
    now rewrite Ascii.eqb_refl in H.
  - apply not_in_forallb.
Qed.

(** X6 — the underscores of a name do not survive: apart from the
    fallback name, an underscore stands in the final filename only as
    its first character, put there in front of a reserved device
    name. *)
Theorem sanitize_filename_underscores :
  forall (unescape : pystr -> pystr) (raw sound_id page_title : pystr),
    _sanitize_filename unescape raw sound_id page_title
    = lit "audio_" ++ sound_id ++ lit ".mp3"
    \/ ~ In "_"%char (_sanitize_filename unescape raw sound_id page_title)
    \/ exists y ext,
         _sanitize_filename unescape raw sound_id page_title
         = lit "_" ++ y ++ ext
         /\ upper y ∈ WINDOWS_RESERVED_NAMES
         /\ ~ In "_"%char (y ++ ext).
Proof.
  intros unescape raw sound_id page_title.
  rewrite sanitize_filename_stages. unfold finish, cleaned_name.
  set (s0 := with_fallback _ sound_id page_title).
  set (P := fun c => negb (Ascii.eqb c "_")).
  assert (A : forallb P (replace (lit "_") (lit " ") s0) = true).
  { change (lit "_") with ["_"%char]. change (lit " ") with [" "%char].
    rewrite replace_char. apply forallb_forall. intros c Hc.
    apply in_map_iff in Hc as (x & <- & _). unfold P.
    destruct (Ascii.eqb "_" x) eqn:E; [reflexivity|].
    now rewrite Ascii.eqb_sym, E. }
  apply (normalize_spacing_forallb P eq_refl eq_refl) in A.
  apply (sanitize_chars_forallb P eq_refl) in A.
  apply (rebuilt_forallb P not_underscore_upper not_underscore_lower) in A.
  set (X := sanitize_chars _) in *.
  destruct (_ || _); [left; reflexivity|]. right.
  unfold rebuilt_stem, guard_reserved.
  set (y := title_if_uniform _) in *.
  destruct (bool_decide (upper y ∈ WINDOWS_RESERVED_NAMES)) eqn:B.
  - right. exists y, (snd (splitext X)). apply bool_decide_eq_true in B.
    split; [now rewrite <- app_assoc|]. split; [exact B|].
    now apply forallb_not_in.
  - left. now apply forallb_not_in.
Qed.

(** * Further properties of the Board Fetcher *)

Lemma keeps_entries_refl n : keeps_entries n n.
Proof. intros name e H. exact H. Qed.

Lemma keeps_entries_trans n1 n2 n3 :
  keeps_entries n1 n2 -> keeps_entries n2 n3 -> keeps_entries n1 n3.
Proof. intros A B name e H. auto. Qed.

Lemma same_but_refl f n : same_but f n n.
Proof. intros name _. reflexivity. Qed.

Lemma same_but_trans f n1 n2 n3 :
  same_but f n1 n2 -> same_but f n2 n3 -> same_but f n1 n3.
Proof. intros A B name H. rewrite B, A by assumption. reflexivity. Qed.

Lemma same_but_insert f es e : same_but f (Directory es) (Directory (<[f := e]> es)).
Proof. intros name H. simpl. now rewrite lookup_insert_ne by congruence. Qed.

Lemma open_wb_entries f w r w' :
  open_wb f w = (r, w') ->
  same_but f (output_dir w) (output_dir w')
  /\ (r = Return tt -> entry_at (output_dir w) f <> Some Subdirectory)
  /\ (forall e, r = Raise e -> output_dir w' = output_dir w).
Proof.
  intros H. apply fs_call_inv in H as (_ & _ & [(e & _ & -> & D) | (_ & R)]).
  - rewrite D. split; [apply same_but_refl|]. split; [discriminate | auto].
  - destruct (output_dir w) as [| |es] eqn:N; simpl in R.
    + injection R as <- <-. split; [apply same_but_refl|]. split; [discriminate | auto].
    + injection R as <- <-. split; [apply same_but_refl|]. split; [discriminate | auto].
    + destruct (es !! f) as [[data|]|] eqn:Lk; injection R as <- <-.
      * split; [apply same_but_insert|]. split; [simpl; congruence|discriminate].
      * split; [apply same_but_refl|]. split; [discriminate | auto].
      * split; [apply same_but_insert|]. split; [simpl; congruence|discriminate].
Qed.

Lemma file_write_entries f chunk w r w' :
  file_write f chunk w = (r, w') -> same_but f (output_dir w) (output_dir w').
Proof.
  intros H. apply fs_call_inv in H as (_ & _ & [(e & _ & -> & D) | (_ & R)]).
  - rewrite D. apply same_but_refl.
  - destruct (output_dir w) as [| |es] eqn:N; simpl in R.
    + injection R as <- <-. apply same_but_refl.
    + injection R as <- <-. apply same_but_refl.
    + destruct (es !! f) as [[data|]|] eqn:Lk; injection R as <- <-;
        try apply same_but_refl. apply same_but_insert.
Qed.

Lemma write_chunks_entries url f fuel : forall left w r w',
  write_chunks url f fuel left w = (r, w') ->
  same_but f (output_dir w) (output_dir w').
Proof.
  induction fuel as [|fuel IH]; intros left w r w'; simpl.
  - intros [= <- <-]. apply same_but_refl.
  - unfold bind at 1.
    destruct (read_chunk url left w) as [[[chunk left']|e] w1] eqn:R;
      apply read_chunk_inv in R as (_ & D1 & _).
    + destruct (bool_decide (chunk = [])).
      * intros [= <- <-]. rewrite D1. apply same_but_refl.
      * unfold bind.
        destruct (file_write f chunk w1) as [[[]|e] w2] eqn:W;
          apply file_write_entries in W.
        -- intros H. apply IH in H. rewrite <- D1.
           eapply same_but_trans; eassumption.
        -- intros [= <- <-]. now rewrite <- D1.
    + intros [= <- <-]. rewrite D1. apply same_but_refl.
Qed.

Lemma same_but_keeps f n n' :
  entry_at n f = None -> same_but f n n' -> keeps_entries n n'.
Proof.
  intros E S name e H. destruct (decide (name = f)) as [->|Hne].
  - congruence.
  - now rewrite S.
Qed.

Lemma snag_sound_entries unescape self sid title w r w' :
  _snag_sound unescape self sid title w = (r, w') ->
  keeps_entries (output_dir w) (output_dir w').
Proof.
  unfold _snag_sound, snag_sound_try, try_except, bind at 1, do_urlopen.
  set (url := base_url self ++ lit "/track/download/" ++ sid).
  set (w1 := record (Requested url) w).
  assert (D1 : output_dir w1 = output_dir w) by reflexivity.
  destruct (urlopen w url) as [resp|e] eqn:U.
  2:{ intros [= <- <-]. rewrite D1. apply keeps_entries_refl. }
  destruct (getcode resp =? 200) eqn:G; cbn [negb].
  2:{ intros [= <- <-]. rewrite D1. apply keeps_entries_refl. }
  set (f := final_filename_of unescape sid title resp).
  unfold bind at 1, path_isfile. rewrite D1.
  destruct (is_file (output_dir w) f) eqn:NF.
  { intros [= <- <-]. rewrite D1. apply keeps_entries_refl. }
  unfold bind at 1.
  destruct (open_wb f w1) as [[[]|e] w2] eqn:O;
    apply open_wb_entries in O as (S2 & Ok & Fail); rewrite D1 in *.
  2:{ intros [= <- <-]. rewrite (Fail e eq_refl). apply keeps_entries_refl. }
  assert (E : entry_at (output_dir w) f = None).
  { destruct (entry_at (output_dir w) f) as [[data|]|] eqn:E; [| |reflexivity].
    - unfold is_file in NF. unfold entry_at in E.
      destruct (output_dir w); try discriminate. rewrite E in NF. discriminate.
    - now destruct (Ok eq_refl). }
  intros H. apply (same_but_keeps f); [exact E|].
  unfold bind at 1 in H.
  destruct (write_chunks _ _ _ _ w2) as [[[]|e] w3] eqn:W;
    apply write_chunks_entries in W.
  2:{ injection H as <- <-. eapply same_but_trans; eassumption. }
  unfold bind at 1 in H.
  destruct (getsize f w3) as [[size|e] w4] eqn:Sz;
    apply getsize_inv in Sz as (_ & _ & D4);
    injection H as <- <-; rewrite D4; eapply same_but_trans; eassumption.
Qed.

Lemma prepare_entries w r w' :
  prepare w = (r, w') -> keeps_entries (output_dir w) (output_dir w').
Proof.
  unfold prepare, bind, path_exists.
  destruct (output_dir w) as [| |es] eqn:N; cbn [negb].
  - intros _ name e H. discriminate.
  - intros [= <- <-]. rewrite N. apply keeps_entries_refl.
  - intros [= <- <-]. rewrite N. apply keeps_entries_refl.
Qed.

Lemma cleanup_entries c w r w' :
  cleanup c w = (r, w') -> keeps_entries (output_dir w) (output_dir w').
Proof.
  unfold cleanup.
  destruct (_ && _); [|intros [= <- <-]; apply keeps_entries_refl].
  unfold remove_if_empty, bind, path_exists, path_isdir, try_except.
  destruct (output_dir w) as [| |es] eqn:N; cbn [andb].
  - intros [= <- <-]. rewrite N. apply keeps_entries_refl.
  - intros [= <- <-]. rewrite N. apply keeps_entries_refl.
  - destruct (rmdir w) as [[[]|e] w1] eqn:R;
      apply fs_call_inv in R as (_ & _ & [(e0 & _ & Q & D) | (_ & R)]);
      try discriminate.
    + rewrite N in R. destruct (bool_decide (es = ∅)) eqn:B; [|discriminate].
      apply bool_decide_eq_true in B. subst es.
      intros _ name e H. simpl in H. now rewrite lookup_empty in H.
    + intros [= <- <-]. rewrite D, N. apply keeps_entries_refl.
    + rewrite N in R. destruct (bool_decide (es = ∅)) eqn:B; [discriminate|].
      injection R as _ D. intros [= <- <-]. rewrite <- D. apply keeps_entries_refl.
Qed.

Lemma download_loop_entries unescape self items : forall c w r w',
  download_loop unescape self items c w = (r, w') ->
  keeps_entries (output_dir w) (output_dir w').
Proof.
  induction items as [|[sid title] rest IH]; intros c w r w' H.
  - injection H as <- <-. apply keeps_entries_refl.
  - rewrite download_loop_cons in H.
    destruct (prepare w) as [[[]|e] w1] eqn:P; apply prepare_entries in P.
    2:{ now injection H as <- <-. }
    destruct (_snag_sound unescape self sid title w1) as [[o|e] w2] eqn:S;
      apply snag_sound_entries in S.
    2:{ injection H as <- <-. eauto using keeps_entries_trans. }
    cbv zeta in H.
    destruct (is_failed o && (2 <=? consecutive_failures (count o c))%nat).
    + destruct (cleanup (count o c) w2) as [[[]|e] w3] eqn:C;
        apply cleanup_entries in C; injection H as <- <-;
        eauto using keeps_entries_trans.
    + apply IH in H. eauto using keeps_entries_trans.
Qed.

Lemma fetch_page_world self w :
  output_dir (snd (_fetch_page self w)) = output_dir w
  /\ requests (log (snd (_fetch_page self w)))
     = requests (log w) ++ [base_url self ++ lit "/sb/" ++ board_name self]
  /\ urlopen (snd (_fetch_page self w)) = urlopen w
  /\ fault (snd (_fetch_page self w)) = fault w.
Proof.
  unfold _fetch_page, try_except, bind, do_urlopen.
  set (url := base_url self ++ lit "/sb/" ++ board_name self).
  set (w1 := record (Requested url) w).
  assert (L1 : requests (log w1) = requests (log w) ++ [url])
    by (unfold w1; simpl; now rewrite requests_app).
  assert (Pure : forall left content,
    snd ((fix read_all (left : list (result pystr)) (content : pystr)
            : M pystr :=
            match left with
            | [] => ret content
            | Return chunk :: left' => read_all left' (content ++ chunk)
            | Raise e :: _ => raise e
            end) left content w1) = w1).
  { induction left as [|[chunk|e] left IHl]; intros content;
      [reflexivity | apply IHl | reflexivity]. }
  destruct (urlopen w url) as [resp|e].
  - destruct (negb (getcode resp =? 200)).
    + unfold raise. simpl. auto.
    + specialize (Pure (chunks resp) []).
      destruct ((fix read_all (left : list (result pystr)) (content : pystr)
                   : M pystr :=
                   match left with
                   | [] => ret content
                   | Return chunk :: left' => read_all left' (content ++ chunk)
                   | Raise e :: _ => raise e
                   end) (chunks resp) [] w1) as [[content|e] w2];
        cbn [snd] in Pure; subst w2.
      * simpl. auto.
      * destruct e; unfold raise; simpl; auto.
  - destruct e; unfold raise; simpl; auto.
Qed.

(** X7 — [snag] never touches what is already in the output directory:
    every entry there before the run, file or subdirectory, is there
    afterwards with the same content, whatever the server answers and
    whichever operations the operating system refuses. *)
Theorem snag_keeps_existing_files :
  forall (unescape : pystr -> pystr) (self : SoundboardSnag) (w w' : world)
         (r : result bool) (name : pystr) (e : entry),
    snag unescape self w = (r, w') ->
    entry_at (output_dir w) name = Some e ->
    entry_at (output_dir w') name = Some e.
Proof.
  intros unescape self w w' r name e H. revert name e.
  change (keeps_entries (output_dir w) (output_dir w')).
  unfold snag, snag_run, bind in H.
  destruct (fetch_page_world self w) as (D & _).
  destruct (_fetch_page self w) as [[html|ex] wp]; cbn [snd] in D.
  2:{ injection H as <- <-. rewrite D. apply keeps_entries_refl. }
  destruct (_check_downloads_enabled html) as [has_downloads n].
  destruct (bool_decide (_parse_sound_items html = [])).
  { injection H as <- <-. rewrite D. apply keeps_entries_refl. }
  destruct (negb has_downloads).
  { injection H as <- <-. rewrite D. apply keeps_entries_refl. }
  destruct (download_loop unescape self (_parse_sound_items html) counters0 wp)
    as [[cb|ex] wl] eqn:L; apply download_loop_entries in L;
    injection H as <- <-; now rewrite <- D.
Qed.

(** ** A download without interference *)

Lemma fs_call_ok {A} (op : fs_op) (run : node -> result A * node) (w : world) :
  no_fault w ->
  fs_call op run w
  = (fst (run (output_dir w)), set_dir (snd (run (output_dir w))) (tick w)).
Proof.
  intros Q. unfold fs_call. rewrite Q. now destruct (run (output_dir w)).
Qed.

Lemma write_chunks_run (url f : pystr) : forall parts fuel w es d0,
  no_fault w -> output_dir w = Directory es ->
  es !! f = Some (RegularFile d0) ->
  (List.length parts < fuel)%nat ->
  exists w',
    write_chunks url f fuel parts w
    = (match read_error parts with Some e => Raise e | None => Return tt end, w')
    /\ output_dir w' = Directory (<[f := RegularFile (d0 ++ received parts)]> es)
    /\ urlopen w' = urlopen w /\ fault w' = fault w.
Proof.
  induction parts as [|[chunk|e] rest IH]; intros fuel w es d0 Q D E F;
    (destruct fuel as [|fuel]; [simpl in F; lia|]);
    cbn [write_chunks received read_error]; unfold bind at 1; cbn [read_chunk].
  - rewrite bool_decide_eq_true_2 by reflexivity.
    eexists. split; [reflexivity|]. cbn [output_dir record urlopen fault].
    rewrite app_nil_r, insert_id by assumption. auto.
  - destruct (bool_decide (chunk = [])) eqn:B.
    + eexists. split; [reflexivity|]. cbn [output_dir record urlopen fault].
      rewrite app_nil_r, insert_id by assumption. auto.
    + set (w1 := record (ReadBody url) w).
      assert (Q1 : no_fault w1) by exact Q.
      unfold bind, file_write. rewrite (fs_call_ok _ _ w1 Q1).
      change (output_dir w1) with (output_dir w). rewrite D, E. cbn [fst snd].
      set (es' := <[f := RegularFile (d0 ++ chunk)]> es).
      destruct (IH fuel (set_dir (Directory es') (tick w1)) es' (d0 ++ chunk))
        as (w' & H & D' & U' & F'); try reflexivity.
      * exact Q.
      * apply lookup_insert_eq.
      * simpl in F. lia.
      * exists w'. split; [exact H|]. rewrite D'. unfold es'.
        rewrite insert_insert_eq, <- app_assoc. auto.
  - eexists. split; [reflexivity|]. cbn [output_dir record urlopen fault].
    rewrite app_nil_r, insert_id by assumption. auto.
Qed.

Lemma snag_sound_run unescape self sid title w resp es :
  urlopen w (download_url self sid) = Return resp ->
  getcode resp = 200 ->
  no_fault w -> output_dir w = Directory es ->
  es !! final_filename_of unescape sid title resp = None ->
  exists w',
    _snag_sound unescape self sid title w
    = (Return (match read_error (chunks resp) with
               | Some e => Failed (failure_reason e)
               | None => Saved (final_filename_of unescape sid title resp)
                           (List.length (received (chunks resp)))
               end), w')
    /\ output_dir w'
       = Directory (<[final_filename_of unescape sid title resp
                      := RegularFile (received (chunks resp))]> es)
    /\ urlopen w' = urlopen w /\ fault w' = fault w.
Proof.
  intros U G Q D E.
  set (f := final_filename_of unescape sid title resp) in *.
  unfold _snag_sound, snag_sound_try, try_except, bind at 1, do_urlopen.
  fold (download_url self sid). rewrite U, G. cbn [Z.eqb Pos.eqb negb].
  fold f. set (w1 := record (Requested (download_url self sid)) w).
  assert (Q1 : no_fault w1) by exact Q.
  unfold bind at 1, path_isfile. change (output_dir w1) with (output_dir w).
  rewrite D. cbn [is_file]. rewrite E.
  unfold bind at 1, open_wb. rewrite (fs_call_ok _ _ w1 Q1).
  change (output_dir w1) with (output_dir w). rewrite D, E. cbn [fst snd].
  set (es1 := <[f := RegularFile []]> es).
  set (w2 := set_dir (Directory es1) (tick w1)).
  destruct (write_chunks_run (download_url self sid) f (chunks resp)
              (S (List.length (chunks resp))) w2 es1 [])
    as (w3 & W & D3 & U3 & F3); try reflexivity.
  { exact Q. } { apply lookup_insert_eq. } { lia. }
  unfold bind at 1. rewrite W. cbn [app] in D3. unfold es1 in D3.
  rewrite insert_insert_eq in D3.
  destruct (read_error (chunks resp)) as [e|].
  { exists w3. auto. }
  assert (Q3 : no_fault w3) by (intros op n; rewrite F3; apply Q).
  unfold bind, getsize. rewrite (fs_call_ok _ _ w3 Q3), D3, lookup_insert_eq.
  cbn [fst snd]. eexists. split; [reflexivity|].
  cbn [output_dir set_dir urlopen fault tick]. auto.
Qed.


(** X9 — an interrupted download leaves its partial file behind, and the
    next attempt takes it for the sound: when a read of the body fails
    after some chunks, the attempt gives [Failed], the file of the final
    filename holds the chunks received so far, and the same attempt made
    again is [Skipped]. *)
Theorem interrupted_download_is_skipped_later :
  forall (unescape : pystr -> pystr) (self : SoundboardSnag)
         (sound_id page_title : pystr) (w : world) (resp : response)
         (es : gmap pystr entry) (e : exn),
    urlopen w (download_url self sound_id) = Return resp ->
    getcode resp = 200 ->
    read_error (chunks resp) = Some e ->
    no_fault w -> output_dir w = Directory es ->
    es !! final_filename_of unescape sound_id page_title resp = None ->
    exists w',
      _snag_sound unescape self sound_id page_title w
      = (Return (Failed (failure_reason e)), w')
      /\ output_dir w'
         = Directory (<[final_filename_of unescape sound_id page_title resp
                        := RegularFile (received (chunks resp))]> es)
      /\ fst (_snag_sound unescape self sound_id page_title w')
         = Return (Skipped (final_filename_of unescape sound_id page_title resp)).
Proof.
  intros unescape self sid title w resp es e U G R Q D E.
  destruct (snag_sound_run unescape self sid title w resp es U G Q D E)
    as (w' & H & D' & U' & _).
  rewrite R in H. exists w'. split; [exact H|]. split; [exact D'|].
  rewrite (snag_sound_skips unescape self sid title w' resp); [reflexivity| |exact G|].
  - now rewrite U'.
  - rewrite D'. cbn [is_file]. now rewrite lookup_insert_eq.
Qed.


Lemma interrupted_download_is_skipped_later_witness :
  let resp := {| getcode := 200; headers := ∅;
                 chunks := [Return (lit "RI"); Raise (OtherException (lit "timed out"))] |} in
  read_error (chunks resp) = Some (OtherException (lit "timed out"))
  /\ exists w',
       _snag_sound html_unescape sim_self (lit "3") (lit "three") cut_world
       = (Return (Failed (failure_reason (OtherException (lit "timed out")))), w')
       /\ output_dir w'
          = Directory (<[final_filename_of html_unescape (lit "3") (lit "three") resp
                         := RegularFile (received (chunks resp))]> ∅)
       /\ fst (_snag_sound html_unescape sim_self (lit "3") (lit "three") w')
          = Return (Skipped (final_filename_of html_unescape (lit "3") (lit "three") resp)).
Proof.
  intros resp. split; [reflexivity|].
  apply (interrupted_download_is_skipped_later html_unescape sim_self
           (lit "3") (lit "three") cut_world resp ∅
           (OtherException (lit "timed out")) eq_refl eq_refl eq_refl).
  - intros op n. reflexivity.
  - reflexivity.
  - apply lookup_empty.
Defined.

Lemma snag_keeps_existing_files_witness :
  let w := demo_world demo_page
             (Directory {[ lit "notes.txt" := RegularFile (lit "keep") ]}) in
  let r := snag html_unescape sim_self w in
  r = (fst r, snd r)
  /\ fst r = Return true
  /\ entry_at (output_dir w) (lit "notes.txt") = Some (RegularFile (lit "keep"))
  /\ entry_at (output_dir (snd r)) (lit "Laser.mp3") = Some (RegularFile (lit "RIFF"))
  /\ entry_at (output_dir (snd r)) (lit "notes.txt") = Some (RegularFile (lit "keep")).
Proof.
  intros w r.
  assert (H : r = (fst r, snd r)) by (vm_compute; reflexivity).
  assert (E : entry_at (output_dir w) (lit "notes.txt")
              = Some (RegularFile (lit "keep"))) by (vm_compute; reflexivity).
  split; [exact H|]. split; [vm_compute; reflexivity|]. split; [exact E|].
  split; [vm_compute; reflexivity|].
  exact (snag_keeps_existing_files html_unescape sim_self w (snd r) (fst r)
           (lit "notes.txt") (RegularFile (lit "keep")) H E).
Defined.

(** ** [_fetch_page] *)

Lemma read_all_fix (left : list (result pystr)) : forall content w,
  (fix read_all (left : list (result pystr)) (content : pystr) : M pystr :=
     match left with
     | [] => ret content
     | Return chunk :: left' => read_all left' (content ++ chunk)
     | Raise e :: _ => raise e
     end) left content w
  = (match read_whole left with
     | Return body => Return (content ++ body)
     | Raise e => Raise e
     end, w).
Proof.
  induction left as [|[chunk|e] left IH]; intros content w.
  - cbn. now rewrite app_nil_r.
  - rewrite IH. cbn [read_whole].
    destruct (read_whole left); [now rewrite app_assoc | reflexivity].
  - reflexivity.
Qed.

Lemma fetch_page_result (self : SoundboardSnag) (w : world) :
  _fetch_page self w
  = (match urlopen w (page_url self) with
     | Return resp =>
         if negb (getcode resp =? 200)
         then Raise (RuntimeError
                       (lit "Unable to retrieve soundboard page. HTTP status: "
                        ++ str_of_Z (getcode resp)))
         else match read_whole (chunks resp) with
              | Return body => Return body
              | Raise (HTTPError code reason) =>
                  Raise (RuntimeError (lit "HTTP Error " ++ str_of_Z code
                                       ++ lit ": " ++ reason))
              | Raise (URLError reason) =>
                  Raise (RuntimeError (lit "Network error: " ++ reason))
              | Raise e => Raise e
              end
     | Raise (HTTPError code reason) =>
         Raise (RuntimeError (lit "HTTP Error " ++ str_of_Z code
                              ++ lit ": " ++ reason))
     | Raise (URLError reason) =>
         Raise (RuntimeError (lit "Network error: " ++ reason))
     | Raise e => Raise e
     end, record (Requested (page_url self)) w).
Proof.
  unfold _fetch_page, try_except, bind, do_urlopen. fold (page_url self).
  destruct (urlopen w (page_url self)) as [resp|e].
  - destruct (negb (getcode resp =? 200)); [reflexivity|].
    rewrite read_all_fix. destruct (read_whole (chunks resp)) as [body|e].
    + reflexivity.
    + now destruct e.
  - now destruct e.
Qed.

(** X10 — [_fetch_page] makes one request, leaves the directory alone,
    returns the whole body of a page answered with status 200, and lets
    no [HTTPError] or [URLError] through: a failure is a [RuntimeError],
    or an exception of another class that the request or the read of the
    body raised. *)
Theorem fetch_page_failures :
  forall (self : SoundboardSnag) (w : world),
    output_dir (snd (_fetch_page self w)) = output_dir w
    /\ requests (log (snd (_fetch_page self w)))
       = requests (log w) ++ [page_url self]
    /\ (forall resp body,
          urlopen w (page_url self) = Return resp ->
          getcode resp = 200 ->
          read_whole (chunks resp) = Return body ->
          fst (_fetch_page self w) = Return body)
    /\ (forall e,
          fst (_fetch_page self w) = Raise e ->
          is_urllib_error e = false
          /\ (is_runtime_error e = true
              \/ urlopen w (page_url self) = Raise e
              \/ exists resp, urlopen w (page_url self) = Return resp
                              /\ read_whole (chunks resp) = Raise e)).
Proof.
  intros self w. rewrite fetch_page_result. cbn [fst snd].
  split; [reflexivity|].
  split. { simpl. now rewrite requests_app. }
  split.
  { intros resp body U G R. rewrite U, G, R. reflexivity. }
  intros e. destruct (urlopen w (page_url self)) as [resp|x] eqn:U.
  - destruct (negb (getcode resp =? 200)).
    + intros [= <-]. split; [reflexivity | left; reflexivity].
    + destruct (read_whole (chunks resp)) as [body|x] eqn:R; [discriminate|].
      destruct x; intros [= <-]; (split; [reflexivity|]);
        first [ left; reflexivity | right; right; exists resp; split; [reflexivity | exact R] ].
  - destruct x; intros [= <-]; (split; [reflexivity|]);
      first [ left; reflexivity | right; left; reflexivity ].
Qed.

Lemma fetch_page_failures_witness :
  let w := sim_world Absent in
  fst (_fetch_page sim_self w)
    = Raise (RuntimeError (lit "HTTP Error 404: Not Found"))
  /\ is_urllib_error (RuntimeError (lit "HTTP Error 404: Not Found")) = false
  /\ fst (_fetch_page sim_self (demo_world demo_page Absent)) = Return demo_page.
Proof.
  intros w.
  assert (H : fst (_fetch_page sim_self w)
              = Raise (RuntimeError (lit "HTTP Error 404: Not Found")))
    by (vm_compute; reflexivity).
  split; [exact H|]. split.
  - destruct (fetch_page_failures sim_self w) as (_ & _ & _ & F).
    exact (proj1 (F _ H)).
  - destruct (fetch_page_failures sim_self (demo_world demo_page Absent))
      as (_ & _ & S & _).
    apply (S {| getcode := 200; headers := ∅; chunks := [Return demo_page] |});
      vm_compute; reflexivity.
Defined.

(** ** [snag] before the downloads *)

(** X11 — a page without sounds or without download buttons is refused
    before any download: [snag] raises a [RuntimeError], having made the
    request of the page only and left the file system as it was; a page
    without sounds is reported as such even when it has no buttons
    either. *)
Theorem snag_refuses_before_downloading :
  forall (unescape : pystr -> pystr) (self : SoundboardSnag) (w w1 : world)
         (html_content : pystr),
    _fetch_page self w = (Return html_content, w1) ->
    _parse_sound_items html_content = []
    \/ fst (_check_downloads_enabled html_content) = false ->
    snag unescape self w
    = (Raise (RuntimeError
                (if bool_decide (_parse_sound_items html_content = [])
                 then lit "No audio files found on this soundboard page"
                 else lit "Board has downloads disabled - cannot proceed")), w1)
    /\ output_dir w1 = output_dir w
    /\ requests (log w1) = requests (log w) ++ [page_url self].
Proof.
  intros unescape self w w1 html H C.
  destruct (fetch_page_world self w) as (D & L & _). rewrite H in D, L.
  cbn [snd] in D, L. split; [|split; [exact D | exact L]].
  unfold snag, snag_run, bind. rewrite H.
  destruct (_check_downloads_enabled html) as [has_downloads n] eqn:E.
  destruct (bool_decide (_parse_sound_items html = [])) eqn:B; [reflexivity|].
  destruct C as [C|C].
  - apply bool_decide_eq_false in B. contradiction.
  - cbn [fst] in C. subst has_downloads. reflexivity.
Qed.

Lemma snag_refuses_before_downloading_witness :
  let w := demo_world play_only_page Absent in
  _fetch_page sim_self w = (Return play_only_page, snd (_fetch_page sim_self w))
  /\ fst (_check_downloads_enabled play_only_page) = false
  /\ snag html_unescape sim_self w
     = (Raise (RuntimeError (lit "Board has downloads disabled - cannot proceed")),
        snd (_fetch_page sim_self w))
  /\ output_dir (snd (_fetch_page sim_self w)) = Absent.
Proof.
  intros w.
  assert (H : _fetch_page sim_self w
              = (Return play_only_page, snd (_fetch_page sim_self w)))
    by (vm_compute; reflexivity).
  assert (C : fst (_check_downloads_enabled play_only_page) = false)
    by (vm_compute; reflexivity).
  split; [exact H|]. split; [exact C|].
  destruct (snag_refuses_before_downloading html_unescape sim_self w _
              play_only_page H (or_intror C)) as (S & D & _).
  split; [|exact D]. rewrite S. f_equal.
Defined.

(** ** The counters *)

Lemma outcome_kinds (os : list DownloadOutcome) :
  (List.length (List.filter is_saved os)
   + List.length (List.filter is_skipped os)
   + List.length (List.filter is_failed os))%nat = List.length os.
Proof.
  induction os as [|o os IH]; [reflexivity|]. destruct o; simpl; lia.
Qed.

(** X12 — the three counters of the summary count the attempts by kind and
    add up to their number, which is at most the number of sounds and
    exactly that number unless the loop stopped at the cut-off. *)
Theorem counters_add_up :
  forall (unescape : pystr -> pystr) (self : SoundboardSnag)
         (items : list (pystr * pystr)) (w w' : world)
         (c : counters) (stopped : bool),
    download_loop unescape self items counters0 w = (Return (c, stopped), w') ->
    snagged_count c = List.length (List.filter is_saved (outcomes c))
    /\ existing_count c = List.length (List.filter is_skipped (outcomes c))
    /\ failed_count c = List.length (List.filter is_failed (outcomes c))
    /\ (snagged_count c + existing_count c + failed_count c)%nat
       = List.length (outcomes c)
    /\ (List.length (outcomes c) <= List.length items)%nat
    /\ (stopped = false -> List.length (outcomes c) = List.length items).
Proof.
  intros unescape self items w w' c stopped H.
  apply download_loop_inv in H as (_ & _ & os & -> & Len & _ & _ & St);
    [|simpl; lia].
  rewrite snagged_tally, existing_tally, failed_tally, outcomes_tally.
  cbn [counters0 snagged_count existing_count failed_count outcomes app Nat.add].
  split_and!; try reflexivity.
  - apply outcome_kinds.
  - exact Len.
  - intros ->. apply St.
Qed.

Lemma counters_add_up_witness :
  sim_run = (Return (sim_counters, true), snd sim_run)
  /\ (snagged_count sim_counters + existing_count sim_counters
      + failed_count sim_counters)%nat = List.length (outcomes sim_counters)
  /\ failed_count sim_counters = 2%nat.
Proof.
  assert (H : sim_run = (Return (sim_counters, true), snd sim_run))
    by (vm_compute; reflexivity).
  split; [exact H|].
  destruct (counters_add_up html_unescape sim_self sim_items
              (sim_world Absent) (snd sim_run) sim_counters true H)
    as (_ & _ & _ & A & _).
  split; [exact A | vm_compute; reflexivity].
Defined.

(** * A run in which every download succeeds *)








(** * File names from titles *)

Lemma simple_stem_strip (t : pystr) :
  simple_stem t = true -> t <> [] /\ strip t = t.
Proof.
  intros T. pose proof T as T'.
  apply simple_stem_inv in T' as (c & r & -> & Hc & _).
  split; [discriminate|]. apply strip_id.
  - now destruct (plain_props c Hc) as (-> & _).
  - destruct (simple_name_last (c :: r) [] T eq_refl) as (l & x & L & Hl).
    rewrite app_nil_r in L. rewrite L. now destruct (plain_props l Hl) as (-> & _).
Qed.

Lemma final_filename_simple (sound_id page_title : pystr) (resp : response) :
  simple_stem page_title = true ->
  final_filename_of html_unescape sound_id page_title resp
  = normal_stem page_title ++ lit ".mp3".
Proof.
  intros T. destruct (simple_stem_strip page_title T) as [N S].
  unfold final_filename_of. rewrite S.
  rewrite bool_decide_eq_false_2 by exact N. cbn [negb andb].
  now apply sanitize_simple.
Qed.

(** X14 — a sound whose title is made of plain words gets the file name of
    the title, whatever its id and the headers of the answer: the title
    in title case when it is all lower or all upper case, with [_] in
    front when that is a reserved device name, and [.mp3]. *)
Theorem simple_title_names_the_file :
  forall (sound_id page_title : pystr) (resp : response),
    simple_stem page_title = true ->
    final_filename_of html_unescape sound_id page_title resp
    = guard_reserved (title_if_uniform page_title) ++ lit ".mp3".
Proof. intros sound_id page_title resp T. now apply final_filename_simple. Qed.

Lemma simple_title_names_the_file_witness :
  simple_stem (lit "darth vader") = true
  /\ final_filename_of html_unescape (lit "5") (lit "darth vader")
       {| getcode := 200;
          headers := {[ lit "content-disposition" := lit "filename=x9f3.mp3" ]};
          chunks := [] |}
     = lit "Darth Vader.mp3".
Proof.
  split; [reflexivity|].
  rewrite (simple_title_names_the_file (lit "5") (lit "darth vader") _ eq_refl).
  vm_compute. reflexivity.
Defined.

(** X15 — of two sounds with the same title only the first is stored: in a
    directory where the name of the title is free, with a server that
    answers both downloads, the loop saves the first sound and skips the
    second, whose body is never written. *)
Theorem same_title_second_is_skipped :
  forall (self : SoundboardSnag) (id1 id2 page_title : pystr) (w : world)
         (r1 r2 : response) (es : gmap pystr entry),
    simple_stem page_title = true ->
    no_fault w -> output_dir w = Directory es ->
    es !! (normal_stem page_title ++ lit ".mp3") = None ->
    urlopen w (download_url self id1) = Return r1 -> getcode r1 = 200 ->
    read_error (chunks r1) = None ->
    urlopen w (download_url self id2) = Return r2 -> getcode r2 = 200 ->
    exists c w',
      download_loop html_unescape self [(id1, page_title); (id2, page_title)]
        counters0 w = (Return (c, false), w')
      /\ outcomes c
         = [Saved (normal_stem page_title ++ lit ".mp3")
              (List.length (received (chunks r1)));
            Skipped (normal_stem page_title ++ lit ".mp3")]
      /\ output_dir w'
         = Directory (<[normal_stem page_title ++ lit ".mp3"
                        := RegularFile (received (chunks r1))]> es).
Proof.
  intros self id1 id2 t w r1 r2 es T Q D E U1 G1 R1 U2 G2.
  set (f := normal_stem t ++ lit ".mp3") in *.
  assert (F1 : final_filename_of html_unescape id1 t r1 = f)
    by now apply final_filename_simple.
  assert (F2 : final_filename_of html_unescape id2 t r2 = f)
    by now apply final_filename_simple.
  rewrite download_loop_cons.
  destruct (prepare w) as [p wp] eqn:P.
  apply prepare_inv in P as (_ & _ & _ & N & _).
  destruct N as [-> ->]; [rewrite D; discriminate|].
  destruct (snag_sound_run html_unescape self id1 t w r1 es U1 G1 Q D)
    as (w1 & S1 & D1 & Uw1 & Fw1); [now rewrite F1|].
  rewrite R1, F1 in S1. rewrite F1 in D1. rewrite S1. cbv zeta.
  cbn [is_failed andb]. rewrite download_loop_cons.
  destruct (prepare w1) as [p wp] eqn:P.
  apply prepare_inv in P as (_ & _ & _ & N & _).
  destruct N as [-> ->]; [rewrite D1; discriminate|].
  rewrite (snag_sound_skips html_unescape self id2 t w1 r2);
    [|now rewrite Uw1|exact G2|].
  2:{ rewrite F2, D1. cbn [is_file]. now rewrite lookup_insert_eq. }
  rewrite F2. cbv zeta. cbn [is_failed andb download_loop].
  eexists _, _. split; [reflexivity|]. split; [reflexivity|]. exact D1.
Qed.

Lemma same_title_second_is_skipped_witness :
  let w := demo_world demo_page (Directory ∅) in
  simple_stem (lit "laser") = true
  /\ no_fault w
  /\ fst (_snag_sound html_unescape sim_self (lit "18") (lit "laser") w)
     = Return (Saved (lit "Laser.mp3") 4)
  /\ exists c w',
       download_loop html_unescape sim_self twin_items counters0 w
       = (Return (c, false), w')
       /\ outcomes c
          = [Saved (normal_stem (lit "laser") ++ lit ".mp3")
               (List.length (received [Return (lit "RI"); Return (lit "FF")]));
             Skipped (normal_stem (lit "laser") ++ lit ".mp3")]
       /\ output_dir w'
          = Directory (<[normal_stem (lit "laser") ++ lit ".mp3"
                         := RegularFile (received [Return (lit "RI"); Return (lit "FF")])]> ∅).
Proof.
  intros w.
  assert (Q : no_fault w) by (intros op n; reflexivity).
  split; [reflexivity|]. split; [exact Q|]. split; [vm_compute; reflexivity|].
  apply (same_title_second_is_skipped sim_self (lit "17") (lit "18") (lit "laser") w
           {| getcode := 200; headers := ∅;
              chunks := [Return (lit "RI"); Return (lit "FF")] |}
           {| getcode := 200; headers := ∅; chunks := [Return (lit "WAVE")] |}
           ∅ eq_refl Q eq_refl).
  - apply lookup_empty.
  - vm_compute. reflexivity.
  - reflexivity.
  - reflexivity.
  - vm_compute. reflexivity.
  - reflexivity.
Defined.

(** ** The search and the downloader on the same page *)

(** X16 — the search and the downloader agree on what a downloadable board
    is: the flag [search_boards] gives a board page is the answer of
    [_check_downloads_enabled] on that page; hence on a page flagged by
    the search that holds sounds, [snag] goes on to the downloads. *)
Theorem search_and_snag_agree_on_downloads :
  forall (unescape : pystr -> pystr) (int_max_str_digits : nat)
         (board_name html_content : pystr),
    has_downloads (analyse unescape int_max_str_digits board_name html_content)
    = fst (_check_downloads_enabled html_content)
    /\ forall (unescape' : pystr -> pystr) (self : SoundboardSnag) (w w1 : world),
         _fetch_page self w = (Return html_content, w1) ->
         has_downloads (analyse unescape int_max_str_digits board_name html_content)
         = true ->
         _parse_sound_items html_content <> [] ->
         snag_run unescape' self w
         = download_loop unescape' self (_parse_sound_items html_content)
             counters0 w1.
Proof.
  intros unescape limit board_name html.
  assert (A : has_downloads (analyse unescape limit board_name html)
              = fst (_check_downloads_enabled html)).
  { unfold analyse, _check_downloads_enabled, re_search. cbn [has_downloads fst].
    destruct (findall download_pattern html); reflexivity. }
  split; [exact A|]. intros unescape' self w w1 F H N.
  rewrite A in H. unfold snag_run, bind. rewrite F.
  destruct (_check_downloads_enabled html) as [has n]. cbn [fst] in H. subst has.
  now rewrite bool_decide_eq_false_2.
Qed.

Lemma search_and_snag_agree_on_downloads_witness :
  let w := demo_world demo_page Absent in
  _fetch_page sim_self w = (Return demo_page, snd (_fetch_page sim_self w))
  /\ has_downloads (analyse html_unescape 4300 (lit "b") demo_page) = true
  /\ snag_run html_unescape sim_self w
     = download_loop html_unescape sim_self (_parse_sound_items demo_page)
         counters0 (snd (_fetch_page sim_self w)).
Proof.
  intros w.
  assert (F : _fetch_page sim_self w = (Return demo_page, snd (_fetch_page sim_self w)))
    by (vm_compute; reflexivity).
  assert (H : has_downloads (analyse html_unescape 4300 (lit "b") demo_page) = true)
    by (vm_compute; reflexivity).
  split; [exact F|]. split; [exact H|].
  apply (proj2 (search_and_snag_agree_on_downloads html_unescape 4300 (lit "b")
                  demo_page) html_unescape sim_self w _ F H).
  vm_compute. discriminate.
Defined.

(** * Further properties of Board Search *)

(** ** The sort *)

Lemma insert_by_views_perm (b : board) (l : list board) :
  Permutation (insert_by_views b l) (b :: l).
Proof.
  induction l as [|x l IH]; [reflexivity|]. simpl.
  destruct (views_int b <? views_int x); [|reflexivity].
  rewrite IH. apply perm_swap.
Qed.

Lemma sort_by_views_perm (l : list board) : Permutation (sort_by_views l) l.
Proof.
  induction l as [|x l IH]; [reflexivity|]. simpl.
  rewrite insert_by_views_perm. now constructor.
Qed.

Lemma insert_by_views_sorted (b : board) (l : list board) :
  StronglySorted by_views l -> StronglySorted by_views (insert_by_views b l).
Proof.
  induction 1 as [|x l S IH F]; simpl.
  - repeat constructor.
  - destruct (views_int b <? views_int x) eqn:E.
    + constructor; [exact IH|].
      rewrite insert_by_views_perm. constructor; [|exact F].
      unfold by_views. apply Z.ltb_lt in E. lia.
    + apply Z.ltb_ge in E. constructor; [now constructor|].
      constructor; [exact E|].
      eapply Forall_impl; [exact F|]. unfold by_views. intros y Hy. lia.
Qed.

Lemma sort_by_views_sorted (l : list board) :
  StronglySorted by_views (sort_by_views l).
Proof.
  induction l as [|x l IH]; [constructor|]. now apply insert_by_views_sorted.
Qed.

Lemma with_views_insert (v : Z) (b : board) (l : list board) :
  with_views v (insert_by_views b l) = with_views v (b :: l).
Proof.
  unfold with_views. induction l as [|x l IH]; [reflexivity|].
  cbn [insert_by_views]. destruct (views_int b <? views_int x) eqn:E; [|reflexivity].
  cbn [List.filter] in *. rewrite IH. apply Z.ltb_lt in E.
  destruct (views_int b =? v) eqn:B; [|reflexivity].
  apply Z.eqb_eq in B. replace (views_int x =? v) with false; [reflexivity|].
  symmetry. apply Z.eqb_neq. lia.
Qed.

Lemma with_views_sort (v : Z) (l : list board) :
  with_views v (sort_by_views l) = with_views v l.
Proof.
  induction l as [|x l IH]; [reflexivity|]. cbn [sort_by_views fold_right].
  fold (sort_by_views l). rewrite with_views_insert. unfold with_views in *.
  cbn [List.filter]. now rewrite IH.
Qed.

Section SearchInvariants.

Variable unescape : pystr -> pystr.
Variable int_max_str_digits : nat.
Variables min_views min_sounds : Z.
Variable max_results : nat.

Lemma search_boards_final encoded_query w found w' :
  search_boards unescape int_max_str_digits min_views min_sounds max_results
    encoded_query w = (Return found, w') ->
  exists st,
    search_pages unescape int_max_str_digits min_views min_sounds max_results
      encoded_query 10 1 ∅ search_state0 w = (Return st, w')
    /\ found = final_results st.
Proof.
  unfold search_boards, bind.
  destruct (search_pages _ _ _ _ _ encoded_query 10 1 ∅ search_state0 w)
    as [[st|e] w1]; [|discriminate].
  intros [= <- <-]. now exists st.
Qed.

(** ** The state of the search *)

Lemma search_inv_mono seen seen' st :
  seen ⊆ seen' -> search_inv max_results seen st -> search_inv max_results seen' st.
Proof.
  intros Sub (A & B & C & D). split_and!; try assumption.
  intros n Hn. destruct (D n Hn) as [D1 D2]. split; [|exact D2].
  now apply Sub.
Qed.

Lemma consider_inv seen b st :
  search_inv max_results seen st ->
  (max_results <=? downloadable_count st)%nat = false ->
  name b ∈ seen -> ~ In (lower (name b)) excluded_names ->
  ~ In (name b) (board_names st) ->
  search_inv max_results seen (consider min_views min_sounds b st).
Proof.
  intros (A & B & C & D) G Hs He Hn. apply Nat.leb_gt in G.
  unfold consider, search_inv, board_names in *.
  destruct (meets_filters min_views min_sounds b); cbn [results downloadable_count].
  - rewrite List.filter_app, length_app, map_app. cbn [List.filter map].
    destruct (has_downloads b); cbn [andb List.length].
    + split_and!; try lia.
      * apply NoDup_app. split_and!; [exact C| |apply NoDup_singleton].
        intros x Hx Hb. apply list_elem_of_In in Hb as [<-|[]].
        apply Hn. now apply list_elem_of_In.
      * intros n Hn'. apply in_app_or in Hn' as [Hn'|[<-|[]]]; auto.
    + split_and!; try lia.
      * apply NoDup_app. split_and!; [exact C| |apply NoDup_singleton].
        intros x Hx Hb. apply list_elem_of_In in Hb as [<-|[]].
        apply Hn. now apply list_elem_of_In.
      * intros n Hn'. apply in_app_or in Hn' as [Hn'|[<-|[]]]; auto.
  - split_and!; try assumption; lia.
Qed.

Lemma analyse_name board_name board_html :
  name (analyse unescape int_max_str_digits board_name board_html) = board_name.
Proof. reflexivity. Qed.

Lemma analyse_boards_inv seen page_boards : forall st w st' keep w',
  analyse_boards unescape int_max_str_digits min_views min_sounds max_results
    page_boards st w = (Return (st', keep), w') ->
  search_inv max_results seen st ->
  NoDup page_boards ->
  (forall n, In n page_boards ->
     n ∈ seen /\ ~ In (lower n) excluded_names /\ ~ In n (board_names st)) ->
  search_inv max_results seen st'
  /\ (forall n, In n (board_names st') -> In n (board_names st) \/ In n page_boards).
Proof.
  induction page_boards as [|board_name rest IH]; intros st w st' keep w' H I N P.
  - injection H as <- <- <-. auto.
  - cbn [analyse_boards] in H.
    destruct (max_results <=? downloadable_count st)%nat eqn:G.
    + injection H as <- <- <-. auto.
    + apply NoDup_cons in N as [Nb Nr].
      destruct (P board_name (or_introl eq_refl)) as (P1 & P2 & P3).
      unfold bind at 1, try_except in H.
      match type of H with
      | context [match ?m w with _ => _ end] => destruct (m w) as [[st1|e] w1] eqn:A
      end.
      * unfold bind in A. destruct (do_urlopen _ w) as [[resp|e] wa]; [|discriminate].
        destruct (read_all resp wa) as [[board_html|e] wb]; [|discriminate].
        injection A as <- <-.
        apply IH in H as [I' Sub].
        -- split; [exact I'|]. intros n Hn. apply Sub in Hn as [Hn|Hn]; [|right; now right].
           unfold board_names, consider in Hn.
           destruct (meets_filters _ _ _); cbn [results] in Hn; [|now left].
           rewrite map_app in Hn. apply in_app_or in Hn as [Hn|[<-|[]]]; [now left|].
           right. now left.
        -- now apply consider_inv.
        -- exact Nr.
        -- intros n Hn. destruct (P n (or_intror Hn)) as (Q1 & Q2 & Q3).
           split; [exact Q1|]. split; [exact Q2|].
           unfold board_names, consider.
           destruct (meets_filters _ _ _); cbn [results]; [|exact Q3].
           rewrite map_app. intros Hin. apply in_app_or in Hin as [Hin|[E|[]]].
           ++ contradiction.
           ++ rewrite analyse_name in E. subst n. apply Nb. now apply list_elem_of_In.
      * unfold ret in H. apply IH in H as [I' Sub]; auto.
        -- split; [exact I'|]. intros n Hn. apply Sub in Hn as [Hn|Hn]; auto.
           right. now right.
        -- intros n Hn. apply (P n). now right.
Qed.

Lemma new_boards_spec boards : forall seen l seen',
  new_boards unescape boards seen = (l, seen') ->
  NoDup l /\ seen ⊆ seen'
  /\ forall n, In n l -> n ∈ seen' /\ (n ∉ seen) /\ ~ In (lower n) excluded_names.
Proof.
  induction boards as [|b rest IH]; intros seen l seen' H; cbn [new_boards] in H.
  - injection H as <- <-. split; [constructor|]. split; [reflexivity|]. intros n [].
  - destruct (negb (bool_decide (unescape b ∈ seen))
              && negb (bool_decide (lower (unescape b)
                                    ∈ map lit ["search"; "popular"; "new"]%string)))
      eqn:C.
    + destruct (new_boards unescape rest ({[unescape b]} ∪ seen)) as [l1 s1] eqn:R.
      injection H as <- <-. apply IH in R as (N & Sub & P).
      apply andb_prop in C as [C1 C2].
      apply negb_true_iff, bool_decide_eq_false in C1, C2.
      split_and!.
      * apply NoDup_cons. split; [|exact N].
        intros Hin. apply list_elem_of_In in Hin. apply P in Hin as (_ & Hin & _).
        apply Hin, elem_of_union_l, elem_of_singleton. reflexivity.
      * intros x Hx. apply Sub, elem_of_union_r, Hx.
      * intros n [<-|Hn].
        -- split; [apply Sub, elem_of_union_l, elem_of_singleton; reflexivity|].
           split; [exact C1|].
           intros Hin. apply C2. now apply list_elem_of_In.
        -- apply P in Hn as (A & B & D). split; [exact A|]. split; [|exact D].
           intros Hx. apply B, elem_of_union_r, Hx.
    + now apply IH in H.
Qed.

Lemma search_pages_inv q pages_left : forall page seen st w st' w',
  search_pages unescape int_max_str_digits min_views min_sounds max_results
    q pages_left page seen st w = (Return st', w') ->
  search_inv max_results seen st ->
  exists seen', search_inv max_results seen' st'.
Proof.
  induction pages_left as [|n IH]; intros page seen st w st' w' H I.
  - injection H as <- <-. now exists seen.
  - cbn [search_pages] in H. unfold bind at 1 in H.
    match type of H with
    | context [match ?m w with _ => _ end] => destruct (m w) as [[fetched|e] w1]
    end; [|discriminate].
    destruct fetched as [html_content|].
    2:{ injection H as <- <-. now exists seen. }
    destruct (new_boards unescape _ seen) as [page_boards seen1] eqn:NB.
    apply new_boards_spec in NB as (N & Sub & P).
    destruct (bool_decide (page_boards = [])).
    { injection H as <- <-. now exists seen. }
    unfold bind at 1 in H.
    destruct (analyse_boards _ _ _ _ _ page_boards st w1) as [[[st1 keep]|e] w2] eqn:A;
      [|discriminate].
    apply (analyse_boards_inv seen1) in A as [I1 _].
    2:{ now apply (search_inv_mono seen). }
    2:{ exact N. }
    2:{ intros x Hx. destruct (P x Hx) as (P1 & P2 & P3).
        split; [exact P1|]. split; [exact P3|].
        intros Hin. destruct I as (_ & _ & _ & D). now apply D in Hin as [Hin _]. }
    destruct (max_results <=? downloadable_count st1)%nat.
    { injection H as <- <-. now exists seen1. }
    destruct keep.
    + now apply IH in H.
    + injection H as <- <-. now exists seen1.
Qed.

Lemma search_inv0 : search_inv max_results ∅ search_state0.
Proof.
  unfold search_inv, board_names.
  split_and!; [reflexivity | cbn; lia | constructor | intros n []].
Qed.

End SearchInvariants.

(** X17 — the boards [search_boards] returns are sorted by views, highest
    first, and boards of equal views stay in the order in which the
    search met them. *)
Theorem search_results_sorted :
  forall (unescape : pystr -> pystr) (int_max_str_digits : nat)
         (min_views min_sounds : Z) (max_results : nat)
         (encoded_query : pystr) (w w' : world) (found : list board),
    search_boards unescape int_max_str_digits min_views min_sounds
      max_results encoded_query w = (Return found, w') ->
    StronglySorted by_views found
    /\ exists st,
         search_pages unescape int_max_str_digits min_views min_sounds
           max_results encoded_query 10 1 ∅ search_state0 w = (Return st, w')
         /\ forall v, with_views v found
                      = with_views v (List.filter has_downloads (results st)).
Proof.
  intros unescape limit min_views min_sounds max_results q w w' found H.
  apply search_boards_final in H as (st & S & ->).
  split; [apply sort_by_views_sorted|].
  exists st. split; [exact S|]. intros v. apply with_views_sort.
Qed.

(** X18 — [search_boards] returns at most [max_results] boards, no board
    twice, and never a board named [search], [popular] or [new] in
    whatever case. *)
Theorem search_results_bounded :
  forall (unescape : pystr -> pystr) (int_max_str_digits : nat)
         (min_views min_sounds : Z) (max_results : nat)
         (encoded_query : pystr) (w w' : world) (found : list board),
    search_boards unescape int_max_str_digits min_views min_sounds
      max_results encoded_query w = (Return found, w') ->
    (List.length found <= max_results)%nat
    /\ NoDup (map name found)
    /\ forall b, In b found -> ~ In (lower (name b)) excluded_names.
Proof.
  intros unescape limit min_views min_sounds max_results q w w' found H.
  apply search_boards_final in H as (st & S & ->).
  apply search_pages_inv in S as (seen & A & B & C & D); [|apply search_inv0].
  unfold final_results. split_and!.
  - rewrite (Permutation_length (sort_by_views_perm _)). lia.
  - rewrite (sort_by_views_perm _). unfold board_names in C.
    clear -C. induction (results st) as [|x l IH]; [constructor|].
    cbn [map] in C. apply NoDup_cons in C as [Cx Cl]. cbn [List.filter].
    destruct (has_downloads x); [|auto]. cbn [map]. apply NoDup_cons.
    split; [|auto]. intros Hin. apply Cx. apply list_elem_of_In in Hin.
    apply list_elem_of_In. apply in_map_iff in Hin as (y & E & Hy).
    apply filter_In in Hy as [Hy _]. apply in_map_iff. eauto.
  - intros b Hb. apply In_sort_by_views, filter_In in Hb as [Hb _].
    apply (D (name b)). unfold board_names. now apply in_map.
Qed.

Lemma search_results_sorted_witness :
  let r := search_boards html_unescape 4300 0 0 20 (lit "q") two_board_world in
  r = (fst r, snd r)
  /\ map name (match fst r with Return found => found | Raise _ => [] end)
     = [lit "loud"; lit "quiet"]
  /\ map views_int (match fst r with Return found => found | Raise _ => [] end)
     = [1234; 5]
  /\ StronglySorted by_views
       (match fst r with Return found => found | Raise _ => [] end).
Proof.
  intros r.
  assert (H : r = (Return (match fst r with Return found => found | Raise _ => [] end),
                   snd r)) by (vm_compute; reflexivity).
  split; [vm_compute; reflexivity|].
  split; [vm_compute; reflexivity|].
  split; [vm_compute; reflexivity|].
  exact (proj1 (search_results_sorted html_unescape 4300 0 0 20 (lit "q")
                  two_board_world (snd r) _ H)).
Defined.

Lemma search_results_bounded_witness :
  let r := search_boards html_unescape 4300 0 0 1 (lit "q") two_board_world in
  map name (match fst r with Return found => found | Raise _ => [] end)
    = [lit "quiet"]
  /\ (List.length (match fst r with Return found => found | Raise _ => [] end)
      <= 1)%nat.
Proof.
  intros r.
  assert (H : r = (Return (match fst r with Return found => found | Raise _ => [] end),
                   snd r)) by (vm_compute; reflexivity).
  split; [vm_compute; reflexivity|].
  exact (proj1 (search_results_bounded html_unescape 4300 0 0 1 (lit "q")
                  two_board_world (snd r) _ H)).
Defined.

(** ** The world of a search *)

Lemma read_all_result (r : response) (w : world) :
  read_all r w = (read_whole (chunks r), w).
Proof.
  unfold read_all. rewrite read_all_fix.
  destruct (read_whole (chunks r)); reflexivity.
Qed.

Section SearchWorld.

Variable unescape : pystr -> pystr.
Variable int_max_str_digits : nat.
Variables min_views min_sounds : Z.
Variable max_results : nat.
Variable encoded_query : pystr.

Lemma analyse_boards_world page_boards : forall st w r w',
  analyse_boards unescape int_max_str_digits min_views min_sounds max_results
    page_boards st w = (r, w') ->
  (exists st' keep, r = Return (st', keep))
  /\ output_dir w' = output_dir w /\ urlopen w' = urlopen w
  /\ exists new, requests (log w') = requests (log w) ++ new
                 /\ Forall (search_request encoded_query) new.
Proof.
  induction page_boards as [|board_name rest IH]; intros st w r w' H.
  - injection H as <- <-. split; [eauto|]. split; [reflexivity|].
    split; [reflexivity|]. exists []. split; [now rewrite app_nil_r | constructor].
  - cbn [analyse_boards] in H.
    destruct (max_results <=? downloadable_count st)%nat.
    { injection H as <- <-. split; [eauto|]. split; [reflexivity|].
      split; [reflexivity|]. exists []. split; [now rewrite app_nil_r | constructor]. }
    unfold bind at 1, try_except, bind, do_urlopen in H.
    fold (board_url board_name) in H.
    set (w1 := record (Requested (board_url board_name)) w) in H.
    assert (Step : forall st1, analyse_boards unescape int_max_str_digits min_views
                     min_sounds max_results rest st1 w1 = (r, w') ->
              (exists st' keep, r = Return (st', keep))
              /\ output_dir w' = output_dir w /\ urlopen w' = urlopen w
              /\ exists new, requests (log w') = requests (log w) ++ new
                             /\ Forall (search_request encoded_query) new).
    { intros st1 H1. apply IH in H1 as (R & D & U & new & L & F).
      split; [exact R|]. split; [exact D|]. split; [exact U|].
      exists (board_url board_name :: new). split.
      - rewrite L. unfold w1. simpl. rewrite requests_app. simpl.
        now rewrite <- app_assoc.
      - constructor; [|exact F]. right. now exists board_name. }
    destruct (urlopen w (board_url board_name)) as [resp|e]; [|now apply Step in H].
    rewrite read_all_result in H.
    destruct (read_whole (chunks resp)) as [board_html|e]; now apply Step in H.
Qed.

Lemma search_pages_world pages_left : forall page seen st w r w',
  search_pages unescape int_max_str_digits min_views min_sounds max_results
    encoded_query pages_left page seen st w = (r, w') ->
  (1 <= page)%nat -> (page + pages_left <= 11)%nat ->
  output_dir w' = output_dir w /\ urlopen w' = urlopen w
  /\ (exists new, requests (log w') = requests (log w) ++ new
                  /\ Forall (search_request encoded_query) new)
  /\ (forall e, r = Raise e ->
        is_urllib_error e = false
        /\ exists p, (1 <= p <= 10)%nat
             /\ (urlopen w (search_url encoded_query p) = Raise e
                 \/ exists resp,
                      urlopen w (search_url encoded_query p) = Return resp
                      /\ read_whole (chunks resp) = Raise e)).
Proof.
  induction pages_left as [|n IH]; intros page seen st w r w' H P1 P2.
  - injection H as <- <-. split; [reflexivity|]. split; [reflexivity|].
    split; [|discriminate]. exists []. split; [now rewrite app_nil_r | constructor].
  - cbn [search_pages] in H. unfold bind at 1, try_except, bind, do_urlopen in H.
    set (url := search_url encoded_query page) in H.
    set (w1 := record (Requested url) w) in H.
    assert (Rq : search_request encoded_query url).
    { left. exists page. split; [lia | reflexivity]. }
    assert (L1 : requests (log w1) = requests (log w) ++ [url])
      by (unfold w1; simpl; now rewrite requests_app).
    assert (Stop : forall st1, (r, w') = (Return st1, w1) \/
                    (exists e, (r, w') = (Raise e, w1) /\ is_urllib_error e = false
                       /\ (urlopen w url = Raise e
                           \/ exists resp, urlopen w url = Return resp
                                /\ read_whole (chunks resp) = Raise e)) ->
              output_dir w' = output_dir w /\ urlopen w' = urlopen w
              /\ (exists new, requests (log w') = requests (log w) ++ new
                              /\ Forall (search_request encoded_query) new)
              /\ (forall e, r = Raise e ->
                    is_urllib_error e = false
                    /\ exists p, (1 <= p <= 10)%nat
                         /\ (urlopen w (search_url encoded_query p) = Raise e
                             \/ exists resp,
                                  urlopen w (search_url encoded_query p) = Return resp
                                  /\ read_whole (chunks resp) = Raise e))).
    { intros st1 [E|(e & E & Ue & C)]; injection E as -> ->;
        (split; [reflexivity|]); (split; [reflexivity|]);
        (split; [exists [url]; split; [exact L1 | now constructor]|]).
      - discriminate.
      - intros e' [= <-]. split; [exact Ue|]. exists page. split; [lia | exact C]. }
    destruct (urlopen w url) as [resp|e] eqn:U.
    2:{ destruct e; cbn in H; unfold ret, raise in H;
          first [ apply (Stop st); left; exact (eq_sym H)
                | apply (Stop st); right; eexists; split; [exact (eq_sym H)|];
                  split; [reflexivity | left; reflexivity] ]. }
    rewrite read_all_result in H.
    destruct (read_whole (chunks resp)) as [html_content|e] eqn:R.
    2:{ destruct e; cbn in H; unfold ret, raise in H;
          first [ apply (Stop st); left; exact (eq_sym H)
                | apply (Stop st); right; eexists; split; [exact (eq_sym H)|];
                  split; [reflexivity | right; exists resp; split; [reflexivity | exact R]] ]. }
    cbn [ret] in H. unfold ret in H.
    destruct (new_boards unescape _ seen) as [page_boards seen1].
    destruct (bool_decide (page_boards = [])).
    { apply (Stop st). left. exact (eq_sym H). }
    destruct (analyse_boards _ _ _ _ _ page_boards st w1) as [ra w2] eqn:A.
    apply analyse_boards_world in A as ((st2 & keep & ->) & D2 & U2 & new2 & L2 & F2).
    assert (Here : forall st1, (r, w') = (Return st1, w2) ->
              output_dir w' = output_dir w /\ urlopen w' = urlopen w
              /\ (exists new, requests (log w') = requests (log w) ++ new
                              /\ Forall (search_request encoded_query) new)
              /\ (forall e, r = Raise e ->
                    is_urllib_error e = false
                    /\ exists p, (1 <= p <= 10)%nat
                         /\ (urlopen w (search_url encoded_query p) = Raise e
                             \/ exists resp,
                                  urlopen w (search_url encoded_query p) = Return resp
                                  /\ read_whole (chunks resp) = Raise e))).
    { intros st1 [= -> ->]. split; [exact D2|]. split; [exact U2|].
      split; [|discriminate]. exists (url :: new2). split.
      - rewrite L2, L1. now rewrite <- app_assoc.
      - now constructor. }
    destruct (max_results <=? downloadable_count st2)%nat.
    { apply (Here st2). exact (eq_sym H). }
    destruct keep; [|apply (Here st2); exact (eq_sym H)].
    apply IH in H as (D3 & U3 & (new3 & L3 & F3) & Fail); [|lia|lia].
    split; [rewrite D3, D2; reflexivity|].
    split; [rewrite U3, U2; reflexivity|]. split.
    + exists (url :: new2 ++ new3). split.
      * rewrite L3, L2, L1. now rewrite <- !app_assoc.
      * constructor; [exact Rq|]. apply Forall_app. auto.
    + intros e He. destruct (Fail e He) as (Ue & p & Hp & C).
      split; [exact Ue|]. exists p. split; [exact Hp|].
      rewrite U2 in C. exact C.
Qed.

End SearchWorld.

(** X19 — a search only reads: [search_boards] leaves the output directory
    as it is, and requests nothing but result pages of the query, the
    tenth at most, and board pages. *)
Theorem search_only_reads :
  forall (unescape : pystr -> pystr) (int_max_str_digits : nat)
         (min_views min_sounds : Z) (max_results : nat)
         (encoded_query : pystr) (w w' : world) (r : result (list board)),
    search_boards unescape int_max_str_digits min_views min_sounds
      max_results encoded_query w = (r, w') ->
    output_dir w' = output_dir w
    /\ exists new, requests (log w') = requests (log w) ++ new
                   /\ Forall (search_request encoded_query) new.
Proof.
  intros unescape limit min_views min_sounds max_results q w w' r H.
  unfold search_boards, bind in H.
  destruct (search_pages _ _ _ _ _ q 10 1 ∅ search_state0 w) as [rs w1] eqn:S.
  apply search_pages_world in S as (D & _ & N & _); [|lia|lia].
  destruct rs; injection H as <- <-; auto.
Qed.


Lemma search_only_reads_witness :
  let r := search_boards html_unescape 4300 0 0 20 (lit "q") two_board_world in
  r = (fst r, snd r)
  /\ output_dir (snd r) = Absent
  /\ requests (log (snd r))
     = [lit "https://www.soundboard.com/search/q";
        lit "https://www.soundboard.com/sb/quiet";
        lit "https://www.soundboard.com/sb/loud";
        lit "https://www.soundboard.com/search/q?page=2"]
  /\ exists new, requests (log (snd r)) = requests (log two_board_world) ++ new
                 /\ Forall (search_request (lit "q")) new.
Proof.
  intros r.
  assert (H : r = (fst r, snd r)) by (vm_compute; reflexivity).
  split; [exact H|].
  destruct (search_only_reads html_unescape 4300 0 0 20 (lit "q")
              two_board_world (snd r) (fst r) H) as [D N].
  split; [exact D|]. split; [vm_compute; reflexivity | exact N].
Defined.


(** * Properties of the board name *)

Lemma lstrip_head (p : ascii -> bool) (s : pystr) :
  match lstrip p s with [] => True | c :: _ => p c = false end.
Proof.
  induction s as [|c s IH]; [exact I|]. simpl.
  destruct (p c) eqn:Pc; [exact IH | exact Pc].
Qed.

Lemma strip_idem (s : pystr) : strip (strip s) = strip s.
Proof.
  assert (H : match strip s with [] => True | c :: _ => isspace c = false end).
  { unfold strip. pose proof (lstrip_head isspace s) as Hy.
    destruct (rstrip_prefix isspace (lstrip isspace s)) as (t & E & _).
    destruct (rstrip isspace (lstrip isspace s)) as [|c r]; [exact I|].
    rewrite E in Hy. exact Hy. }
  apply strip_id; [exact H|]. unfold strip. apply rstrip_last.
Qed.

Lemma replace_skip (old new : pystr) : forall s t,
  replace_from old new (List.length s) (s ++ t) = replace_from old new O t.
Proof.
  induction s as [|c s IH]; intros t; [reflexivity|].
  cbn [List.length app replace_from]. destruct t as [|d t].
  - rewrite app_nil_r. clear IH. induction s as [|x s IHs]; [reflexivity|].
    cbn [List.length replace_from]. exact IHs.
  - apply IH.
Qed.

Lemma startswith_app (p s : pystr) : startswith p (p ++ s) = true.
Proof.
  induction p as [|c p IH]; [reflexivity|]. cbn [app startswith].
  now rewrite Ascii.eqb_refl.
Qed.

Lemma replace_prefix (c : ascii) (old new s : pystr) :
  replace (c :: old) new ((c :: old) ++ s)
  = new ++ replace (c :: old) new s.
Proof.
  unfold replace. cbn [app replace_from].
  change (startswith (c :: old) (c :: old ++ s))
    with (startswith (c :: old) ((c :: old) ++ s)).
  rewrite startswith_app. cbn [List.length pred]. now rewrite replace_skip.
Qed.

Lemma in_filter_neq (c : ascii) (s : pystr) :
  ~ In c (List.filter (fun x => negb (Ascii.eqb c x)) s).
Proof.
  intros H. apply filter_In in H as [_ H].
  now rewrite Ascii.eqb_refl in H.
Qed.

(** X21 — a board name extracted from a URL path is never empty, holds no
    slash and neither starts nor ends with whitespace. *)
Theorem extract_board_name_shape :
  forall (path name : pystr),
    _extract_board_name path = Return name ->
    name <> [] /\ ~ In "/"%char name /\ strip name = name.
Proof.
  intros path name. unfold _extract_board_name.
  destruct (_ || _); [discriminate|]. cbv zeta.
  destruct (bool_decide (strip _ = [])) eqn:B; [discriminate|].
  apply bool_decide_eq_false in B. intros [= <-].
  split; [exact B|]. split; [|apply strip_idem].
  intros H. unfold strip in H. apply rstrip_incl, lstrip_incl in H.
  change (lit "/") with ["/"%char] in H. rewrite replace_char_nil in H.
  now apply in_filter_neq in H.
Qed.

Lemma extract_board_name_shape_witness :
  _extract_board_name (lit "/sb/starwars/") = Return (lit "starwars")
  /\ lit "starwars" <> [] /\ ~ In "/"%char (lit "starwars")
  /\ strip (lit "starwars") = lit "starwars".
Proof.
  assert (H : _extract_board_name (lit "/sb/starwars/") = Return (lit "starwars"))
    by (vm_compute; reflexivity).
  split; [exact H|].
  exact (extract_board_name_shape (lit "/sb/starwars/") (lit "starwars") H).
Defined.

Lemma extract_board_name_sb (name : pystr) :
  name <> [] -> ~ In "/"%char name -> strip name = name ->
  _extract_board_name (lit "/sb/" ++ name) = Return name.
Proof.
  intros N S T. unfold _extract_board_name.
  rewrite bool_decide_eq_false_2 by discriminate.
  rewrite bool_decide_eq_false_2.
  2:{ destruct name; [contradiction | discriminate]. }
  cbn [orb]. cbv zeta.
  change (lit "/sb/") with ("/"%char :: lit "sb/").
  rewrite replace_prefix. cbn [app].
  rewrite replace_absent by exact S.
  change (lit "/") with ("/"%char :: []). rewrite replace_absent by exact S.
  rewrite T. now rewrite bool_decide_eq_false_2.
Qed.

(** X22 — the path of a board page gives back the board: for a name that is
    not empty, holds no slash and neither starts nor ends with
    whitespace, the object built from the path [/sb/] and the name has
    that name, and the page [_fetch_page] requests for it is the page of
    the board. *)
Theorem board_path_round_trip :
  forall (name : pystr),
    name <> [] -> ~ In "/"%char name -> strip name = name ->
    _extract_board_name (lit "/sb/" ++ name) = Return name
    /\ exists self,
         __init__ (lit "/sb/" ++ name) = Return self
         /\ board_name self = name
         /\ page_url self = lit "https://www.soundboard.com" ++ lit "/sb/" ++ name.
Proof.
  intros name N S T. pose proof (extract_board_name_sb name N S T) as E.
  split; [exact E|]. unfold __init__. rewrite E.
  eexists. split; [reflexivity|]. split; reflexivity.
Qed.

Lemma board_path_round_trip_witness :
  _extract_board_name (lit "/sb/" ++ lit "R2D2_R2_D2_sounds")
    = Return (lit "R2D2_R2_D2_sounds")
  /\ exists self,
       __init__ (lit "/sb/" ++ lit "R2D2_R2_D2_sounds") = Return self
       /\ board_name self = lit "R2D2_R2_D2_sounds"
       /\ page_url self
          = lit "https://www.soundboard.com" ++ lit "/sb/" ++ lit "R2D2_R2_D2_sounds".
Proof.
  apply (board_path_round_trip (lit "R2D2_R2_D2_sounds")).
  - discriminate.
  - vm_compute. intuition discriminate.
  - vm_compute. reflexivity.
Defined.

(** ** The names of the boards found *)

Lemma board_char_props c :
  board_char c = true ->
  c <> "/"%char /\ c <> "&"%char /\ isspace c = false.
Proof.
  destruct c as [[] [] [] [] [] [] [] []]; vm_compute; intros H;
    try discriminate H; split_and!; congruence.
Qed.

Lemma board_chars_plain_name (n : pystr) :
  n <> [] -> forallb board_char n = true ->
  ~ In "/"%char n /\ ~ In "&"%char n /\ strip n = n.
Proof.
  intros N B. rewrite forallb_forall in B. split_and!.
  - intros H. now destruct (board_char_props _ (B _ H)) as (? & _).
  - intros H. now destruct (board_char_props _ (B _ H)) as (_ & ? & _).
  - apply strip_id.
    + destruct n as [|c r]; [exact I|].
      now destruct (board_char_props c (B c (or_introl eq_refl))) as (_ & _ & ?).
    + destruct (rev n) as [|c r] eqn:R; [exact I|].
      assert (Hc : In c n) by (apply in_rev; rewrite R; now left).
      now destruct (board_char_props c (B c Hc)) as (_ & _ & ?).
Qed.

Lemma board_pattern_group (html_content : pystr) (m : pystr * groups) :
  In m (findall board_pattern html_content) ->
  group 0 m <> [] /\ forallb board_char (group 0 m) = true.
Proof.
  intros H. apply findall_groups in H as (t & rest & M).
  apply (first_group_class (lit "/sb/")) in M as (d & t' & E & N & B & _).
  unfold group. rewrite E. auto.
Qed.

Section SearchNames.

Variable unescape : pystr -> pystr.
Variable int_max_str_digits : nat.
Variables min_views min_sounds : Z.
Variable max_results : nat.

(** A property of the names the result pages give. *)
Variable Q : pystr -> Prop.
Hypothesis Q_found : forall html_content m,
  In m (findall board_pattern html_content) -> Q (unescape (group 0 m)).

Lemma new_boards_from boards : forall seen l seen',
  new_boards unescape boards seen = (l, seen') ->
  forall n, In n l -> exists b, In b boards /\ n = unescape b.
Proof.
  induction boards as [|b rest IH]; intros seen l seen' H n Hn;
    cbn [new_boards] in H.
  - injection H as <- <-. destruct Hn.
  - destruct (_ && _).
    + destruct (new_boards unescape rest _) as [l1 s1] eqn:R.
      injection H as <- <-. destruct Hn as [<-|Hn].
      * exists b. split; [now left | reflexivity].
      * destruct (IH _ _ _ R n Hn) as (x & Hx & ->). exists x. split; [now right | reflexivity].
    + destruct (IH _ _ _ H n Hn) as (x & Hx & ->). exists x. split; [now right | reflexivity].
Qed.

Lemma analyse_boards_names page_boards : forall st w st' keep w',
  analyse_boards unescape int_max_str_digits min_views min_sounds max_results
    page_boards st w = (Return (st', keep), w') ->
  forall n, In n (board_names st') -> In n (board_names st) \/ In n page_boards.
Proof.
  induction page_boards as [|board_name rest IH]; intros st w st' keep w' H n Hn.
  - injection H as <- <- <-. now left.
  - cbn [analyse_boards] in H.
    destruct (max_results <=? downloadable_count st)%nat.
    + injection H as <- <- <-. now left.
    + unfold bind at 1, try_except in H.
      match type of H with
      | context [match ?m w with _ => _ end] => destruct (m w) as [[st1|e] w1] eqn:A
      end.
      * unfold bind in A. destruct (do_urlopen _ w) as [[resp|e] wa]; [|discriminate].
        destruct (read_all resp wa) as [[board_html|e] wb]; [|discriminate].
        injection A as <- <-.
        destruct (IH _ _ _ _ _ H n Hn) as [Hs|Hr]; [|right; now right].
        unfold board_names, consider in Hs.
        destruct (meets_filters _ _ _); cbn [results] in Hs; [|now left].
        rewrite map_app in Hs. apply in_app_or in Hs as [Hs|[<-|[]]]; [now left|].
        right. now left.
      * unfold ret in H. destruct (IH _ _ _ _ _ H n Hn) as [Hs|Hr]; auto.
        right. now right.
Qed.

Lemma search_pages_names q pages_left : forall page seen st w st' w',
  search_pages unescape int_max_str_digits min_views min_sounds max_results
    q pages_left page seen st w = (Return st', w') ->
  (forall n, In n (board_names st) -> Q n) ->
  forall n, In n (board_names st') -> Q n.
Proof using Q_found.
  induction pages_left as [|k IH]; intros page seen st w st' w' H I.
  - injection H as <- <-. exact I.
  - cbn [search_pages] in H. unfold bind at 1 in H.
    match type of H with
    | context [match ?m w with _ => _ end] => destruct (m w) as [[fetched|e] w1]
    end; [|discriminate].
    destruct fetched as [html_content|].
    2:{ injection H as <- <-. exact I. }
    destruct (new_boards unescape _ seen) as [page_boards seen1] eqn:NB.
    destruct (bool_decide (page_boards = [])).
    { injection H as <- <-. exact I. }
    unfold bind at 1 in H.
    destruct (analyse_boards _ _ _ _ _ page_boards st w1) as [[[st1 keep]|e] w2] eqn:A;
      [|discriminate].
    assert (I1 : forall n, In n (board_names st1) -> Q n).
    { intros n Hn. destruct (analyse_boards_names _ _ _ _ _ _ A n Hn) as [Hs|Hp].
      - now apply I.
      - destruct (new_boards_from _ _ _ _ NB n Hp) as (b & Hb & ->).
        apply in_map_iff in Hb as (m & <- & Hm). eapply Q_found, Hm. }
    destruct (max_results <=? downloadable_count st1)%nat.
    { injection H as <- <-. exact I1. }
    destruct keep.
    + eapply IH; eassumption.
    + injection H as <- <-. exact I1.
Qed.

End SearchNames.

(** X23 — every board a search returns can be handed to the downloader: its
    name is a non-empty string of letters, digits, [_] and [-], and the
    object built from the path [/sb/] and the name is the one of that
    board. *)
Theorem found_boards_can_be_snagged :
  forall (int_max_str_digits : nat) (min_views min_sounds : Z)
         (max_results : nat) (encoded_query : pystr) (w w' : world)
         (found : list board) (b : board),
    search_boards html_unescape int_max_str_digits min_views min_sounds
      max_results encoded_query w = (Return found, w') ->
    In b found ->
    name b <> [] /\ forallb board_char (name b) = true
    /\ __init__ (lit "/sb/" ++ name b)
       = Return {| board_name := name b; base_url := BASE_URL |}.
Proof.
  intros limit min_views min_sounds max_results q w w' found b H Hb.
  apply search_boards_final in H as (st & S & ->).
  apply In_final_results in Hb as [Hb _].
  assert (Q : name b <> [] /\ forallb board_char (name b) = true).
  { refine (search_pages_names html_unescape limit min_views min_sounds max_results
              (fun n => n <> [] /\ forallb board_char n = true) _
              q 10 1 ∅ search_state0 w st w' S _ (name b) _).
    - intros html m Hm. apply board_pattern_group in Hm as [N B].
      destruct (board_chars_plain_name _ N B) as (_ & A & _).
      rewrite html_unescape_plain by exact A. auto.
    - intros n [].
    - unfold board_names. now apply in_map. }
  destruct Q as [N B]. split; [exact N|]. split; [exact B|].
  destruct (board_chars_plain_name _ N B) as (S1 & _ & S2).
  unfold __init__. now rewrite extract_board_name_sb.
Qed.

Lemma found_boards_can_be_snagged_witness :
  let r := search_boards html_unescape 4300 0 0 20 (lit "q") two_board_world in
  r = (Return [{| name := lit "loud"; has_downloads := true; sounds_info := [];
                  sound_count := 0; views := lit "1,234"; views_int := 1234 |};
               quiet_board true], snd r)
  /\ __init__ (lit "/sb/" ++ lit "quiet")
     = Return {| board_name := lit "quiet"; base_url := BASE_URL |}.
Proof.
  intros r.
  assert (H : r = (Return [{| name := lit "loud"; has_downloads := true;
                              sounds_info := []; sound_count := 0;
                              views := lit "1,234"; views_int := 1234 |};
                           quiet_board true], snd r))
    by (vm_compute; reflexivity).
  split; [exact H|].
  apply (found_boards_can_be_snagged 4300 0 0 20 (lit "q") two_board_world (snd r)
           _ (quiet_board true) H).
  right. left. reflexivity.
Defined.

(** * The views of a board page *)

Lemma rmatch_lits_then (l : pystr) (r : regex) (s : pystr) (cs : groups) (k : cont) :
  rmatch (Cat (lits l) r) (l ++ s) cs k = rmatch r s cs k.
Proof. rewrite rmatch_cat. apply rmatch_lits. Qed.

Lemma rmatch_star_then (p : ascii -> bool) (r : regex) (x s : pystr)
  (cs : groups) (k : cont) :
  forallb p x = true ->
  match s with [] => True | d :: _ => p d = false end ->
  rmatch r s cs k <> None ->
  rmatch (Cat (Star true (Chr p)) r) (x ++ s) cs k = rmatch r s cs k.
Proof.
  intros Px Stop K. rewrite rmatch_cat, rmatch_star.
  now apply (star_greedy_run p (fun s' cs' => rmatch r s' cs' k)).
Qed.

Lemma rmatch_group_then (p : ascii -> bool) (r : regex) (x s : pystr)
  (cs : groups) (k : cont) :
  x <> [] -> forallb p x = true ->
  match s with [] => True | d :: _ => p d = false end ->
  rmatch r s (cs ++ [x]) k <> None ->
  rmatch (Cat (Grp (Plus true (Chr p))) r) (x ++ s) cs k
  = rmatch r s (cs ++ [x]) k.
Proof.
  intros N Px Stop K. rewrite rmatch_cat. cbn [rmatch].
  fold (rmatch (Plus true (Chr p))).
  rewrite (plus_greedy_run p
             (fun s' cs' => rmatch r s' (cs' ++ [consumed (x ++ s) s']) k));
    try assumption; now rewrite consumed_app.
Qed.

Lemma lits_start (l : pystr) (rs : list regex) (u : pystr) :
  match_at (Seq (lits l :: rs)) u <> None -> startswith l u = true.
Proof.
  intros H. destruct (match_at _ u) as [[rest cs]|] eqn:M; [|contradiction].
  apply match_at_sound in M. seq_step M s1 cs1 M1.
  apply matches_lits in M1 as [-> _]. apply startswith_app.
Qed.

Lemma no_start_first (l pre t : pystr) :
  no_start l pre t = true -> first_start l pre t.
Proof.
  induction pre as [|c pre IH]; intros H p1 p2 E N.
  - destruct p1; [|discriminate E]. cbn [app] in E. now subst p2.
  - cbn [no_start] in H. apply andb_true_iff in H as [H1 H2].
    destruct p1 as [|d p1]; cbn [app] in E.
    + subst p2. now apply negb_true_iff in H1.
    + injection E as _ E. now apply (IH H2 p1 p2).
Qed.

Lemma views_pattern_start (u : pystr) :
  startswith (lit "<strong>Views:") u = false -> match_at views_pattern u = None.
Proof.
  intros St. destruct (match_at views_pattern u) as [m|] eqn:E; [|reflexivity].
  assert (H : startswith (lit "<strong>Views:") u = true).
  { apply (lits_start _ [Star true (Chr isspace); Lit "</strong>";
                        Star true (Chr isspace);
                        QLit "<span class=~text-muted~>";
                        Star true (Chr isspace); Grp (Plus true (Not "<"));
                        Lit "</span>"]).
    change (match_at views_pattern u <> None). rewrite E. discriminate. }
  rewrite St in H. discriminate.
Qed.

Lemma views_pattern_run (ws1 ws2 ws3 label post : pystr) (c : ascii) (l : pystr) :
  forallb isspace ws1 = true -> forallb isspace ws2 = true ->
  forallb isspace ws3 = true ->
  label = c :: l -> isspace c = false -> ~ In "<"%char label ->
  match_at views_pattern (views_markup ws1 ws2 ws3 label post)
  = Some (post, [label]).
Proof.
  intros W1 W2 W3 El Sc Hl. unfold match_at, views_markup.
  set (K := fun (rest : pystr) (cs : groups) => Some (rest, cs)).
  change views_pattern
    with (Cat (lits (lit "<strong>Views:"))
          (Cat (Star true (Chr isspace))
           (Cat (lits (lit "</strong>"))
            (Cat (Star true (Chr isspace))
             (Cat (lits (qlit "<span class=~text-muted~>"))
              (Cat (Star true (Chr isspace))
               (Cat (Grp (Plus true (Chr (fun c => negb (one_of "<" c)))))
                (Cat (lits (lit "</span>")) Eps)))))))).
  assert (V8 : forall cs, rmatch (Cat (lits (lit "</span>")) Eps)
                            (lit "</span>" ++ post) cs K = Some (post, cs)).
  { intros cs. now rewrite rmatch_lits_then. }
  assert (Pl : forallb (fun c => negb (one_of "<" c)) label = true).
  { apply forallb_forall. intros x Hx. unfold one_of. cbn [lit list_ascii_of_string existsb].
    rewrite orb_false_r. destruct (Ascii.eqb x "<") eqn:E; [|reflexivity].
    apply Ascii.eqb_eq in E. subst x. contradiction. }
  rewrite rmatch_lits_then.
  rewrite rmatch_star_then; [|exact W1|reflexivity|].
  2:{ rewrite rmatch_lits_then.
      rewrite rmatch_star_then; [|exact W2|reflexivity|].
      2:{ rewrite rmatch_lits_then.
          rewrite rmatch_star_then; [|exact W3|rewrite El; exact Sc|].
          2:{ rewrite rmatch_group_then; [|rewrite El; discriminate|exact Pl|reflexivity|];
                rewrite V8; discriminate. }
          rewrite rmatch_group_then; [|rewrite El; discriminate|exact Pl|reflexivity|];
            rewrite V8; discriminate. }
      rewrite rmatch_lits_then.
      rewrite rmatch_star_then; [|exact W3|rewrite El; exact Sc|].
      2:{ rewrite rmatch_group_then; [|rewrite El; discriminate|exact Pl|reflexivity|];
            rewrite V8; discriminate. }
      rewrite rmatch_group_then; [|rewrite El; discriminate|exact Pl|reflexivity|];
        rewrite V8; discriminate. }
  rewrite rmatch_lits_then.
  rewrite rmatch_star_then; [|exact W2|reflexivity|].
  2:{ rewrite rmatch_lits_then.
      rewrite rmatch_star_then; [|exact W3|rewrite El; exact Sc|].
      2:{ rewrite rmatch_group_then; [|rewrite El; discriminate|exact Pl|reflexivity|];
            rewrite V8; discriminate. }
      rewrite rmatch_group_then; [|rewrite El; discriminate|exact Pl|reflexivity|];
        rewrite V8; discriminate. }
  rewrite rmatch_lits_then.
  rewrite rmatch_star_then; [|exact W3|rewrite El; exact Sc|].
  2:{ rewrite rmatch_group_then; [|rewrite El; discriminate|exact Pl|reflexivity|];
        rewrite V8; discriminate. }
  rewrite rmatch_group_then; [|rewrite El; discriminate|exact Pl|reflexivity|].
  - now rewrite V8.
  - rewrite V8. discriminate.
Qed.

(** X24 — the views of a board are read from the first views label of its
    page: where the page holds, for the first time, the text
    [<strong>Views:], the closing tag, the opening of the muted span and
    a label without [<] that does not start with whitespace, up to
    [</span>], with only whitespace in between, the views of the board
    are the label, stripped and with its entities decoded, and the
    number of views is that text as [parse_views] reads it. *)
Theorem views_label_is_read :
  forall (unescape : pystr -> pystr) (int_max_str_digits : nat)
         (board_name pre ws1 ws2 ws3 label post : pystr) (c : ascii) (l : pystr),
    first_start (lit "<strong>Views:") pre (views_markup ws1 ws2 ws3 label post) ->
    forallb isspace ws1 = true -> forallb isspace ws2 = true ->
    forallb isspace ws3 = true ->
    label = c :: l -> isspace c = false -> ~ In "<"%char label ->
    let b := analyse unescape int_max_str_digits board_name
               (pre ++ views_markup ws1 ws2 ws3 label post) in
    views b = unescape (strip label)
    /\ views_int b = parse_views int_max_str_digits (unescape (strip label)).
Proof.
  intros unescape limit board_name pre ws1 ws2 ws3 label post c l F W1 W2 W3 El Sc Hl b.
  assert (S : re_search views_pattern (pre ++ views_markup ws1 ws2 ws3 label post)
              = Some (consumed (views_markup ws1 ws2 ws3 label post) post, [label])).
  { apply re_search_leftmost.
    - intros p1 p2 E N. apply views_pattern_start.
      now apply (F p1 p2).
    - now apply (views_pattern_run ws1 ws2 ws3 label post c l). }
  assert (V : views b = unescape (strip label)).
  { unfold b, analyse. cbn [views]. rewrite S. reflexivity. }
  split; [exact V|]. unfold b in *. unfold analyse in *. cbn [views views_int] in *.
  now rewrite V.
Qed.

Lemma views_label_is_read_witness :
  let b := analyse html_unescape 4300 (lit "loud")
             (lit "<h1>loud</h1>"
              ++ views_markup [] (lit " ") (lit " ") (lit "1,234 ") []) in
  first_start (lit "<strong>Views:") (lit "<h1>loud</h1>")
    (views_markup [] (lit " ") (lit " ") (lit "1,234 ") [])
  /\ views b = lit "1,234" /\ views_int b = 1234.
Proof.
  intros b.
  assert (F : first_start (lit "<strong>Views:") (lit "<h1>loud</h1>")
                (views_markup [] (lit " ") (lit " ") (lit "1,234 ") [])).
  { apply no_start_first. vm_compute. reflexivity. }
  split; [exact F|].
  assert (NI : ~ In "<"%char (lit "1,234 ")).
  { vm_compute. intuition discriminate. }
  pose proof (views_label_is_read html_unescape 4300 (lit "loud")
                (lit "<h1>loud</h1>") [] (lit " ") (lit " ") (lit "1,234 ") []
                "1"%char (lit ",234 ") F eq_refl eq_refl eq_refl eq_refl
                eq_refl NI) as P.
  cbv zeta in P. destruct P as [V I]. subst b.
  split; [rewrite V | rewrite I]; vm_compute; reflexivity.
Defined.
